(** * voxly: task lifecycle and resilience primitives

    A shallow embedding of the Go packages [resilience], [model],
    [storage], [speechkit], [worker] and [bot], followed by the
    properties of the specification that concern them.

    Conventions of the embedding
    - Go's [error] is [option error]; [None] is [nil].
    - [time.Time] is an integer number of nanoseconds, [time.Duration]
      a 64-bit integer number of nanoseconds.
    - fixed-width arithmetic is written out with [wrap64] and [wrap32u].
    - a closure [func() error] is a function of the current time and of
      the variables it captured; it answers with an error, the new
      captured variables and the time it took. *)

From Stdlib Require Import ZArith List String Bool Lia Arith DecimalString.
From Stdlib Require DecimalZ DecimalPos.
Import ListNotations.
Open Scope Z_scope.

(** ** Machine integers and time *)

Definition minInt64 : Z := - 2 ^ 63.
Definition maxInt64 : Z := 2 ^ 63 - 1.

(** Two's complement wrap-around of Go's [int] and [int64]. *)
Definition wrap64 (x : Z) : Z := (x + 2 ^ 63) mod 2 ^ 64 - 2 ^ 63.

(** Wrap-around of Go's [uint32]. *)
Definition wrap32u (x : Z) : Z := x mod 2 ^ 32.

(** [t.Sub(u)]: the difference of two instants, saturated to the range of
    [time.Duration]. *)
Definition Sub (t u : Z) : Z := Z.max minInt64 (Z.min maxInt64 (t - u)).

(** The zero value of [time.Time] (January 1, year 1), in nanoseconds
    relative to the Unix epoch. *)
Definition zeroTime : Z := - 62135596800 * 10 ^ 9.

(** Go errors that the modelled packages create or return. *)
Inductive error : Type :=
| ErrCircuitOpen                 (* errors.New("circuit breaker is open") *)
| ErrTooManyRequests             (* errors.New("too many requests") *)
| Canceled                       (* context.Canceled *)
| DeadlineExceeded               (* context.DeadlineExceeded *)
| Errorf (msg : string).         (* fmt.Errorf / errors.New of a caller *)

(** ** Package resilience *)

Module resilience.

Inductive State : Type := StateClosed | StateOpen | StateHalfOpen.

Definition State_eqb (a b : State) : bool :=
  match a, b with
  | StateClosed, StateClosed | StateOpen, StateOpen
  | StateHalfOpen, StateHalfOpen => true
  | _, _ => false
  end.

Record CircuitBreaker : Type := mkCircuitBreaker {
  maxFailures : Z;        (* uint32 *)
  timeout : Z;            (* time.Duration *)
  state : State;
  failures : Z;           (* uint32 *)
  lastFailTime : Z        (* time.Time *)
}.

Definition NewCircuitBreaker (maxFailures timeout : Z) : CircuitBreaker :=
  {| maxFailures := maxFailures; timeout := timeout;
     state := StateClosed; failures := 0; lastFailTime := zeroTime |}.

Definition set_state (s : State) (cb : CircuitBreaker) : CircuitBreaker :=
  {| maxFailures := maxFailures cb; timeout := timeout cb;
     state := s; failures := failures cb; lastFailTime := lastFailTime cb |}.

Definition set_failures (f : Z) (cb : CircuitBreaker) : CircuitBreaker :=
  {| maxFailures := maxFailures cb; timeout := timeout cb;
     state := state cb; failures := f; lastFailTime := lastFailTime cb |}.

Definition set_lastFailTime (t : Z) (cb : CircuitBreaker) : CircuitBreaker :=
  {| maxFailures := maxFailures cb; timeout := timeout cb;
     state := state cb; failures := failures cb; lastFailTime := t |}.

Definition GetState (cb : CircuitBreaker) : State := state cb.

Definition Reset (cb : CircuitBreaker) : CircuitBreaker :=
  set_failures 0 (set_state StateClosed cb).

(** [context.Context] as the resilience package uses it: the instant at
    which [Done()] becomes readable (never, for [None]) and the error
    [Err()] reports from then on. *)
Record Context : Type := mkContext {
  doneAt : option Z;
  reason : error
}.

Definition Background : Context := {| doneAt := None; reason := Canceled |}.

Definition isDone (ctx : Context) (now : Z) : bool :=
  match doneAt ctx with
  | Some c => c <=? now
  | None => false
  end.

Record RateLimiter : Type := mkRateLimiter {
  rate : Z;               (* int *)
  interval : Z;           (* time.Duration *)
  tokens : Z;             (* int *)
  lastTime : Z            (* time.Time *)
}.

Definition NewRateLimiter (rate interval now : Z) : RateLimiter :=
  {| rate := rate; interval := interval; tokens := rate; lastTime := now |}.

Definition set_tokens (n : Z) (rl : RateLimiter) : RateLimiter :=
  {| rate := rate rl; interval := interval rl; tokens := n;
     lastTime := lastTime rl |}.

Definition refill (n now : Z) (rl : RateLimiter) : RateLimiter :=
  {| rate := rate rl; interval := interval rl; tokens := n;
     lastTime := now |}.

(** [rl.Allow()] called at instant [now].  [None] is the run-time panic of
    the integer division when [interval] is zero. *)
Definition Allow (rl : RateLimiter) (now : Z) : option (bool * RateLimiter) :=
  let elapsed := Sub now (lastTime rl) in
  if interval rl =? 0 then None
  else
    let tokensToAdd := wrap64 (Z.quot elapsed (interval rl)) in
    let rl1 :=
      if tokensToAdd >? 0 then
        let t := wrap64 (tokens rl + tokensToAdd) in
        refill (if t >? rate rl then rate rl else t) now rl
      else rl in
    if tokens rl1 >? 0
    then Some (true, set_tokens (wrap64 (tokens rl1 - 1)) rl1)
    else Some (false, rl1).

(** The replenishment rule in the words of the specification: [rate]
    tokens for every elapsed [interval].  Only used to compare with
    [Allow]. *)
Definition Allow_rate_per_interval (rl : RateLimiter) (now : Z)
  : option (bool * RateLimiter) :=
  let elapsed := Sub now (lastTime rl) in
  if interval rl =? 0 then None
  else
    let tokensToAdd := rate rl * Z.quot elapsed (interval rl) in
    let rl1 :=
      if tokensToAdd >? 0 then
        let t := tokens rl + tokensToAdd in
        refill (if t >? rate rl then rate rl else t) now rl
      else rl in
    if tokens rl1 >? 0
    then Some (true, set_tokens (tokens rl1 - 1) rl1)
    else Some (false, rl1).

(** The number of tokens [Allow] finds after its replenishment, when no
    count overflows. *)
Definition available (rl : RateLimiter) (now : Z) : Z :=
  let k := Z.quot (Sub now (lastTime rl)) (interval rl) in
  if k >? 0 then Z.min (rate rl) (tokens rl + k) else tokens rl.

Section Closures.

(** The variables a closure captures. *)
Variable Env : Type.

(** [func() error]: from the instant of the call and the captured
    variables to the returned error, the captured variables afterwards
    and the duration of the call. *)
Definition Func : Type := Z -> Env -> option error * Env * Z.

(** What a run of the package's functions can observe and change: the
    clock, the captured variables, and a log of the closure's
    invocations (instant of the call and returned error, latest first). *)
Record Machine : Type := mkMachine {
  clock : Z;
  captured : Env;
  invocations : list (Z * option error)
}.

Definition call (fn : Func) (m : Machine) : option error * Machine :=
  let '(e, env', d) := fn (clock m) (captured m) in
  (e, {| clock := clock m + Z.max 0 d; captured := env';
         invocations := (clock m, e) :: invocations m |}).

(** [time.Sleep(d)]: returns at once for [d <= 0]. *)
Definition Sleep (d : Z) (m : Machine) : Machine :=
  {| clock := clock m + Z.max 0 d; captured := captured m;
     invocations := invocations m |}.

(** Time passing between two calls of a caller. *)
Definition elapse (d : Z) (m : Machine) : Machine := Sleep d m.

(** [cb.Execute(fn)], one caller at a time: no other call on the breaker
    runs between the gate and the bookkeeping of this one.  (The mutex is
    released while [fn] runs; [Execute_enter] and [Execute_leave] below
    are the two critical sections on their own.) *)
Definition Execute (cb : CircuitBreaker) (fn : Func) (m : Machine)
  : option error * CircuitBreaker * Machine :=
  let gate :=
    if State_eqb (state cb) StateOpen then
      if Sub (clock m) (lastFailTime cb) >? timeout cb
      then inr (set_failures 0 (set_state StateHalfOpen cb))
      else inl ErrCircuitOpen
    else inr cb in
  match gate with
  | inl e => (Some e, cb, m)
  | inr cb1 =>
      let '(err, m1) := call fn m in
      match err with
      | Some e =>
          let cb2 := set_lastFailTime (clock m1)
                       (set_failures (wrap32u (failures cb1 + 1)) cb1) in
          let cb3 := if failures cb2 >=? maxFailures cb2
                     then set_state StateOpen cb2 else cb2 in
          (Some e, cb3, m1)
      | None =>
          let cb2 := if State_eqb (state cb1) StateHalfOpen
                     then set_state StateClosed cb1 else cb1 in
          (None, set_failures 0 cb2, m1)
      end
  end.

(** A caller that lets [d] nanoseconds pass and then calls
    [cb.Execute(fn)], for every [(d, fn)] of a list in turn. *)
Definition feed (cb : CircuitBreaker) (m : Machine)
  (calls : list (Z * Func)) : CircuitBreaker * Machine :=
  fold_left
    (fun acc c =>
       let '(_, cb', m') := Execute (fst acc) (snd c) (elapse (fst c) (snd acc)) in
       (cb', m'))
    calls (cb, m).

(** [float64], and the conversion
    [time.Duration(float64(interval) * config.Multiplier)], which the
    embedding does not interpret. *)
Variable float64 : Type.
Variable scaleDuration : Z -> float64 -> Z.

Record RetryConfig : Type := mkRetryConfig {
  MaxAttempts : Z;              (* int *)
  InitialInterval : Z;          (* time.Duration *)
  MaxInterval : Z;              (* time.Duration *)
  Multiplier : float64
}.

(** The [for] loop of [RetryWithExponentialBackoff] from the loop variable
    [attempt] on.  [n] bounds the number of rounds; a loop that starts at
    0 and runs while [attempt < config.MaxAttempts] makes at most
    [MaxAttempts] rounds, so that with this bound it is the test of the
    loop that ends it.  ([attempt++] does not overflow: [attempt] is below
    [MaxAttempts].) *)
Fixpoint retryLoop (ctx : Context) (config : RetryConfig) (fn : Func)
  (n : nat) (attempt interval : Z) (lastErr : option error) (m : Machine)
  : option error * Machine :=
  match n with
  | O => (lastErr, m)
  | S n' =>
      if attempt <? MaxAttempts config then
        if isDone ctx (clock m) then (Some (reason ctx), m)
        else
          let '(err, m1) := call fn m in
          match err with
          | None => (None, m1)
          | Some _ =>
              if attempt <? wrap64 (MaxAttempts config - 1) then
                let m2 := Sleep interval m1 in
                let i1 := scaleDuration interval (Multiplier config) in
                let i2 := if i1 >? MaxInterval config
                          then MaxInterval config else i1 in
                retryLoop ctx config fn n' (attempt + 1) i2 err m2
              else
                retryLoop ctx config fn n' (attempt + 1) interval err m1
          end
      else (lastErr, m)
  end.

Definition RetryWithExponentialBackoff (ctx : Context)
  (config : RetryConfig) (fn : Func) (m : Machine)
  : option error * Machine :=
  retryLoop ctx config fn (Z.to_nat (MaxAttempts config)) 0
    (InitialInterval config) None m.

(** The backoff wait in the words of the specification: a wait that the
    cancellation signal interrupts.  It ends at the signal when the
    signal comes first and tells whether it was interrupted. *)
Definition SleepOrDone (ctx : Context) (d : Z) (m : Machine)
  : bool * Machine :=
  match doneAt ctx with
  | Some c =>
      if c <? clock m + Z.max 0 d
      then (true, {| clock := Z.max (clock m) c; captured := captured m;
                     invocations := invocations m |})
      else (false, Sleep d m)
  | None => (false, Sleep d m)
  end.

(** The retry loop with that interruptible wait.  Only used to compare
    with [retryLoop]. *)
Fixpoint retryLoop_interruptible (ctx : Context) (config : RetryConfig)
  (fn : Func) (n : nat) (attempt interval : Z) (lastErr : option error)
  (m : Machine) : option error * Machine :=
  match n with
  | O => (lastErr, m)
  | S n' =>
      if attempt <? MaxAttempts config then
        if isDone ctx (clock m) then (Some (reason ctx), m)
        else
          let '(err, m1) := call fn m in
          match err with
          | None => (None, m1)
          | Some _ =>
              if attempt <? wrap64 (MaxAttempts config - 1) then
                let '(interrupted, m2) := SleepOrDone ctx interval m1 in
                if interrupted then (Some (reason ctx), m2)
                else
                  let i1 := scaleDuration interval (Multiplier config) in
                  let i2 := if i1 >? MaxInterval config
                            then MaxInterval config else i1 in
                  retryLoop_interruptible ctx config fn n' (attempt + 1) i2 err m2
              else
                retryLoop_interruptible ctx config fn n' (attempt + 1) interval err m1
          end
      else (lastErr, m)
  end.

Definition Retry_interruptible (ctx : Context) (config : RetryConfig)
  (fn : Func) (m : Machine) : option error * Machine :=
  retryLoop_interruptible ctx config fn (Z.to_nat (MaxAttempts config)) 0
    (InitialInterval config) None m.

(** [fn] fails [n] times and then succeeds, whenever it is called,
    starting with the captured variables [env]. *)
Inductive FailsThenSucceeds (fn : Func) : nat -> Env -> Prop :=
| fts_succeeds env :
    (forall t, fst (fst (fn t env)) = None) ->
    FailsThenSucceeds fn O env
| fts_fails n env :
    (forall t, fst (fst (fn t env)) <> None) ->
    (forall t, FailsThenSucceeds fn n (snd (fst (fn t env)))) ->
    FailsThenSucceeds fn (S n) env.

(** [fn] returns an error, whenever and in whatever state it is called. *)
Definition AlwaysFails (fn : Func) : Prop :=
  forall t env, fst (fst (fn t env)) <> None.

End Closures.

Arguments clock {Env} _.
Arguments captured {Env} _.
Arguments invocations {Env} _.
Arguments mkMachine {Env} _ _ _.
Arguments call {Env} _ _.
Arguments Sleep {Env} _ _.
Arguments elapse {Env} _ _.
Arguments Execute {Env} _ _ _.
Arguments feed {Env} _ _ _.
Arguments MaxAttempts {float64} _.
Arguments InitialInterval {float64} _.
Arguments MaxInterval {float64} _.
Arguments Multiplier {float64} _.
Arguments mkRetryConfig {float64} _ _ _ _.
Arguments retryLoop {Env float64} _ _ _ _ _ _ _ _ _.
Arguments RetryWithExponentialBackoff {Env float64} _ _ _ _ _.
Arguments retryLoop_interruptible {Env float64} _ _ _ _ _ _ _ _ _.
Arguments Retry_interruptible {Env float64} _ _ _ _ _.
Arguments FailsThenSucceeds {Env} _ _ _.
Arguments AlwaysFails {Env} _.

(** The breakers that a program can hold: made by [NewCircuitBreaker] and
    then used through [Execute] and [Reset]. *)
Inductive BreakerReachable (maxF cooldown : Z) : CircuitBreaker -> Prop :=
| breaker_new : BreakerReachable maxF cooldown (NewCircuitBreaker maxF cooldown)
| breaker_Execute (Env : Type) (cb : CircuitBreaker) (fn : Func Env)
    (m : Machine Env) :
    BreakerReachable maxF cooldown cb ->
    BreakerReachable maxF cooldown (snd (fst (Execute cb fn m)))
| breaker_Reset (cb : CircuitBreaker) :
    BreakerReachable maxF cooldown cb ->
    BreakerReachable maxF cooldown (Reset cb).

(** The first critical section of [Execute], entered at instant [now]:
    the gate.  It turns the caller away or lets it go on to [fn]. *)
Definition Execute_enter (now : Z) (cb : CircuitBreaker)
  : option error * CircuitBreaker :=
  if State_eqb (state cb) StateOpen then
    if Sub now (lastFailTime cb) >? timeout cb
    then (None, set_failures 0 (set_state StateHalfOpen cb))
    else (Some ErrCircuitOpen, cb)
  else (None, cb).

(** The second critical section of [Execute], entered at instant [now]
    with the result [err] of [fn], on the breaker as it is then. *)
Definition Execute_leave (err : option error) (now : Z) (cb : CircuitBreaker)
  : CircuitBreaker :=
  match err with
  | Some _ =>
      let cb2 := set_lastFailTime now
                   (set_failures (wrap32u (failures cb + 1)) cb) in
      if failures cb2 >=? maxFailures cb2 then set_state StateOpen cb2 else cb2
  | None =>
      set_failures 0 (if State_eqb (state cb) StateHalfOpen
                      then set_state StateClosed cb else cb)
  end.

(** The breakers that callers running concurrently can produce.  A caller
    goes through the first section and, unless it is turned away, later
    through the second; the sections of other callers can come in
    between.  The number counts the callers that are between their two
    sections. *)
Inductive BreakerShared (maxF cooldown : Z) : nat -> CircuitBreaker -> Prop :=
| shared_new :
    BreakerShared maxF cooldown O (NewCircuitBreaker maxF cooldown)
| shared_enter (n : nat) (cb cb1 : CircuitBreaker) (now : Z) :
    BreakerShared maxF cooldown n cb ->
    Execute_enter now cb = (None, cb1) ->
    BreakerShared maxF cooldown (S n) cb1
| shared_leave (n : nat) (cb : CircuitBreaker) (err : option error) (now : Z) :
    BreakerShared maxF cooldown (S n) cb ->
    BreakerShared maxF cooldown n (Execute_leave err now cb)
| shared_Reset (n : nat) (cb : CircuitBreaker) :
    BreakerShared maxF cooldown n cb ->
    BreakerShared maxF cooldown n (Reset cb).

(** The waiting interval and the machine at the top of pass [k] of the
    loop of [RetryWithExponentialBackoff], counted from a pass that starts
    on the machine [m] with the interval [interval], when each of these
    [k] passes makes its attempt and sleeps. *)
Fixpoint passTop {Env float64 : Type} (scaleDuration : Z -> float64 -> Z)
  (config : RetryConfig float64) (fn : Func Env) (k : nat) (interval : Z)
  (m : Machine Env) : Z * Machine Env :=
  match k with
  | O => (interval, m)
  | S k' =>
      let i1 := scaleDuration interval (Multiplier config) in
      let i2 := if i1 >? MaxInterval config then MaxInterval config else i1 in
      passTop scaleDuration config fn k' i2 (Sleep interval (snd (call fn m)))
  end.

(** How a call of [rl.Wait(ctx)] ends: it returns, it panics (the division
    of [Allow] by a zero interval), or it is still looping when the bound
    of the model is used up. *)
Inductive WaitResult : Type :=
| Returned (err : option error) (rl : RateLimiter) (now : Z)
| Panicked
| Unfinished.

(** [select { case <-ctx.Done(): ...; case <-time.After(d): }] entered at
    instant [now]: whether the first case runs, and the instant at which
    the statement is left.  [Done()] is readable from [max now c] on and
    the timer fires at [now + max 0 d]; the case that is ready first runs,
    and when both are ready at the same instant the run time picks one,
    here [pickDone]. *)
Definition selectDoneOrAfter (pickDone : bool) (ctx : Context) (d now : Z)
  : bool * Z :=
  let fire := now + Z.max 0 d in
  match doneAt ctx with
  | Some c =>
      let ready := Z.max now c in
      if ready <? fire then (true, ready)
      else if ready =? fire then (pickDone, fire)
      else (false, fire)
  | None => (false, fire)
  end.

(** [rl.Wait(ctx)] entered at instant [now]; [round] numbers the passes
    through the loop and [fuel] bounds them. *)
Fixpoint Wait (pick : nat -> bool) (ctx : Context) (fuel round : nat)
  (rl : RateLimiter) (now : Z) : WaitResult :=
  match fuel with
  | O => Unfinished
  | S fuel' =>
      match Allow rl now with
      | None => Panicked
      | Some (true, rl') => Returned None rl' now
      | Some (false, rl') =>
          let '(done, t) :=
            selectDoneOrAfter (pick round) ctx (interval rl') now in
          if done then Returned (Some (reason ctx)) rl' t
          else Wait pick ctx fuel' (S round) rl' t
      end
  end.

(** A closure that returns at once. *)
Definition Instant {Env : Type} (fn : Func Env) : Prop :=
  forall t env, snd (fn t env) <= 0.

(** The time that [waits] backoff waits can take when the first lasts
    [interval] and every later one at most [maxInterval]. *)
Definition waitBound (maxInterval waits interval : Z) : Z :=
  if waits <=? 0 then 0
  else Z.max 0 interval + (waits - 1) * Z.max 0 maxInterval.

(** Successive calls of [rl.Allow()] at the instants [ts]: their results
    and the limiter afterwards; [None] when a call panics. *)
Fixpoint Allows (ts : list Z) (rl : RateLimiter)
  : option (list bool * RateLimiter) :=
  match ts with
  | [] => Some ([], rl)
  | t :: ts' =>
      match Allow rl t with
      | None => None
      | Some (b, rl') =>
          match Allows ts' rl' with
          | None => None
          | Some (bs, rl'') => Some (b :: bs, rl'')
          end
      end
  end.

End resilience.

(** ** Package speechkit *)

Module speechkit.

Open Scope string_scope.
Open Scope Z_scope.

Record Alternative : Type := mkAlternative {
  Text : string
}.

Record Chunk : Type := mkChunk {
  Alternatives : list Alternative;
  ChannelTag : string
}.

Record RecognitionResult : Type := mkRecognitionResult {
  Chunks : list Chunk
}.

(** [r.GetFullText()]: the two nested [range] loops, each a left fold
    that appends to [text]. *)
Definition GetFullText (r : RecognitionResult) : string :=
  fold_left
    (fun text chunk =>
       fold_left (fun text alt => text ++ Text alt ++ " ")
         (Alternatives chunk) text)
    (Chunks r) "".

(** The texts of all alternatives, in the order of the chunks and of the
    alternatives within a chunk. *)
Definition texts (r : RecognitionResult) : list string :=
  map Text (flat_map Alternatives (Chunks r)).

End speechkit.

(** ** Package model *)

Module model.

Open Scope string_scope.
Open Scope Z_scope.

Definition TaskStatus : Type := string.

Definition TaskStatusQueued : TaskStatus := "queued".
Definition TaskStatusInProgress : TaskStatus := "in_progress".
Definition TaskStatusDone : TaskStatus := "done".
Definition TaskStatusFailed : TaskStatus := "failed".

(** The values [handleVoice] stores in a [JSONB] map. *)
Inductive JSONValue : Type :=
| JInt (n : Z)
| JString (s : string).

Definition JSONB : Type := list (string * JSONValue).

Record Task : Type := mkTask {
  ID : string;
  TelegramMessageID : Z;          (* int64 *)
  ChatID : Z;                     (* int64 *)
  FileID : string;
  Status : TaskStatus;
  OperationID : option string;    (* *string *)
  Attempts : Z;                   (* int *)
  ErrorText : option string;      (* *string *)
  Meta : JSONB;
  CreatedAt : Z;
  UpdatedAt : Z
}.

Record Transcript : Type := mkTranscript {
  Transcript_ID : string;
  TaskID : string;
  Text : string;
  RawResponse : string;
  Transcript_CreatedAt : Z
}.

Definition IsCompleted (t : Task) : bool :=
  String.eqb (Status t) TaskStatusDone || String.eqb (Status t) TaskStatusFailed.

Definition CanRetry (t : Task) : bool :=
  String.eqb (Status t) TaskStatusFailed && (Attempts t <? 3).

Definition IncrementAttempts (t : Task) : Task :=
  {| ID := ID t; TelegramMessageID := TelegramMessageID t;
     ChatID := ChatID t; FileID := FileID t; Status := Status t;
     OperationID := OperationID t; Attempts := wrap64 (Attempts t + 1);
     ErrorText := ErrorText t; Meta := Meta t; CreatedAt := CreatedAt t;
     UpdatedAt := UpdatedAt t |}.

(** [t.SetError(errorText)], with [now] the value of [time.Now()]. *)
Definition SetError (errorText : string) (now : Z) (t : Task) : Task :=
  {| ID := ID t; TelegramMessageID := TelegramMessageID t;
     ChatID := ChatID t; FileID := FileID t; Status := TaskStatusFailed;
     OperationID := OperationID t; Attempts := Attempts t;
     ErrorText := Some errorText; Meta := Meta t; CreatedAt := CreatedAt t;
     UpdatedAt := now |}.

Definition SetCompleted (now : Z) (t : Task) : Task :=
  {| ID := ID t; TelegramMessageID := TelegramMessageID t;
     ChatID := ChatID t; FileID := FileID t; Status := TaskStatusDone;
     OperationID := OperationID t; Attempts := Attempts t;
     ErrorText := ErrorText t; Meta := Meta t; CreatedAt := CreatedAt t;
     UpdatedAt := now |}.

Definition SetInProgress (operationID : string) (now : Z) (t : Task) : Task :=
  {| ID := ID t; TelegramMessageID := TelegramMessageID t;
     ChatID := ChatID t; FileID := FileID t; Status := TaskStatusInProgress;
     OperationID := Some operationID; Attempts := Attempts t;
     ErrorText := ErrorText t; Meta := Meta t; CreatedAt := CreatedAt t;
     UpdatedAt := now |}.

(** The assignment [task.OperationID = &operationID] of [ProcessTask]. *)
Definition set_OperationID (operationID : string) (t : Task) : Task :=
  {| ID := ID t; TelegramMessageID := TelegramMessageID t;
     ChatID := ChatID t; FileID := FileID t; Status := Status t;
     OperationID := Some operationID; Attempts := Attempts t;
     ErrorText := ErrorText t; Meta := Meta t; CreatedAt := CreatedAt t;
     UpdatedAt := UpdatedAt t |}.

End model.

(** ** Package queue *)

Module queue.

Record VoiceTask : Type := mkVoiceTask {
  TaskID : string;
  ChatID : Z;
  TelegramMessageID : Z;
  FileID : string;
  Duration : Z;
  FileSize : Z;
  MimeType : string;
  CreatedAt : Z
}.

End queue.

(** ** Package storage: the tables of migrations/001 and the statements of
    [PostgresStorage] *)

Module storage.

Import model.
Open Scope string_scope.
Open Scope Z_scope.

(** The rows of [tasks] and of [transcripts], in insertion order. *)
Record PostgresStorage : Type := mkPostgresStorage {
  tasks : list Task;
  transcripts : list Transcript
}.

Definition empty : PostgresStorage := {| tasks := []; transcripts := [] |}.

(** [id UUID PRIMARY KEY] of [tasks]. *)
Definition has_id (id : string) (rows : list Task) : bool :=
  existsb (fun r => String.eqb (ID r) id) rows.

Definition same_pair (chat msg : Z) (r : Task) : bool :=
  (ChatID r =? chat) && (TelegramMessageID r =? msg).

(** [CREATE UNIQUE INDEX idx_tasks_chat_message ON tasks (chat_id,
    telegram_message_id)]. *)
Definition has_pair (chat msg : Z) (rows : list Task) : bool :=
  existsb (same_pair chat msg) rows.

(** [attempts INT]: a four-byte integer column. *)
Definition inInt4 (x : Z) : bool := (- 2 ^ 31 <=? x) && (x <? 2 ^ 31).

(** [id UUID PRIMARY KEY] of [transcripts]. *)
Definition has_transcript_id (id : string) (rows : list Transcript) : bool :=
  existsb (fun r => String.eqb (Transcript_ID r) id) rows.

(** The rows of [transcripts] that belong to a task. *)
Definition transcripts_of (id : string) (s : PostgresStorage) : list Transcript :=
  filter (fun r => String.eqb (TaskID r) id) (transcripts s).

(** The rows of [tasks] for a (chat, source message) pair. *)
Definition tasks_of_pair (chat msg : Z) (s : PostgresStorage) : list Task :=
  filter (same_pair chat msg) (tasks s).

(** [s.CreateTask(ctx, task)].  [up] tells whether the statement reaches
    the database and is executed there; the insert is then refused when it
    violates the primary key, the unique index or the column type. *)
Definition CreateTask (up : bool) (task : Task) (s : PostgresStorage)
  : option error * PostgresStorage :=
  if negb up
     || has_id (ID task) (tasks s)
     || has_pair (ChatID task) (TelegramMessageID task) (tasks s)
     || negb (inInt4 (Attempts task))
  then (Some (Errorf "failed to create task"), s)
  else (None, {| tasks := (tasks s ++ [task])%list; transcripts := transcripts s |}).

(** [s.GetTaskByID(ctx, id)]. *)
Definition GetTaskByID (up : bool) (id : string) (s : PostgresStorage)
  : error + Task :=
  if negb up then inl (Errorf "failed to get task")
  else match find (fun r => String.eqb (ID r) id) (tasks s) with
       | Some r => inr r
       | None => inl (Errorf "task not found")
       end.

(** The [UPDATE] of [UpdateTask] applied to the row [r]: every column but
    [id] and [created_at] is taken from [task], and the trigger
    [trg_tasks_updated_at] then sets [updated_at] to the database's
    [now()]. *)
Definition updated_row (dbNow : Z) (task r : Task) : Task :=
  {| ID := ID r; TelegramMessageID := TelegramMessageID task;
     ChatID := ChatID task; FileID := FileID task; Status := Status task;
     OperationID := OperationID task; Attempts := Attempts task;
     ErrorText := ErrorText task; Meta := Meta task;
     CreatedAt := CreatedAt r; UpdatedAt := dbNow |}.

(** [s.UpdateTaskStatus(ctx, id, status)]; [updated_at = NOW()]. *)
Definition UpdateTaskStatus (up : bool) (dbNow : Z) (id : string)
  (status : TaskStatus) (s : PostgresStorage)
  : option error * PostgresStorage :=
  if negb up then (Some (Errorf "failed to update task status"), s)
  else if negb (has_id id (tasks s))
  then (Some (Errorf "task not found"), s)
  else (None,
        {| tasks := map (fun r => if String.eqb (ID r) id
                                  then {| ID := ID r;
                                          TelegramMessageID := TelegramMessageID r;
                                          ChatID := ChatID r; FileID := FileID r;
                                          Status := status;
                                          OperationID := OperationID r;
                                          Attempts := Attempts r;
                                          ErrorText := ErrorText r;
                                          Meta := Meta r;
                                          CreatedAt := CreatedAt r;
                                          UpdatedAt := dbNow |}
                                  else r)
                        (tasks s);
           transcripts := transcripts s |}).

(** [s.UpdateTask(ctx, task)]. *)
Definition UpdateTask (up : bool) (dbNow : Z) (task : Task) (s : PostgresStorage)
  : option error * PostgresStorage :=
  if negb up then (Some (Errorf "failed to update task"), s)
  else if negb (has_id (ID task) (tasks s))
  then (Some (Errorf "task not found"), s)
  else if has_pair (ChatID task) (TelegramMessageID task)
            (filter (fun r => negb (String.eqb (ID r) (ID task))) (tasks s))
          || negb (inInt4 (Attempts task))
  then (Some (Errorf "failed to update task"), s)
  else (None,
        {| tasks := map (fun r => if String.eqb (ID r) (ID task)
                                  then updated_row dbNow task r else r)
                        (tasks s);
           transcripts := transcripts s |}).

(** [s.CreateTranscript(ctx, transcript)]: refused when it violates the
    primary key or the reference [task_id REFERENCES tasks(id)]. *)
Definition CreateTranscript (up : bool) (tr : Transcript) (s : PostgresStorage)
  : option error * PostgresStorage :=
  if negb up
     || has_transcript_id (Transcript_ID tr) (transcripts s)
     || negb (has_id (TaskID tr) (tasks s))
  then (Some (Errorf "failed to create transcript"), s)
  else (None, {| tasks := tasks s; transcripts := (transcripts s ++ [tr])%list |}).

(** Every task that is done has a transcript. *)
Definition DoneHasTranscript (s : PostgresStorage) : Prop :=
  forall t, In t (tasks s) -> Status t = TaskStatusDone ->
            transcripts_of (ID t) s <> [].

Definition pair_of (t : Task) : Z * Z := (ChatID t, TelegramMessageID t).

(** The primary key and the unique index of [tasks] hold. *)
Definition WellKeyed (s : PostgresStorage) : Prop :=
  NoDup (map ID (tasks s)) /\ NoDup (map pair_of (tasks s)).

(** The stores that the statements of [PostgresStorage] produce from the
    empty tables of the migration. *)
Inductive Reachable : PostgresStorage -> Prop :=
| reach_empty : Reachable empty
| reach_CreateTask up task s :
    Reachable s -> Reachable (snd (CreateTask up task s))
| reach_UpdateTaskStatus up dbNow id status s :
    Reachable s -> Reachable (snd (UpdateTaskStatus up dbNow id status s))
| reach_UpdateTask up dbNow task s :
    Reachable s -> Reachable (snd (UpdateTask up dbNow task s))
| reach_CreateTranscript up tr s :
    Reachable s -> Reachable (snd (CreateTranscript up tr s)).

End storage.

(** [err.Error()] *)
Definition Error (e : error) : string :=
  match e with
  | ErrCircuitOpen => "circuit breaker is open"%string
  | ErrTooManyRequests => "too many requests"%string
  | Canceled => "context canceled"%string
  | DeadlineExceeded => "context deadline exceeded"%string
  | Errorf msg => msg
  end.

(** [%d] of [fmt]. *)
Definition itoa (n : Z) : string :=
  NilZero.string_of_int (Z.to_int n).

(** ** Package cache: the keys *)

Module cache.

Open Scope string_scope.
Open Scope Z_scope.

Record CacheKey : Type := mkCacheKey {
  Prefix : string;
  ID : string
}.

(** [ck.String()] *)
Definition CacheKey_String (ck : CacheKey) : string :=
  Prefix ck ++ ":" ++ ID ck.

Definition TaskCacheKey (taskID : string) : string :=
  CacheKey_String {| Prefix := "task"; ID := taskID |}.

Definition TranscriptCacheKey (taskID : string) : string :=
  CacheKey_String {| Prefix := "transcript"; ID := taskID |}.

Definition ChatActiveCacheKey (chatID : Z) : string :=
  "chat:active:" ++ itoa chatID.

End cache.

(** ** Package queue: the consumer of [RabbitMQ] *)

Module rabbitmq.

Open Scope string_scope.
Open Scope Z_scope.

(** What the consumer answers to a delivery: [msg.Ack(false)] or
    [msg.Nack(false, true)], the latter asking the broker to requeue. *)
Inductive Acknowledgement : Type :=
| Ack
| NackRequeue.

Section Consumer.

(** The state the handler works on, and a delivery. *)
Variables World Delivery : Type.

Variable handler : Delivery -> World -> option error * World.

(** [logger.Error(msg, ...)] *)
Variable loggerError : string -> World -> World.

(** [for msg := range msgs { ... }] over the deliveries that the channel
    yields until it is closed. *)
Fixpoint handleDeliveries (msgs : list Delivery) (w : World)
  : list Acknowledgement * World :=
  match msgs with
  | [] => ([], w)
  | msg :: rest =>
      let '(err, w) := handler msg w in
      match err with
      | Some _ =>
          let w := loggerError "Failed to handle message" w in
          let '(acks, w) := handleDeliveries rest w in
          (NackRequeue :: acks, w)
      | None =>
          let '(acks, w) := handleDeliveries rest w in
          (Ack :: acks, w)
      end
  end.

(** [r.Consume(queueName, handler)]; [qos] and [register] are the results
    of [r.channel.Qos(1, 0, false)] and of [r.channel.Consume(...)]. *)
Definition Consume (qos register : option error) (msgs : list Delivery)
  (w : World) : option error * list Acknowledgement * World :=
  match qos with
  | Some e => (Some (Errorf ("failed to set QoS: " ++ Error e)), [], w)
  | None =>
      match register with
      | Some e =>
          (Some (Errorf ("failed to register consumer: " ++ Error e)), [], w)
      | None =>
          let '(acks, w) := handleDeliveries msgs w in
          (None, acks, w)
      end
  end.

End Consumer.

Arguments handleDeliveries {World Delivery}.
Arguments Consume {World Delivery}.

End rabbitmq.

(** ** Package speechkit: the client's polling *)

Module speechkit_client.

Import speechkit.
Open Scope string_scope.
Open Scope Z_scope.

Definition OperationPoll : Z := 5 * 10 ^ 9.          (* 5 * time.Second *)
Definition MaxWaitTime : Z := 30 * (60 * 10 ^ 9).    (* 30 * time.Minute *)

(** [opResp.Response], when it is not nil, after its round trip through
    [json.Marshal] and [json.Unmarshal]. *)
Inductive Response : Type :=
| MarshalFailed (e : error)
| UnmarshalFailed (e : error)
| Parsed (result : RecognitionResult).

(** What one poll of the operation meets. *)
Inductive Poll : Type :=
| NewRequestFailed (e : error)               (* http.NewRequest *)
| DoFailed (e : error)                       (* c.client.Do *)
| ReadAllFailed (e : error)                  (* io.ReadAll *)
| StatusNotOK (status : Z) (body : string)   (* resp.StatusCode != 200 *)
| BodyNotJSON (e : error)                    (* json.Unmarshal(respBody, &opResp) *)
| NotDone                                    (* !opResp.Done *)
| DoneError (message : string) (code : Z)    (* opResp.Error != nil *)
| DoneResponse (response : option Response). (* opResp.Response *)

(** How a call of [WaitForResult] ends: with its result, the number of
    requests it has sent and the instant of the return, or still polling
    when the bound of the model is used up. *)
Inductive WaitOutcome : Type :=
| Finished (r : error + RecognitionResult) (requests : nat) (now : Z)
| StillPolling.

(** The loop of [WaitForResult].  [poll round now] is what the poll of
    pass [round], begun at instant [now], meets, and the time it takes. *)
Fixpoint pollLoop (poll : nat -> Z -> Poll * Z) (fuel round : nat)
  (startTime now : Z) : WaitOutcome :=
  match fuel with
  | O => StillPolling
  | S fuel' =>
      if Sub now startTime >? MaxWaitTime
      then Finished (inl (Errorf "recognition timeout exceeded")) round now
      else
        let '(answer, d) := poll round now in
        let now' := now + Z.max 0 d in
        match answer with
        | NewRequestFailed e =>
            Finished (inl (Errorf ("failed to create request: " ++ Error e)))
                     round now
        | DoFailed e =>
            Finished (inl (Errorf ("failed to send request: " ++ Error e)))
                     (S round) now'
        | ReadAllFailed e =>
            Finished (inl (Errorf ("failed to read response: " ++ Error e)))
                     (S round) now'
        | StatusNotOK status body =>
            Finished (inl (Errorf ("operation check failed: status="
                                   ++ itoa status ++ ", body=" ++ body)))
                     (S round) now'
        | BodyNotJSON e =>
            Finished (inl (Errorf ("failed to unmarshal response: " ++ Error e)))
                     (S round) now'
        | DoneError message code =>
            Finished (inl (Errorf ("recognition failed: " ++ message
                                   ++ " (code: " ++ itoa code ++ ")")))
                     (S round) now'
        | DoneResponse None =>
            Finished (inr {| Chunks := [] |}) (S round) now'
        | DoneResponse (Some (MarshalFailed e)) =>
            Finished (inl (Errorf ("failed to marshal response: " ++ Error e)))
                     (S round) now'
        | DoneResponse (Some (UnmarshalFailed e)) =>
            Finished (inl (Errorf ("failed to unmarshal result: " ++ Error e)))
                     (S round) now'
        | DoneResponse (Some (Parsed result)) =>
            Finished (inr result) (S round) now'
        | NotDone =>
            pollLoop poll fuel' (S round) startTime (now' + OperationPoll)
        end
  end.

(** [c.WaitForResult(operationID)] called at instant [now]. *)
Definition WaitForResult (poll : nat -> Z -> Poll * Z) (fuel : nat) (now : Z)
  : WaitOutcome :=
  pollLoop poll fuel 0 now now.

End speechkit_client.

(** ** Package worker *)

Module worker.

Import model.
Open Scope string_scope.
Open Scope Z_scope.

(** What the surroundings of one call of [ProcessTask] answer: the
    decoder of the queue message, the clocks, the database connection and
    the external collaborators.  The clocks and the connection are asked
    at numbered steps; a step is one call of [time.Now()] or one statement
    sent to the database. *)
Record Collaborators : Type := mkCollaborators {
  unmarshal : error + queue.VoiceTask;     (* json.Unmarshal(taskData, &voiceTask) *)
  timeNow : nat -> Z;                      (* time.Now() *)
  dbUp : nat -> bool;                      (* the statement is executed *)
  dbNow : nat -> Z;                        (* now() of the database *)
  fileByID : error + string;               (* p.bot.FileByID(fileID) *)
  httpGet : error + (Z * (error + string));(* status code, io.ReadAll(resp.Body) *)
  uploadFile : error + string;             (* p.s3.UploadFile(...) *)
  startRecognition : error + string;       (* p.speechkit.StartRecognition(s3URL) *)
  waitForResult : error + speechkit.RecognitionResult;
  marshal : string;                        (* json.Marshal(result) *)
  newUUID : string;                        (* uuid.New().String() *)
  botSend : option error                   (* p.bot.Send(...) *)
}.

(** What a call of [ProcessTask] leaves behind, in order. *)
Inductive Event : Type :=
| UpdateTaskCalled (task : Task) (err : option error)
| CreateTranscriptCalled (tr : Transcript) (err : option error)
| Sent (chat replyTo : Z) (text : string) (err : option error)
| LoggedError (msg : string).

Record World : Type := mkWorld {
  db : storage.PostgresStorage;
  step : nat;
  events : list Event
}.

(** The messages sent to users among a list of events. *)
Definition notifications (es : list Event) : list Event :=
  filter (fun e => match e with Sent _ _ _ _ => true | _ => false end) es.


(** Computations of the processor: state passing over [World]. *)
Definition M (A : Type) : Type := World -> A * World.

Definition ret {A : Type} (a : A) : M A := fun w => (a, w).

Definition bind {A B : Type} (c : M A) (k : A -> M B) : M B :=
  fun w => let '(a, w') := c w in k a w'.

Notation "x <- c ;; k" := (bind c (fun x => k))
  (at level 61, c at next level, right associativity).
Notation "c ;;; k" := (bind c (fun _ => k))
  (at level 61, right associativity).

Definition emit (e : Event) : M unit :=
  fun w => (tt, {| db := db w; step := step w;
                   events := (events w ++ [e])%list |}).

(** [if err != nil { k }] *)
Definition whenError (err : option error) (k : M unit) : M unit :=
  match err with
  | Some _ => k
  | None => ret tt
  end.

(** The message with which the user is told that recognition failed. *)
Definition failureNotice : string :=
  "Не удалось распознать голосовое сообщение после нескольких попыток.".

Section Cycle.

Variable c : Collaborators.

Definition Now : M Z :=
  fun w => (timeNow c (step w),
            {| db := db w; step := S (step w); events := events w |}).

Definition loggerError (msg : string) : M unit := emit (LoggedError msg).

Definition GetTaskByID (id : string) : M (error + Task) :=
  fun w => (storage.GetTaskByID (dbUp c (step w)) id (db w),
            {| db := db w; step := S (step w); events := events w |}).

Definition UpdateTask (task : Task) : M (option error) :=
  fun w =>
    let '(err, db') :=
      storage.UpdateTask (dbUp c (step w)) (dbNow c (step w)) task (db w) in
    (err, {| db := db'; step := S (step w);
             events := (events w ++ [UpdateTaskCalled task err])%list |}).

Definition CreateTranscript (tr : Transcript) : M (option error) :=
  fun w =>
    let '(err, db') := storage.CreateTranscript (dbUp c (step w)) tr (db w) in
    (err, {| db := db'; step := S (step w);
             events := (events w ++ [CreateTranscriptCalled tr err])%list |}).

Definition Send (chat replyTo : Z) (text : string) : M (option error) :=
  emit (Sent chat replyTo text (botSend c)) ;;; ret (botSend c).

Definition downloadTelegramFile (fileID : string) : error + string :=
  match fileByID c with
  | inl e => inl (Errorf ("failed to get file info: " ++ Error e))
  | inr _ =>
      match httpGet c with
      | inl e => inl (Errorf ("failed to download file: " ++ Error e))
      | inr (status, body) =>
          if negb (status =? 200)
          then inl (Errorf ("failed to download file: status=" ++ itoa status))
          else match body with
               | inl e => inl (Errorf ("failed to read file data: " ++ Error e))
               | inr data => inr data
               end
      end
  end.

Definition sendResultToUser (chatID replyToMessageID : Z) (text : string)
  : M (option error) :=
  Send chatID replyToMessageID text.

(** [p.handleTaskError(ctx, task, errorMsg)]; the result is the task as
    the method leaves it behind the pointer. *)
Definition handleTaskError (task : Task) (errorMsg : string) : M Task :=
  loggerError "Task processing error" ;;;
  now <- Now ;;
  let task := IncrementAttempts (SetError errorMsg now task) in
  err <- UpdateTask task ;;
  whenError err (loggerError "Failed to update task error") ;;;
  (if Attempts task >=? 3
   then Send (ChatID task) (TelegramMessageID task) failureNotice ;;; ret tt
   else ret tt) ;;;
  ret task.

(** [p.ProcessTask(taskData)]. *)
Definition ProcessTask : M (option error) :=
  match unmarshal c with
  | inl e => ret (Some (Errorf ("failed to unmarshal task: " ++ Error e)))
  | inr voiceTask =>
      r <- GetTaskByID (queue.TaskID voiceTask) ;;
      match r with
      | inl e => ret (Some (Errorf ("failed to get task from db: " ++ Error e)))
      | inr task =>
          now <- Now ;;
          let task := SetInProgress "" now task in
          err <- UpdateTask task ;;
          whenError err (loggerError "Failed to update task status") ;;;
          match downloadTelegramFile (queue.FileID voiceTask) with
          | inl e =>
              handleTaskError task ("Failed to download file: " ++ Error e) ;;;
              ret (Some e)
          | inr fileData =>
              match uploadFile c with
              | inl e =>
                  handleTaskError task ("Failed to upload to S3: " ++ Error e) ;;;
                  ret (Some e)
              | inr s3URL =>
                  match startRecognition c with
                  | inl e =>
                      handleTaskError task
                        ("Failed to start recognition: " ++ Error e) ;;;
                      ret (Some e)
                  | inr operationID =>
                      let task := set_OperationID operationID task in
                      err <- UpdateTask task ;;
                      whenError err (loggerError "Failed to update operation_id") ;;;
                      match waitForResult c with
                      | inl e =>
                          handleTaskError task
                            ("Recognition failed: " ++ Error e) ;;;
                          ret (Some e)
                      | inr result =>
                          let recognizedText := speechkit.GetFullText result in
                          if String.eqb recognizedText ""
                          then
                            handleTaskError task "No text recognized" ;;;
                            ret (Some (Errorf "no text recognized"))
                          else
                            now <- Now ;;
                            let transcript :=
                              {| Transcript_ID := newUUID c;
                                 TaskID := ID task;
                                 Text := recognizedText;
                                 RawResponse := marshal c;
                                 Transcript_CreatedAt := now |} in
                            err <- CreateTranscript transcript ;;
                            whenError err (loggerError "Failed to save transcript") ;;;
                            now <- Now ;;
                            let task := SetCompleted now task in
                            err <- UpdateTask task ;;
                            whenError err (loggerError "Failed to update task status to done") ;;;
                            err <- sendResultToUser (queue.ChatID voiceTask)
                                     (queue.TelegramMessageID voiceTask)
                                     recognizedText ;;
                            whenError err (loggerError "Failed to send result to user") ;;;
                            ret None
                      end
                  end
              end
          end
      end
  end.

End Cycle.

(** The log line of [if err != nil { logger.Error(msg) }]. *)
Definition logged (err : option error) (msg : string) : list Event :=
  match err with
  | Some _ => [LoggedError msg]
  | None => []
  end.

(** The five reasons for which a cycle records a failure. *)
Definition failure_message (msg : string) : Prop :=
  (exists e, msg = "Failed to download file: " ++ Error e) \/
  (exists e, msg = "Failed to upload to S3: " ++ Error e) \/
  (exists e, msg = "Failed to start recognition: " ++ Error e) \/
  (exists e, msg = "Recognition failed: " ++ Error e) \/
  msg = "No text recognized".

(** How a failed cycle that started in [w] on the row [row] has left the
    world [w']: the task was in progress in memory; [handleTaskError]
    made it failed, with the message, one more attempt and the time of
    the failure, and asked the store to save it; the user was notified
    exactly when the attempts had reached 3. *)
Definition FailureRecorded (c : Collaborators) (w w' : World) (row : Task)
  : Prop :=
  exists (task : Task) (msg : string) (k : nat) (new : list Event)
         (uerr : option error),
    Status task = TaskStatusInProgress /\
    ID task = ID row /\ Attempts task = Attempts row /\
    failure_message msg /\
    let failed := IncrementAttempts (SetError msg (timeNow c k) task) in
    (Status failed = TaskStatusFailed /\
     ErrorText failed = Some msg /\
     Attempts failed = Attempts row + 1 /\
     UpdatedAt failed = timeNow c k /\
     OperationID failed = OperationID task /\
     OperationID failed <> None) /\
    events w' = (events w ++ new)%list /\
    In (UpdateTaskCalled failed uerr) new /\
    notifications new =
      (if Attempts failed >=? 3
       then [Sent (ChatID failed) (TelegramMessageID failed) failureNotice
               (botSend c)]
       else []) /\
    (uerr = None ->
     exists r, In r (storage.tasks (db w')) /\ ID r = ID row /\
               Status r = TaskStatusFailed /\ ErrorText r = Some msg /\
               Attempts r = Attempts row + 1 /\
               OperationID r = OperationID task).

(** How a cycle that started in [w] has left the world [w']: a task is
    marked done only after the insert of its transcript was attempted,
    and when every attempted insert succeeded, every task that is done
    has a transcript. *)
Definition CycleOutcome (w w' : World) : Prop :=
  exists new,
    events w' = (events w ++ new)%list /\
    (forall task uerr,
        In (UpdateTaskCalled task uerr) new ->
        Status task = TaskStatusDone ->
        exists pre post tr terr,
          new = (pre ++ CreateTranscriptCalled tr terr :: post)%list /\
          TaskID tr = ID task /\
          In (UpdateTaskCalled task uerr) post) /\
    ((forall tr terr, In (CreateTranscriptCalled tr terr) new -> terr = None) ->
     storage.DoneHasTranscript (db w')).

(** The step of a cycle that fails before a recognition operation exists
    (download, upload, start of the recognition), with the message that
    [ProcessTask] hands to [handleTaskError] and the error it returns. *)
Definition earlyFailure (c : Collaborators) (fileID : string)
  : option (string * error) :=
  match downloadTelegramFile c fileID with
  | inl e => Some ("Failed to download file: " ++ Error e, e)
  | inr _ =>
      match uploadFile c with
      | inl e => Some ("Failed to upload to S3: " ++ Error e, e)
      | inr _ =>
          match startRecognition c with
          | inl e => Some ("Failed to start recognition: " ++ Error e, e)
          | inr _ => None
          end
      end
  end.

(** The failure of a cycle once the operation is started: the wait for
    the result fails, or the recognized text is empty. *)
Definition lateFailure (c : Collaborators) : option (string * error) :=
  match waitForResult c with
  | inl e => Some ("Recognition failed: " ++ Error e, e)
  | inr result =>
      if String.eqb (speechkit.GetFullText result) ""
      then Some ("No text recognized", Errorf "no text recognized")
      else None
  end.

(** Whether the external steps of a cycle all succeed and yield a text. *)
Definition stepsSucceed (c : Collaborators) (fileID : string) : bool :=
  match earlyFailure c fileID, lateFailure c with
  | None, None => true
  | _, _ => false
  end.

(** The columns of a row of [tasks] that identify the task and its voice
    message. *)
Definition sameIdentity (r0 r : Task) : Prop :=
  ID r = ID r0 /\
  TelegramMessageID r = TelegramMessageID r0 /\
  ChatID r = ChatID r0 /\
  FileID r = FileID r0 /\
  Meta r = Meta r0 /\
  CreatedAt r = CreatedAt r0.

(** The worker's consumer, [rabbitMQ.Consume(queue.QueueNameVoiceProcessing,
    processor.ProcessTask)], on the deliveries [cs]: each delivery is
    given by what the collaborators answer while it is handled, the
    decoding of its body among them. *)
Definition consumeVoiceProcessing (qos register : option error)
  (cs : list Collaborators) (w : World)
  : option error * list rabbitmq.Acknowledgement * World :=
  rabbitmq.Consume ProcessTask (fun msg w => snd (loggerError msg w))
    qos register cs w.

(** The rows of [tasks] in [s'] are those of [s], in the same order, each
    with its identity, and only the row of [row]'s task may differ. *)
Definition OwnRowOnly (row : Task) (s s' : storage.PostgresStorage) : Prop :=
  Forall2 (fun r0 r => sameIdentity r0 r /\ (ID r0 <> ID row -> r = r0))
          (storage.tasks s) (storage.tasks s').

End worker.

(** ** Package bot *)

Module bot.

Import model.
Open Scope string_scope.
Open Scope Z_scope.

Record Voice : Type := mkVoice {
  Voice_FileID : string;
  Voice_Duration : Z;
  Voice_FileSize : Z;
  Voice_MIME : string
}.

Record Message : Type := mkMessage {
  Message_ID : Z;               (* int *)
  Chat_ID : Z;                  (* int64 *)
  Message_Voice : option Voice  (* *Voice *)
}.

(** What the surroundings of one call of [handleVoice] answer. *)
Record Surroundings : Type := mkSurroundings {
  message : option Message;      (* c.Message() *)
  cacheGet : error + string;     (* b.cache.Get(ctx, key, &value) *)
  reply : option error;          (* c.Reply(...) *)
  newUUID : string;              (* uuid.New().String() *)
  timeNow : nat -> Z;            (* time.Now() *)
  dbUp : bool;                   (* the INSERT is executed *)
  hasQueue : bool;               (* b.q != nil *)
  publishTask : option error     (* b.q.PublishTask(voiceTask) *)
}.

Record World : Type := mkWorld {
  db : storage.PostgresStorage;
  published : list queue.VoiceTask;
  replies : list string
}.

Definition isActive (c : Surroundings) (chatID : Z) : bool :=
  match cacheGet c with
  | inl _ => false
  | inr value => String.eqb value "true"
  end.

Definition Reply (c : Surroundings) (text : string) (w : World)
  : option error * World :=
  (reply c, {| db := db w; published := published w;
               replies := (replies w ++ [text])%list |}).

(** [b.handleVoice(c)]. *)
Definition handleVoice (c : Surroundings) (w : World) : option error * World :=
  match message c with
  | None => Reply c "Ошибка: голосовое сообщение не найдено" w
  | Some msg =>
      match Message_Voice msg with
      | None => Reply c "Ошибка: голосовое сообщение не найдено" w
      | Some voice =>
          if negb (isActive c (Chat_ID msg)) then (None, w)
          else
            let '(_, w) := Reply c "Обработка..." w in
            let task :=
              {| ID := newUUID c;
                 TelegramMessageID := Message_ID msg;
                 ChatID := Chat_ID msg;
                 FileID := Voice_FileID voice;
                 Status := TaskStatusQueued;
                 OperationID := None;
                 Attempts := 0;
                 ErrorText := None;
                 Meta := [("voice_duration", JInt (Voice_Duration voice));
                          ("file_size", JInt (Voice_FileSize voice));
                          ("mime_type", JString (Voice_MIME voice))];
                 CreatedAt := timeNow c 0%nat;
                 UpdatedAt := timeNow c 1%nat |} in
            let '(err, db') := storage.CreateTask (dbUp c) task (db w) in
            let w := {| db := db'; published := published w;
                        replies := replies w |} in
            match err with
            | Some _ => Reply c "Ошибка при сохранении задачи" w
            | None =>
                if hasQueue c then
                  let voiceTask :=
                    {| queue.TaskID := ID task;
                       queue.ChatID := ChatID task;
                       queue.TelegramMessageID := TelegramMessageID task;
                       queue.FileID := FileID task;
                       queue.Duration := Voice_Duration voice;
                       queue.FileSize := Voice_FileSize voice;
                       queue.MimeType := Voice_MIME voice;
                       queue.CreatedAt := CreatedAt task |} in
                  match publishTask c with
                  | Some _ => Reply c "Ошибка при отправке задачи в очередь" w
                  | None =>
                      (None, {| db := db w;
                                published := (published w ++ [voiceTask])%list;
                                replies := replies w |})
                  end
                else (None, w)
            end
      end
  end.

(** The worlds that calls of [handleVoice] produce from the empty tables
    and the empty queue. *)
Inductive Handled : World -> Prop :=
| handled_none :
    Handled {| db := storage.empty; published := []; replies := [] |}
| handled_voice (c : Surroundings) (w : World) :
    Handled w -> Handled (snd (handleVoice c w)).

End bot.

(** * Example inputs *)

Module examples.

Import resilience.
Open Scope string_scope.
Open Scope Z_scope.

(** Closures that count their calls in the captured variable. *)
Definition failing : Func nat :=
  fun _ n => (Some (Errorf "error"), S n, 0).

Definition succeeding : Func nat :=
  fun _ n => (None, S n, 0).

(** Fails on its first [k] calls, succeeds afterwards. *)
Definition flaky (k : nat) : Func nat :=
  fun _ n => (if (n <? k)%nat then Some (Errorf "temporary error") else None,
              S n, 0).

Definition m0 : Machine nat := mkMachine 0 0%nat [].

(** A multiplier applied to whole nanoseconds. *)
Definition scaleZ (d : Z) (mult : Z) : Z := d * mult.

Definition config3 : RetryConfig Z :=
  mkRetryConfig 3 100 1000 2.

Definition config4 : RetryConfig Z :=
  mkRetryConfig 4 100 1000 2.

Definition cancelledAt (t : Z) : Context :=
  {| doneAt := Some t; reason := Canceled |}.

End examples.


Module cycle_examples.

Import model worker.
Open Scope string_scope.
Open Scope Z_scope.

(** A queued task that has failed twice already, and its queue message. *)
Definition row1 : Task :=
  {| ID := "task-123"; TelegramMessageID := 7; ChatID := 42;
     FileID := "file-123"; Status := TaskStatusQueued; OperationID := None;
     Attempts := 2; ErrorText := None; Meta := [];
     CreatedAt := 0; UpdatedAt := 0 |}.

Definition voiceTask1 : queue.VoiceTask :=
  {| queue.TaskID := "task-123"; queue.ChatID := 42;
     queue.TelegramMessageID := 7; queue.FileID := "file-123";
     queue.Duration := 3; queue.FileSize := 1024;
     queue.MimeType := "audio/ogg"; queue.CreatedAt := 0 |}.

Definition world1 : World :=
  {| db := {| storage.tasks := [row1]; storage.transcripts := [] |};
     step := 0; events := [] |}.

Definition helloWorld : speechkit.RecognitionResult :=
  {| speechkit.Chunks :=
       [ {| speechkit.Alternatives := [ {| speechkit.Text := "hello" |} ];
            speechkit.ChannelTag := "" |};
         {| speechkit.Alternatives := [ {| speechkit.Text := "world" |} ];
            speechkit.ChannelTag := "" |} ] |}.

(** Every collaborator answers well. *)
Definition allWell : Collaborators :=
  {| unmarshal := inr voiceTask1;
     timeNow := fun k => 1000 + Z.of_nat k;
     dbUp := fun _ => true;
     dbNow := fun k => 2000 + Z.of_nat k;
     fileByID := inr "voice/file_0.oga";
     httpGet := inr (200, inr "OggS");
     uploadFile := inr "https://storage.yandexcloud.net/bucket/voice/task-123.ogg";
     startRecognition := inr "op-123";
     waitForResult := inr helloWorld;
     marshal := "{}";
     newUUID := "transcript-1";
     botSend := None |}.

(** The upload to the blob store fails. *)
Definition uploadFails : Collaborators :=
  {| unmarshal := unmarshal allWell; timeNow := timeNow allWell;
     dbUp := dbUp allWell; dbNow := dbNow allWell;
     fileByID := fileByID allWell; httpGet := httpGet allWell;
     uploadFile := inl (Errorf "S3 connection failed");
     startRecognition := startRecognition allWell;
     waitForResult := waitForResult allWell; marshal := marshal allWell;
     newUUID := newUUID allWell; botSend := botSend allWell |}.

(** The insert of the transcript, the statement of step 5, does not reach
    the database; every other statement does. *)
Definition insertFails : Collaborators :=
  {| unmarshal := unmarshal allWell; timeNow := timeNow allWell;
     dbUp := fun k => negb (k =? 5)%nat; dbNow := dbNow allWell;
     fileByID := fileByID allWell; httpGet := httpGet allWell;
     uploadFile := uploadFile allWell;
     startRecognition := startRecognition allWell;
     waitForResult := waitForResult allWell; marshal := marshal allWell;
     newUUID := newUUID allWell; botSend := botSend allWell |}.

End cycle_examples.

Module ingress_examples.

Import model bot.
Open Scope string_scope.
Open Scope Z_scope.

(** A voice message of message 7 in chat 42, sent while the chat is
    active. *)
Definition voice1 : Surroundings :=
  {| message := Some {| Message_ID := 7; Chat_ID := 42;
                        Message_Voice :=
                          Some {| Voice_FileID := "file-123"; Voice_Duration := 3;
                                  Voice_FileSize := 1024;
                                  Voice_MIME := "audio/ogg" |} |};
     cacheGet := inr "true";
     reply := None;
     newUUID := "task-123";
     timeNow := fun k => 1000 + Z.of_nat k;
     dbUp := true;
     hasQueue := true;
     publishTask := None |}.

(** The same message submitted again; the task gets a new id. *)
Definition voice1_again : Surroundings :=
  {| message := message voice1; cacheGet := cacheGet voice1;
     reply := reply voice1; newUUID := "task-456";
     timeNow := fun k => 5000 + Z.of_nat k;
     dbUp := true; hasQueue := true; publishTask := None |}.

Definition world0 : World :=
  {| db := storage.empty; published := []; replies := [] |}.

End ingress_examples.

Module polling_examples.

Import speechkit_client.
Open Scope Z_scope.

(** An operation that is done, without a response, at the second poll;
    every poll takes 7 ns. *)
Definition doneAtSecondPoll : nat -> Z -> Poll * Z :=
  fun round _ =>
    (if Nat.eqb round 1 then DoneResponse None else NotDone, 7).

End polling_examples.

Module publish_examples.

Import bot ingress_examples.
Open Scope string_scope.

(** The voice message of [voice1] while the queue refuses messages. *)
Definition queueDown : Surroundings :=
  {| message := message voice1; cacheGet := cacheGet voice1;
     reply := reply voice1; newUUID := newUUID voice1;
     timeNow := timeNow voice1; dbUp := dbUp voice1;
     hasQueue := true;
     publishTask := Some (Errorf "failed to publish message") |}.

(** The same message while the cache cannot be read. *)
Definition cacheDown : Surroundings :=
  {| message := message voice1;
     cacheGet := inl (Errorf "failed to get key");
     reply := reply voice1; newUUID := newUUID voice1;
     timeNow := timeNow voice1; dbUp := dbUp voice1;
     hasQueue := true; publishTask := None |}.

End publish_examples.

(** * Properties *)

(** ** Machine integers *)

Lemma wrap64_id (x : Z) : minInt64 <= x <= maxInt64 -> wrap64 x = x.
Proof.
  unfold wrap64, minInt64, maxInt64. intros H.
  rewrite Z.mod_small by lia. lia.
Qed.

Lemma wrap32u_id (x : Z) : 0 <= x < 2 ^ 32 -> wrap32u x = x.
Proof. unfold wrap32u. intros H. now rewrite Z.mod_small. Qed.

Lemma Sub_exact (t u : Z) :
  minInt64 <= t - u <= maxInt64 -> Sub t u = t - u.
Proof. unfold Sub. lia. Qed.

Lemma Sub_lower (t u d : Z) :
  d <= maxInt64 -> d <= t - u -> d <= Sub t u.
Proof. unfold Sub, minInt64, maxInt64. lia. Qed.

(** ** Circuit breaker *)

Module resilience_facts.

Import resilience.
Open Scope Z_scope.

Section Breaker.

Context {Env : Type}.

Lemma State_eqb_eq (a b : State) : State_eqb a b = true <-> a = b.
Proof. destruct a, b; simpl; split; congruence. Qed.

Lemma State_eqb_neq (a b : State) : a <> b -> State_eqb a b = false.
Proof. destruct a, b; simpl; congruence. Qed.

(** A failing call on a breaker that is not open is executed, counted,
    and opens the breaker when the count reaches the threshold. *)
Lemma Execute_failure (cb : CircuitBreaker) (fn : Func Env) (m : Machine Env) :
  state cb <> StateOpen ->
  AlwaysFails fn ->
  0 <= failures cb -> failures cb + 1 < 2 ^ 32 ->
  let r := Execute cb fn m in
  fst (fst r) <> None /\
  failures (snd (fst r)) = failures cb + 1 /\
  maxFailures (snd (fst r)) = maxFailures cb /\
  timeout (snd (fst r)) = timeout cb /\
  lastFailTime (snd (fst r)) = clock (snd r) /\
  state (snd (fst r)) =
    (if failures cb + 1 >=? maxFailures cb then StateOpen else state cb) /\
  invocations (snd r) = (clock m, fst (fst r)) :: invocations m.
Proof.
  intros Hst Hfail Hf0 Hf1. unfold Execute.
  rewrite (State_eqb_neq _ _ Hst). unfold call.
  specialize (Hfail (clock m) (captured m)).
  destruct (fn (clock m) (captured m)) as [[e env'] d]. simpl in Hfail.
  destruct e as [e|]; [|congruence].
  cbn [set_lastFailTime set_failures failures maxFailures].
  rewrite wrap32u_id by lia.
  destruct (failures cb + 1 >=? maxFailures cb); cbn;
    repeat split; congruence.
Qed.

Lemma feed_cons (cb : CircuitBreaker) (m : Machine Env) c calls :
  feed cb m (c :: calls) =
  feed (snd (fst (Execute cb (snd c) (elapse (fst c) m))))
       (snd (Execute cb (snd c) (elapse (fst c) m))) calls.
Proof.
  unfold feed. cbn [fold_left fst snd].
  destruct (Execute cb (snd c) (elapse (fst c) m)) as [[r cb'] m'].
  reflexivity.
Qed.

(** Consecutive failures are counted one by one; the breaker keeps its
    state below the threshold and is open when the count reaches it. *)
Lemma feed_failures (calls : list (Z * Func Env)) :
  forall (cb : CircuitBreaker) (m : Machine Env),
    state cb <> StateOpen ->
    0 <= failures cb ->
    failures cb + Z.of_nat (List.length calls) <= maxFailures cb ->
    maxFailures cb < 2 ^ 32 ->
    Forall (fun c => AlwaysFails (snd c)) calls ->
    let r := feed cb m calls in
    failures (fst r) = failures cb + Z.of_nat (List.length calls) /\
    maxFailures (fst r) = maxFailures cb /\
    timeout (fst r) = timeout cb /\
    List.length (invocations (snd r)) =
      (List.length (invocations m) + List.length calls)%nat /\
    (calls <> [] -> lastFailTime (fst r) = clock (snd r)) /\
    state (fst r) =
      (match calls with
       | [] => state cb
       | _ => if failures cb + Z.of_nat (List.length calls) >=? maxFailures cb
              then StateOpen else state cb
       end).
Proof.
  induction calls as [|c calls IH]; intros cb m Hst Hf0 Hle Hmax Hall.
  - cbn. repeat split; try lia. congruence.
  - rewrite feed_cons. inversion Hall as [|? ? Hc Hrest]; subst.
    cbn [List.length] in Hle. rewrite Nat2Z.inj_succ in Hle.
    pose proof (Execute_failure cb (snd c) (elapse (fst c) m) Hst Hc Hf0
                  ltac:(lia)) as E.
    cbv zeta in E. destruct E as (_ & Ef & Em & Et & El & Es & Ei).
    set (r1 := Execute cb (snd c) (elapse (fst c) m)) in *. cbv zeta.
    destruct calls as [|c' calls'].
    + cbn [feed fold_left fst snd List.length]. rewrite Ef, Em, Et, Es, Ei.
      cbn [List.length elapse Sleep invocations]. repeat split; try lia; auto.
    + assert (Hlt : failures cb + 1 < maxFailures cb).
      { cbn [List.length] in Hle. lia. }
      assert (Hst1 : state (snd (fst r1)) <> StateOpen).
      { rewrite Es. destruct (Z.geb_spec (failures cb + 1) (maxFailures cb)); [lia|auto]. }
      specialize (IH (snd (fst r1)) (snd r1) Hst1 ltac:(lia)
                    ltac:(rewrite Ef, Em; cbn [List.length] in *; lia)
                    ltac:(lia) Hrest).
      cbv zeta in IH. destruct IH as (If & Im & It & Il & Ila & Is).
      rewrite If, Im, It, Il, Is, Ef, Em, Es, Ei.
      cbn [List.length elapse Sleep invocations].
      repeat split; try lia.
      * intros _. apply Ila. discriminate.
      * replace (failures cb + 1 + Z.of_nat (S (List.length calls')))
          with (failures cb + Z.of_nat (S (S (List.length calls')))) by lia.
        destruct (Z.geb_spec (failures cb + 1) (maxFailures cb)); [lia|].
        reflexivity.
Qed.

(** While open and within the cooldown a call is refused and nothing
    changes. *)
Lemma Execute_open_fails_fast (cb : CircuitBreaker) (fn : Func Env)
  (m : Machine Env) :
  state cb = StateOpen ->
  Sub (clock m) (lastFailTime cb) <= timeout cb ->
  Execute cb fn m = (Some ErrCircuitOpen, cb, m).
Proof.
  intros Hst Hin. unfold Execute. rewrite Hst. cbn [State_eqb].
  destruct (Z.gtb_spec (Sub (clock m) (lastFailTime cb)) (timeout cb)); [lia|].
  reflexivity.
Qed.

End Breaker.

End resilience_facts.

Module breaker_claims.

Import resilience resilience_facts examples.
Open Scope Z_scope.

(** C6.  A breaker that is not open and has counted no failure is fed
    [maxFailures] consecutive failing calls, with any pauses in between:
    every one of them is executed, the state is unchanged as long as
    fewer than [maxFailures] of them were made, [GetState] reports
    [StateOpen] right after the last one, and from then on every
    [Execute] whose call comes no later than [timeout] after the last
    failure returns [ErrCircuitOpen] and leaves the breaker, the clock,
    the captured variables and the log of invocations as they were: the
    protected function is not invoked. *)
Theorem C6_opens_at_threshold_and_fails_fast :
  forall (Env : Type) (cb : CircuitBreaker) (m : Machine Env)
         (calls : list (Z * Func Env)),
    1 <= maxFailures cb < 2 ^ 32 ->
    state cb <> StateOpen ->
    failures cb = 0 ->
    Z.of_nat (List.length calls) = maxFailures cb ->
    Forall (fun c => AlwaysFails (snd c)) calls ->
    let cb' := fst (feed cb m calls) in
    let m' := snd (feed cb m calls) in
    GetState cb' = StateOpen /\
    (forall k, (k < List.length calls)%nat ->
               GetState (fst (feed cb m (firstn k calls))) = GetState cb) /\
    List.length (invocations m') =
      (List.length (invocations m) + List.length calls)%nat /\
    lastFailTime cb' = clock m' /\
    forall (fn : Func Env) (m'' : Machine Env),
      Sub (clock m'') (lastFailTime cb') <= timeout cb' ->
      Execute cb' fn m'' = (Some ErrCircuitOpen, cb', m'').
Proof.
  intros Env cb m calls Hmax Hst Hf Hlen Hall cb' m'.
  assert (Hbefore : forall k, (k < List.length calls)%nat ->
                      GetState (fst (feed cb m (firstn k calls))) = GetState cb).
  { intros k Hk.
    assert (Hlk : List.length (firstn k calls) = k)
      by (rewrite length_firstn; lia).
    assert (Hallk : Forall (fun c => AlwaysFails (snd c)) (firstn k calls)).
    { rewrite <- (firstn_skipn k calls) in Hall.
      apply Forall_app in Hall. tauto. }
    pose proof (feed_failures (firstn k calls) cb m Hst ltac:(lia)
                  ltac:(lia) ltac:(lia) Hallk) as F.
    cbv zeta in F. destruct F as (_ & _ & _ & _ & _ & Fs).
    unfold GetState. rewrite Fs. destruct (firstn k calls); [reflexivity|].
    rewrite Hlk.
    destruct (Z.geb_spec (failures cb + Z.of_nat k) (maxFailures cb));
      [lia|reflexivity]. }
  pose proof (feed_failures calls cb m Hst ltac:(lia) ltac:(lia) ltac:(lia) Hall)
    as F.
  cbv zeta in F. fold cb' m' in F.
  destruct F as (Ff & Fm & Ft & Fl & Fla & Fs).
  assert (Hne : calls <> []).
  { intros ->. cbn in Hlen. lia. }
  assert (Hopen : state cb' = StateOpen).
  { rewrite Fs. destruct calls; [congruence|].
    destruct (Z.geb_spec (failures cb + Z.of_nat (List.length (p :: calls)))
                (maxFailures cb)); [reflexivity|lia]. }
  split; [exact Hopen|]. split; [exact Hbefore|].
  repeat split; auto.
  intros fn m'' Hin. now apply Execute_open_fails_fast.
Qed.

Lemma C6_witness :
  let cb := NewCircuitBreaker 3 5000000000 in
  let calls := [(0, failing); (7, failing); (0, failing)] in
  GetState (fst (feed cb m0 calls)) = StateOpen /\
  List.length (invocations (snd (feed cb m0 calls))) = 3%nat /\
  Execute (fst (feed cb m0 calls)) succeeding
    (elapse 5000000000 (snd (feed cb m0 calls))) =
  (Some ErrCircuitOpen, fst (feed cb m0 calls),
   elapse 5000000000 (snd (feed cb m0 calls))).
Proof.
  intros cb calls.
  assert (Hall : Forall (fun c : Z * Func nat => AlwaysFails (snd c)) calls).
  { repeat constructor; intros t env; cbn; discriminate. }
  destruct (C6_opens_at_threshold_and_fails_fast nat cb m0 calls
              ltac:(cbn; lia) ltac:(cbn; discriminate) eq_refl eq_refl Hall)
    as (Hopen & _ & Hlen & _ & Hfast).
  split; [exact Hopen|]. split; [exact Hlen|].
  apply Hfast. vm_compute. discriminate.
Defined.

(** A trial call that succeeds closes the breaker and zeroes the count. *)
Lemma Execute_trial_success (Env : Type) (cb : CircuitBreaker)
  (fn : Func Env) (m : Machine Env) :
  state cb = StateOpen ->
  Sub (clock m) (lastFailTime cb) > timeout cb ->
  fst (fst (fn (clock m) (captured m))) = None ->
  let r := Execute cb fn m in
  fst (fst r) = None /\ state (snd (fst r)) = StateClosed /\
  failures (snd (fst r)) = 0 /\
  invocations (snd r) = (clock m, None) :: invocations m.
Proof.
  intros Hst Hout Hok. unfold Execute. rewrite Hst. cbn [State_eqb].
  destruct (Z.gtb_spec (Sub (clock m) (lastFailTime cb)) (timeout cb)); [|lia].
  unfold call. destruct (fn (clock m) (captured m)) as [[e env'] d].
  cbn in Hok. subst e. cbn. auto.
Qed.

(** A trial call that fails leaves a breaker whose threshold is two or
    more half-open, with one failure counted. *)
Lemma Execute_trial_failure (Env : Type) (cb : CircuitBreaker)
  (fn : Func Env) (m : Machine Env) :
  state cb = StateOpen ->
  Sub (clock m) (lastFailTime cb) > timeout cb ->
  fst (fst (fn (clock m) (captured m))) <> None ->
  2 <= maxFailures cb ->
  let r := Execute cb fn m in
  state (snd (fst r)) = StateHalfOpen /\ failures (snd (fst r)) = 1.
Proof.
  intros Hst Hout Hko Hmax. unfold Execute. rewrite Hst. cbn [State_eqb].
  destruct (Z.gtb_spec (Sub (clock m) (lastFailTime cb)) (timeout cb)); [|lia].
  unfold call. destruct (fn (clock m) (captured m)) as [[e env'] d].
  cbn in Hko. destruct e; [|congruence].
  cbn [set_lastFailTime set_failures set_state failures maxFailures].
  change (wrap32u (0 + 1)) with 1.
  destruct (Z.geb_spec 1 (maxFailures cb)); [lia|]. cbn. auto.
Qed.

(** C2.  A breaker with threshold 2 and a cooldown of 100ns opens on two
    failures at instant 0.  At instant 200 the cooldown has elapsed and
    the call is executed as a trial; it fails.  The breaker is then
    half-open, not open, and the call that follows at once is executed
    too instead of being refused with [ErrCircuitOpen]. *)
Example C2_failed_trial_does_not_reopen :
  let opened := feed (NewCircuitBreaker 2 100) m0 [(0, failing); (0, failing)] in
  let trial := Execute (fst opened) failing (elapse 200 (snd opened)) in
  let next := Execute (snd (fst trial)) failing (snd trial) in
  GetState (fst opened) = StateOpen /\
  fst (fst trial) = Some (Errorf "error") /\
  GetState (snd (fst trial)) = StateHalfOpen /\
  failures (snd (fst trial)) = 1 /\
  lastFailTime (snd (fst trial)) = 200 /\
  fst (fst next) = Some (Errorf "error") /\
  fst (fst next) <> Some ErrCircuitOpen /\
  List.length (invocations (snd trial)) = 3%nat /\
  List.length (invocations (snd next)) = 4%nat.
Proof.
  vm_compute. repeat split; discriminate.
Qed.

End breaker_claims.

(** ** Retry with exponential backoff *)

Module retry_facts.

Import resilience.
Open Scope Z_scope.

Section Retry.

Context {Env float64 : Type}.
Variable scaleDuration : Z -> float64 -> Z.
Variable ctx : Context.
Variable config : RetryConfig float64.
Variable fn : Func Env.

Lemma call_invocations (m : Machine Env) :
  invocations (snd (call fn m)) = (clock m, fst (call fn m)) :: invocations m.
Proof.
  unfold call. destruct (fn (clock m) (captured m)) as [[e env'] d].
  reflexivity.
Qed.

Lemma call_captured (m : Machine Env) :
  captured (snd (call fn m)) = snd (fst (fn (clock m) (captured m))).
Proof.
  unfold call. destruct (fn (clock m) (captured m)) as [[e env'] d].
  reflexivity.
Qed.

Lemma call_result (m : Machine Env) :
  fst (call fn m) = fst (fst (fn (clock m) (captured m))).
Proof.
  unfold call. destruct (fn (clock m) (captured m)) as [[e env'] d].
  reflexivity.
Qed.

(** One unfolding of the loop, with the call named. *)
Lemma retryLoop_step (n : nat) (attempt interval : Z)
  (lastErr : option error) (m : Machine Env) :
  attempt < MaxAttempts config ->
  retryLoop scaleDuration ctx config fn (S n) attempt interval lastErr m =
  if isDone ctx (clock m) then (Some (reason ctx), m)
  else match fst (call fn m) with
       | None => (None, snd (call fn m))
       | Some e =>
           if attempt <? wrap64 (MaxAttempts config - 1) then
             retryLoop scaleDuration ctx config fn n (attempt + 1)
               (let i1 := scaleDuration interval (Multiplier config) in
                if i1 >? MaxInterval config then MaxInterval config else i1)
               (Some e) (Sleep interval (snd (call fn m)))
           else
             retryLoop scaleDuration ctx config fn n (attempt + 1) interval
               (Some e) (snd (call fn m))
       end.
Proof.
  intros Hlt. cbn [retryLoop].
  destruct (Z.ltb_spec attempt (MaxAttempts config)); [|lia].
  destruct (isDone ctx (clock m)); [reflexivity|].
  destruct (call fn m) as [[e|] m1]; reflexivity.
Qed.

(** Rounds beyond [MaxAttempts - attempt] change nothing: the test of the
    loop ends it before the bound does. *)
Lemma retryLoop_more_rounds (n : nat) :
  forall (attempt interval : Z) (lastErr : option error) (m : Machine Env),
    Z.max 0 (MaxAttempts config - attempt) <= Z.of_nat n ->
    retryLoop scaleDuration ctx config fn (S n) attempt interval lastErr m =
    retryLoop scaleDuration ctx config fn n attempt interval lastErr m.
Proof.
  induction n as [|n IH]; intros attempt interval lastErr m Hn.
  - cbn [retryLoop].
    destruct (Z.ltb_spec attempt (MaxAttempts config)); [lia|reflexivity].
  - destruct (Z.ltb_spec attempt (MaxAttempts config)) as [Hlt|Hge].
    + rewrite (retryLoop_step (S n)), (retryLoop_step n) by exact Hlt.
      destruct (isDone ctx (clock m)); [reflexivity|].
      destruct (fst (call fn m)); [|reflexivity].
      destruct (attempt <? wrap64 (MaxAttempts config - 1));
        apply IH; lia.
    + cbn [retryLoop].
      destruct (Z.ltb_spec attempt (MaxAttempts config)); [lia|reflexivity].
Qed.

(** Without cancellation, an operation that fails [k] times and then
    succeeds is called [k + 1] times when the loop has more than [k]
    rounds left, and as many times as there are rounds otherwise; in the
    second case the error returned is the one of the last call. *)
Lemma retryLoop_fails_then_succeeds (n : nat) :
  doneAt ctx = None ->
  forall (k : nat) (attempt interval : Z) (lastErr : option error)
         (m : Machine Env),
    Z.of_nat n <= Z.max 0 (MaxAttempts config - attempt) ->
    FailsThenSucceeds fn k (captured m) ->
    let r := retryLoop scaleDuration ctx config fn n attempt interval lastErr m in
    ((k < n)%nat ->
       fst r = None /\
       List.length (invocations (snd r)) =
         (List.length (invocations m) + k + 1)%nat) /\
    ((n <= k)%nat ->
       List.length (invocations (snd r)) =
         (List.length (invocations m) + n)%nat /\
       (n = O -> r = (lastErr, m)) /\
       (n <> O -> exists t e rest,
           fst r = Some e /\ invocations (snd r) = (t, Some e) :: rest)).
Proof.
  intros Hctx. induction n as [|n IH];
    intros k attempt interval lastErr m Hn Hfts; cbv zeta.
  - cbn [retryLoop]. split; [lia|]. intros _. cbn.
    repeat split; try lia; congruence.
  - rewrite retryLoop_step by lia. unfold isDone. rewrite Hctx.
    pose proof (call_invocations m) as Hinv.
    pose proof (call_captured m) as Hcap.
    pose proof (call_result m) as Hres.
    inversion Hfts as [env Hok|k' env Hko Hnext]; subst.
    + rewrite Hres, Hok. cbn [fst snd]. split; [|lia]. intros _.
      rewrite Hinv. cbn [List.length fst snd]. split; [reflexivity|lia].
    + specialize (Hko (clock m)). specialize (Hnext (clock m)).
      rewrite <- Hcap in Hnext. rewrite <- Hres in Hko.
      destruct (fst (call fn m)) as [e|] eqn:He; [|congruence].
      assert (Hboth : forall i m1,
                 captured m1 = captured (snd (call fn m)) ->
                 invocations m1 = invocations (snd (call fn m)) ->
                 let r := retryLoop scaleDuration ctx config fn n (attempt + 1)
                            i (Some e) m1 in
                 ((S k' < S n)%nat ->
                    fst r = None /\
                    List.length (invocations (snd r)) =
                      (List.length (invocations m) + S k' + 1)%nat) /\
                 ((S n <= S k')%nat ->
                    List.length (invocations (snd r)) =
                      (List.length (invocations m) + S n)%nat /\
                    (S n = O -> r = (lastErr, m)) /\
                    (S n <> O -> exists t e0 rest,
                        fst r = Some e0 /\
                        invocations (snd r) = (t, Some e0) :: rest))).
      { intros i m1 Hc Hi. cbv zeta.
        assert (Hf : FailsThenSucceeds fn k' (captured m1)) by (rewrite Hc; exact Hnext).
        specialize (IH k' (attempt + 1) i (Some e) m1 ltac:(lia) Hf).
        cbv zeta in IH.
        destruct IH as [IHlt IHle].
        rewrite Hi, Hinv in IHlt, IHle. cbn [List.length] in IHlt, IHle.
        split.
        - intros Hlt. destruct (IHlt ltac:(lia)) as [-> Hl]. split; [reflexivity|lia].
        - intros Hle. destruct (IHle ltac:(lia)) as (Hl & Hz & Hnz).
          split; [lia|]. split; [discriminate|]. intros _.
          destruct n as [|n'].
          + rewrite (Hz eq_refl). cbn [fst snd]. rewrite Hi, Hinv.
            exists (clock m), e, (invocations m). split; reflexivity.
          + apply Hnz. discriminate. }
      destruct (attempt <? wrap64 (MaxAttempts config - 1)).
      * apply Hboth; reflexivity.
      * apply Hboth; reflexivity.
Qed.

(** With a signal that fires at [c], every call of the operation starts
    before [c]; and a run that made fewer calls than it had rounds ended
    with success or with the reason of the cancellation. *)
Lemma retryLoop_cancellation (c : Z) (n : nat) :
  doneAt ctx = Some c ->
  forall (attempt interval : Z) (lastErr : option error) (m : Machine Env),
    Z.of_nat n <= Z.max 0 (MaxAttempts config - attempt) ->
    let r := retryLoop scaleDuration ctx config fn n attempt interval lastErr m in
    exists new,
      invocations (snd r) = (new ++ invocations m)%list /\
      Forall (fun x => fst x < c) new /\
      ((List.length new < n)%nat ->
         fst r = None \/ fst r = Some (reason ctx)).
Proof.
  intros Hctx. induction n as [|n IH]; intros attempt interval lastErr m Hfuel;
    cbv zeta.
  - cbn [retryLoop]. exists []. cbn. split; [reflexivity|]. split; [constructor|lia].
  - rewrite retryLoop_step by lia. unfold isDone. rewrite Hctx.
    destruct (Z.leb_spec c (clock m)) as [Hle|Hlt].
    + exists []. cbn. split; [reflexivity|]. split; [constructor|]. auto.
    + pose proof (call_invocations m) as Hinv.
      destruct (fst (call fn m)) as [e|] eqn:He.
      * assert (Hboth : forall i m1,
                   invocations m1 = invocations (snd (call fn m)) ->
                   let r := retryLoop scaleDuration ctx config fn n (attempt + 1)
                              i (Some e) m1 in
                   exists new,
                     invocations (snd r) = (new ++ invocations m)%list /\
                     Forall (fun x => fst x < c) new /\
                     ((List.length new < S n)%nat ->
                        fst r = None \/ fst r = Some (reason ctx))).
        { intros i m1 Hi. cbv zeta.
          destruct (IH (attempt + 1) i (Some e) m1 ltac:(lia))
            as (new & Hn & Hall & Hr).
          exists (new ++ [(clock m, Some e)])%list.
          rewrite Hn, Hi, Hinv, <- app_assoc. split; [reflexivity|].
          split.
          - apply Forall_app. split; [exact Hall|]. repeat constructor. exact Hlt.
          - rewrite length_app. cbn [List.length]. intros Hl. apply Hr. lia. }
        destruct (attempt <? wrap64 (MaxAttempts config - 1));
          apply Hboth; reflexivity.
      * exists [(clock m, None)]. cbn [fst snd]. rewrite Hinv.
        split; [reflexivity|]. split; [repeat constructor; exact Hlt|]. auto.
Qed.

End Retry.

End retry_facts.

Module retry_claims.

Import resilience retry_facts examples.
Open Scope Z_scope.

Lemma flaky_FailsThenSucceeds (k j : nat) :
  forall n : nat, (n + j = k)%nat -> FailsThenSucceeds (flaky k) j n.
Proof.
  induction j as [|j IH]; intros n Hn.
  - apply fts_succeeds. intros t. unfold flaky. cbn [fst snd].
    destruct (Nat.ltb_spec n k); [lia|reflexivity].
  - apply fts_fails.
    + intros t. unfold flaky. cbn [fst snd].
      destruct (Nat.ltb_spec n k); [discriminate|lia].
    + intros t. unfold flaky. cbn [fst snd]. apply IH. lia.
Qed.

(** C10.  With [MaxAttempts <= 0] the loop body is never entered:
    [RetryWithExponentialBackoff] returns [nil] and leaves the clock, the
    captured variables and the log of invocations untouched, whatever the
    context and the operation. *)
Theorem C10_no_attempt_returns_nil :
  forall (Env float64 : Type) (scaleDuration : Z -> float64 -> Z)
         (ctx : Context) (config : RetryConfig float64) (fn : Func Env)
         (m : Machine Env),
    MaxAttempts config <= 0 ->
    RetryWithExponentialBackoff scaleDuration ctx config fn m = (None, m).
Proof.
  intros Env float64 scaleDuration ctx config fn m Hmax.
  unfold RetryWithExponentialBackoff.
  replace (Z.to_nat (MaxAttempts config)) with O by lia.
  reflexivity.
Qed.

Lemma C10_witness :
  RetryWithExponentialBackoff scaleZ (cancelledAt 0)
    (mkRetryConfig (-1) 100 1000 2) failing m0 = (None, m0).
Proof.
  apply (C10_no_attempt_returns_nil nat Z scaleZ (cancelledAt 0)
           (mkRetryConfig (-1) 100 1000 2) failing m0).
  simpl. lia.
Defined.

(** C5.  The context is never cancelled and the operation fails exactly
    [N] times and then succeeds.  With [MaxAttempts > N] the call returns
    [nil] after exactly [N + 1] invocations; with
    [1 <= MaxAttempts <= N] it makes exactly [MaxAttempts] invocations and
    returns the error of the last one. *)
Theorem C5_fails_N_times_then_succeeds :
  forall (Env float64 : Type) (scaleDuration : Z -> float64 -> Z)
         (ctx : Context) (config : RetryConfig float64) (fn : Func Env)
         (m : Machine Env) (N : nat),
    doneAt ctx = None ->
    FailsThenSucceeds fn N (captured m) ->
    let r := RetryWithExponentialBackoff scaleDuration ctx config fn m in
    (Z.of_nat N < MaxAttempts config ->
       fst r = None /\
       List.length (invocations (snd r)) =
         (List.length (invocations m) + N + 1)%nat) /\
    (1 <= MaxAttempts config <= Z.of_nat N ->
       List.length (invocations (snd r)) =
         (List.length (invocations m) + Z.to_nat (MaxAttempts config))%nat /\
       exists t e rest,
         fst r = Some e /\ invocations (snd r) = (t, Some e) :: rest).
Proof.
  intros Env float64 scaleDuration ctx config fn m N Hctx Hfts r.
  pose proof (retryLoop_fails_then_succeeds scaleDuration ctx config fn
                (Z.to_nat (MaxAttempts config)) Hctx N 0
                (InitialInterval config) None m ltac:(lia) Hfts) as H.
  cbv zeta in H. fold (RetryWithExponentialBackoff scaleDuration ctx config fn m) in H.
  fold r in H. destruct H as [Hlt Hle]. split.
  - intros Hn. apply Hlt. lia.
  - intros Hn. destruct (Hle ltac:(lia)) as (Hl & _ & Hlast).
    split; [exact Hl|]. apply Hlast. lia.
Qed.

Lemma C5_witness :
  (let r := RetryWithExponentialBackoff scaleZ Background config3 (flaky 1) m0 in
   fst r = None /\ List.length (invocations (snd r)) = 2%nat) /\
  (let r := RetryWithExponentialBackoff scaleZ Background config3 (flaky 5) m0 in
   List.length (invocations (snd r)) = 3%nat /\
   exists t e rest,
     fst r = Some e /\ invocations (snd r) = (t, Some e) :: rest).
Proof.
  split.
  - apply (C5_fails_N_times_then_succeeds nat Z scaleZ Background config3
             (flaky 1) m0 1 eq_refl (flaky_FailsThenSucceeds 1 1 0 eq_refl)).
    simpl. lia.
  - apply (C5_fails_N_times_then_succeeds nat Z scaleZ Background config3
             (flaky 5) m0 5 eq_refl (flaky_FailsThenSucceeds 5 5 0 eq_refl)).
    simpl. lia.
Defined.




End retry_claims.

(** ** Rate limiter *)

Module limiter_claims.

Import resilience examples.
Open Scope Z_scope.

Lemma wrap64_le (x : Z) : 0 <= x -> wrap64 x <= x.
Proof.
  intros H. unfold wrap64.
  pose proof (Z.mod_le (x + 2 ^ 63) (2 ^ 64) ltac:(lia) ltac:(lia)). lia.
Qed.

Lemma Sub_range (t u : Z) : minInt64 <= Sub t u <= maxInt64.
Proof. unfold Sub, minInt64, maxInt64. lia. Qed.

(** The quotient of a duration by a positive duration is a duration. *)
Lemma quot_range (e i : Z) :
  minInt64 <= e <= maxInt64 -> 0 < i -> minInt64 <= Z.quot e i <= maxInt64.
Proof.
  intros He Hi. unfold minInt64, maxInt64 in *.
  destruct (Z.le_gt_cases 0 e) as [Hpos|Hneg].
  - pose proof (Z.quot_pos e i Hpos Hi).
    pose proof (Z.quot_le_upper_bound e i e Hi ltac:(nia)). lia.
  - assert (Hq : Z.quot e i = - Z.quot (- e) i) by (rewrite Z.quot_opp_l; lia).
    pose proof (Z.quot_pos (- e) i ltac:(lia) Hi).
    pose proof (Z.quot_le_upper_bound (- e) i (- e) Hi ltac:(nia)). lia.
Qed.

(** What [Allow] does, as long as the token count does not overflow. *)
Lemma Allow_rule (rl : RateLimiter) (now : Z) :
  0 < interval rl ->
  0 <= tokens rl ->
  tokens rl + Z.max 0 (Z.quot (Sub now (lastTime rl)) (interval rl)) <= maxInt64 ->
  Allow rl now =
  Some (available rl now >? 0,
        {| rate := rate rl; interval := interval rl;
           tokens := if available rl now >? 0
                     then available rl now - 1 else available rl now;
           lastTime := if Z.quot (Sub now (lastTime rl)) (interval rl) >? 0
                       then now else lastTime rl |}).
Proof.
  intros Hi Ht Hov. unfold Allow, available.
  destruct (Z.eqb_spec (interval rl) 0); [lia|].
  pose proof (quot_range _ _ (Sub_range now (lastTime rl)) Hi) as Hq.
  set (k := Z.quot (Sub now (lastTime rl)) (interval rl)) in *.
  cbv zeta. rewrite (wrap64_id k Hq).
  destruct (Z.gtb_spec k 0) as [Hk|Hk].
  - rewrite (wrap64_id (tokens rl + k)) by (unfold minInt64, maxInt64 in *; lia).
    cbn [refill tokens rate interval lastTime].
    destruct (Z.gtb_spec (tokens rl + k) (rate rl)) as [Hc|Hc].
    + rewrite Z.min_l by lia.
      destruct (Z.gtb_spec (rate rl) 0) as [Hr|Hr]; [|destruct rl; reflexivity].
      cbn [set_tokens tokens rate interval lastTime].
      rewrite wrap64_id by (unfold minInt64, maxInt64 in *; lia). reflexivity.
    + rewrite Z.min_r by lia.
      destruct (Z.gtb_spec (tokens rl + k) 0) as [Hr|Hr]; [|reflexivity].
      cbn [set_tokens tokens rate interval lastTime].
      rewrite wrap64_id by (unfold minInt64, maxInt64 in *; lia). reflexivity.
  - destruct (Z.gtb_spec (tokens rl) 0) as [Hr|Hr]; [|destruct rl; reflexivity].
    unfold set_tokens.
    rewrite wrap64_id by (unfold minInt64, maxInt64 in *; lia). reflexivity.
Qed.

(** [Allow] never leaves more tokens than the capacity. *)
Lemma Allow_capacity (rl rl' : RateLimiter) (now : Z) (b : bool) :
  tokens rl <= rate rl ->
  Allow rl now = Some (b, rl') ->
  rate rl' = rate rl /\ interval rl' = interval rl /\ tokens rl' <= rate rl'.
Proof.
  intros Hle. unfold Allow.
  destruct (interval rl =? 0); [discriminate|]. cbv zeta.
  set (k := wrap64 (Z.quot (Sub now (lastTime rl)) (interval rl))).
  assert (H1 : forall rl1 : RateLimiter,
             rate rl1 = rate rl -> interval rl1 = interval rl ->
             tokens rl1 <= rate rl ->
             (if tokens rl1 >? 0
              then Some (true, set_tokens (wrap64 (tokens rl1 - 1)) rl1)
              else Some (false, rl1)) = Some (b, rl') ->
             rate rl' = rate rl /\ interval rl' = interval rl /\
             tokens rl' <= rate rl').
  { intros rl1 Hr Hi Ht.
    destruct (Z.gtb_spec (tokens rl1) 0) as [Hp|Hp]; intros E;
      injection E as <- <-; cbn [set_tokens rate interval tokens].
    - pose proof (wrap64_le (tokens rl1 - 1) ltac:(lia)). repeat split; auto; lia.
    - repeat split; auto; lia. }
  destruct (k >? 0).
  - apply H1; cbn [refill rate interval tokens]; auto.
    destruct (Z.gtb_spec (wrap64 (tokens rl + k)) (rate rl)); lia.
  - apply H1; auto.
Qed.

(** C3, as the specification words it, fails: a limiter of capacity 2 and
    interval 100 is emptied at instant 0.  One interval later a single
    token has been added: one acquisition succeeds and the next fails.
    With [rate] tokens per interval both would succeed. *)
Lemma C3_replenishes_one_token_per_interval :
  let drained := {| rate := 2; interval := 100; tokens := 0; lastTime := 0 |} in
  Allow (NewRateLimiter 2 100 0) 0 =
    Some (true, {| rate := 2; interval := 100; tokens := 1; lastTime := 0 |}) /\
  Allow {| rate := 2; interval := 100; tokens := 1; lastTime := 0 |} 0 =
    Some (true, drained) /\
  Allow drained 100 =
    Some (true, {| rate := 2; interval := 100; tokens := 0; lastTime := 100 |}) /\
  Allow {| rate := 2; interval := 100; tokens := 0; lastTime := 100 |} 100 =
    Some (false, {| rate := 2; interval := 100; tokens := 0; lastTime := 100 |}) /\
  Allow_rate_per_interval drained 100 =
    Some (true, {| rate := 2; interval := 100; tokens := 1; lastTime := 100 |}) /\
  Allow drained 100 <> Allow_rate_per_interval drained 100.
Proof.
  vm_compute. repeat split; discriminate.
Qed.

(** C3, amended.  At each call of [Allow] the tokens are replenished from
    the time elapsed since the last replenishment: one token for every
    whole [interval] elapsed, up to the capacity [rate]; a token is then
    taken if there is one.  The stored count never exceeds the capacity.
    With capacity 2 and interval [T], three acquisitions made less than
    [T] after the creation give true, true, false, and an acquisition
    made at least [T] after the third gives true. *)
Theorem C3_token_bucket :
  (forall (rl : RateLimiter) (now : Z),
      0 < interval rl ->
      0 <= tokens rl ->
      tokens rl + Z.max 0 (Z.quot (Sub now (lastTime rl)) (interval rl))
        <= maxInt64 ->
      Allow rl now =
      Some (available rl now >? 0,
            {| rate := rate rl; interval := interval rl;
               tokens := if available rl now >? 0
                         then available rl now - 1 else available rl now;
               lastTime := if Z.quot (Sub now (lastTime rl)) (interval rl) >? 0
                           then now else lastTime rl |})) /\
  (forall (rl rl' : RateLimiter) (now : Z) (b : bool),
      tokens rl <= rate rl ->
      Allow rl now = Some (b, rl') ->
      rate rl' = rate rl /\ tokens rl' <= rate rl') /\
  (forall T t0 t1 t2 t3 t4 : Z,
      0 < T <= maxInt64 ->
      t0 <= t1 -> t1 <= t2 -> t2 <= t3 -> t3 < t0 + T -> t3 + T <= t4 ->
      exists rl1 rl2 rl3 rl4,
        Allow (NewRateLimiter 2 T t0) t1 = Some (true, rl1) /\
        Allow rl1 t2 = Some (true, rl2) /\
        Allow rl2 t3 = Some (false, rl3) /\
        Allow rl3 t4 = Some (true, rl4)).
Proof.
  split; [exact Allow_rule|]. split.
  - intros rl rl' now b Hle E.
    destruct (Allow_capacity rl rl' now b Hle E) as (Hr & _ & Ht). auto.
  - intros T t0 t1 t2 t3 t4 HT H01 H12 H23 H3 H4.
    assert (Hq0 : forall t, t0 <= t < t0 + T -> Z.quot (Sub t t0) T = 0).
    { intros t Ht. rewrite Sub_exact by (unfold minInt64, maxInt64 in *; lia).
      apply Z.quot_small. lia. }
    assert (Hq4 : 1 <= Z.quot (Sub t4 t0) T).
    { apply Z.quot_le_lower_bound; [lia|].
      pose proof (Sub_lower t4 t0 T ltac:(lia) ltac:(lia)). lia. }
    pose proof (quot_range (Sub t4 t0) T (Sub_range t4 t0) ltac:(lia)) as Hr4.
    eexists _, _, _, _.
    split; [|split; [|split]].
    + rewrite Allow_rule;
        cbn [NewRateLimiter interval tokens lastTime rate];
        rewrite ?(Hq0 t1) by lia;
        try (unfold maxInt64; cbn; lia).
      unfold available. cbn [NewRateLimiter interval tokens lastTime rate].
      rewrite (Hq0 t1) by lia. cbn. reflexivity.
    + rewrite Allow_rule;
        cbn [interval tokens lastTime rate];
        rewrite ?(Hq0 t2) by lia;
        try (unfold maxInt64; cbn; lia).
      unfold available. cbn [interval tokens lastTime rate].
      rewrite (Hq0 t2) by lia. cbn. reflexivity.
    + rewrite Allow_rule;
        cbn [interval tokens lastTime rate];
        rewrite ?(Hq0 t3) by lia;
        try (unfold maxInt64; cbn; lia).
      unfold available. cbn [interval tokens lastTime rate].
      rewrite (Hq0 t3) by lia. cbn. reflexivity.
    + rewrite Allow_rule;
        cbn [interval tokens lastTime rate]; try lia.
      unfold available. cbn [interval tokens lastTime rate].
      destruct (Z.gtb_spec (Z.quot (Sub t4 t0) T) 0); [|lia].
      destruct (Z.gtb_spec (Z.min 2 (0 + Z.quot (Sub t4 t0) T)) 0); [|lia].
      reflexivity.
Qed.

Lemma C3_witness :
  Allow {| rate := 5; interval := 100; tokens := 1; lastTime := 0 |} 250 =
    Some (true, {| rate := 5; interval := 100; tokens := 2; lastTime := 250 |}) /\
  (rate {| rate := 2; interval := 100; tokens := 1; lastTime := 0 |} = 2 /\
   tokens {| rate := 2; interval := 100; tokens := 1; lastTime := 0 |} <= 2) /\
  (exists rl1 rl2 rl3 rl4,
      Allow (NewRateLimiter 2 100 0) 0 = Some (true, rl1) /\
      Allow rl1 0 = Some (true, rl2) /\
      Allow rl2 0 = Some (false, rl3) /\
      Allow rl3 150 = Some (true, rl4)).
Proof.
  destruct C3_token_bucket as (Hrule & Hcap & Hscen).
  split; [|split].
  - rewrite (Hrule {| rate := 5; interval := 100; tokens := 1; lastTime := 0 |} 250).
    + reflexivity.
    + simpl. lia.
    + simpl. lia.
    + vm_compute. discriminate.
  - apply (Hcap (NewRateLimiter 2 100 0)
             {| rate := 2; interval := 100; tokens := 1; lastTime := 0 |} 0 true).
    + simpl. lia.
    + reflexivity.
  - apply (Hscen 100 0 0 0 0 150); try lia.
    vm_compute. split; [reflexivity|discriminate].
Defined.

End limiter_claims.

(** ** Text of a recognition result *)

Module speechkit_claims.

Import speechkit.
Open Scope string_scope.

Lemma append_assoc (a b c : string) : (a ++ b) ++ c = a ++ (b ++ c).
Proof. induction a as [|x a IH]; cbn; [reflexivity|now rewrite IH]. Qed.

Lemma append_empty_r (a : string) : a ++ "" = a.
Proof. induction a as [|x a IH]; cbn; [reflexivity|now rewrite IH]. Qed.

Lemma concat_cons (x : string) (xs : list string) :
  String.concat "" (x :: xs) = x ++ String.concat "" xs.
Proof.
  destruct xs as [|y xs]; cbn [String.concat].
  - now rewrite append_empty_r.
  - reflexivity.
Qed.

Lemma concat_app (xs ys : list string) :
  String.concat "" (xs ++ ys) = String.concat "" xs ++ String.concat "" ys.
Proof.
  induction xs as [|x xs IH]; [reflexivity|].
  change ((x :: xs) ++ ys)%list with (x :: (xs ++ ys))%list.
  now rewrite !concat_cons, IH, append_assoc.
Qed.

Lemma fold_alternatives (alts : list Alternative) (acc : string) :
  fold_left (fun text alt => text ++ Text alt ++ " ") alts acc =
  acc ++ String.concat "" (map (fun t => t ++ " ") (map Text alts)).
Proof.
  revert acc. induction alts as [|a alts IH]; intros acc.
  - cbn. now rewrite append_empty_r.
  - cbn [fold_left map]. now rewrite IH, concat_cons, !append_assoc.
Qed.

(** [GetFullText] is every text followed by one space, in order. *)
Lemma GetFullText_texts (r : RecognitionResult) :
  GetFullText r = String.concat "" (map (fun t => t ++ " ") (texts r)).
Proof.
  unfold GetFullText, texts. destruct r as [chunks]. cbn [Chunks].
  assert (H : forall acc,
             fold_left
               (fun text chunk =>
                  fold_left (fun text alt => text ++ Text alt ++ " ")
                    (Alternatives chunk) text) chunks acc =
             acc ++ String.concat ""
                      (map (fun t => t ++ " ")
                         (map Text (flat_map Alternatives chunks)))).
  { induction chunks as [|ch chunks IH]; intros acc.
    - cbn. now rewrite append_empty_r.
    - cbn [fold_left flat_map]. rewrite IH, fold_alternatives.
      now rewrite !map_app, concat_app, append_assoc. }
  now rewrite H.
Qed.

(** C8.  Two chunks with one alternative each, "hello" and then "world":
    the full text is "hello world ", each text followed by one space. *)
Theorem C8_hello_world :
  GetFullText
    {| Chunks := [ {| Alternatives := [ {| Text := "hello" |} ]; ChannelTag := "" |};
                   {| Alternatives := [ {| Text := "world" |} ]; ChannelTag := "" |} ] |}
  = "hello world ".
Proof. reflexivity. Qed.

End speechkit_claims.

(** ** Storage *)

Module storage_facts.

Import model storage.
Open Scope string_scope.
Open Scope Z_scope.

Lemma UpdateTask_keeps_transcripts (up : bool) (now : Z) (t : Task)
  (s : PostgresStorage) :
  transcripts (snd (UpdateTask up now t s)) = transcripts s.
Proof.
  unfold UpdateTask.
  destruct (negb up); [reflexivity|].
  destruct (negb (has_id _ _)); [reflexivity|].
  destruct (_ || _); reflexivity.
Qed.

(** An update keeps [DoneHasTranscript] when it does not mark the task
    done, or when the task has a transcript. *)
Lemma UpdateTask_DoneHasTranscript (up : bool) (now : Z) (t : Task)
  (s : PostgresStorage) :
  (Status t = TaskStatusDone -> transcripts_of (ID t) s <> []) ->
  DoneHasTranscript s ->
  DoneHasTranscript (snd (UpdateTask up now t s)).
Proof.
  intros Ht Hinv r Hin Hdone.
  unfold transcripts_of. rewrite UpdateTask_keeps_transcripts.
  revert Hin. unfold UpdateTask.
  destruct (negb up); [intros Hin; now apply Hinv|].
  destruct (negb (has_id _ _)); [intros Hin; now apply Hinv|].
  destruct (_ || _); [intros Hin; now apply Hinv|].
  cbn [snd tasks]. intros Hin. apply in_map_iff in Hin.
  destruct Hin as (r0 & Hr & Hin0).
  destruct (String.eqb_spec (ID r0) (ID t)) as [Heq|Hne].
  - subst r. cbn [updated_row ID Status] in *. rewrite Heq. now apply Ht.
  - subst r. now apply Hinv.
Qed.

(** The row that a successful update has written. *)
Lemma UpdateTask_success_row (up : bool) (now : Z) (t : Task)
  (s s' : PostgresStorage) :
  UpdateTask up now t s = (None, s') ->
  exists r0, ID r0 = ID t /\ In (updated_row now t r0) (tasks s').
Proof.
  unfold UpdateTask.
  destruct (negb up); [discriminate|].
  destruct (has_id (ID t) (tasks s)) eqn:Hid; [|discriminate].
  cbn [negb].
  destruct (_ || _); [discriminate|].
  intros E. injection E as <-. cbn [tasks].
  unfold has_id in Hid. apply existsb_exists in Hid.
  destruct Hid as (r0 & Hin & Heq). apply String.eqb_eq in Heq.
  exists r0. split; [exact Heq|].
  apply in_map_iff. exists r0. split; [|exact Hin].
  rewrite Heq, String.eqb_refl. reflexivity.
Qed.

Lemma CreateTranscript_keeps_tasks (up : bool) (tr : Transcript)
  (s : PostgresStorage) :
  tasks (snd (CreateTranscript up tr s)) = tasks s.
Proof.
  unfold CreateTranscript. destruct (_ || _); reflexivity.
Qed.

Lemma CreateTranscript_grows (up : bool) (tr : Transcript)
  (s : PostgresStorage) (id : string) :
  transcripts_of id s <> [] ->
  transcripts_of id (snd (CreateTranscript up tr s)) <> [].
Proof.
  unfold CreateTranscript, transcripts_of.
  destruct (_ || _); [auto|]. cbn [snd transcripts].
  rewrite filter_app. intros H E. apply app_eq_nil in E. tauto.
Qed.

Lemma CreateTranscript_DoneHasTranscript (up : bool) (tr : Transcript)
  (s : PostgresStorage) :
  DoneHasTranscript s ->
  DoneHasTranscript (snd (CreateTranscript up tr s)).
Proof.
  intros Hinv r Hin Hdone. rewrite CreateTranscript_keeps_tasks in Hin.
  apply CreateTranscript_grows. now apply Hinv.
Qed.

(** A transcript that was inserted is among the transcripts of its task. *)
Lemma CreateTranscript_inserted (up : bool) (tr : Transcript)
  (s : PostgresStorage) :
  fst (CreateTranscript up tr s) = None ->
  transcripts_of (TaskID tr) (snd (CreateTranscript up tr s)) <> [].
Proof.
  unfold CreateTranscript, transcripts_of.
  destruct (_ || _); [discriminate|]. intros _. cbn [snd transcripts].
  rewrite filter_app. cbn [filter]. rewrite String.eqb_refl.
  intros E. apply app_eq_nil in E. destruct E as [_ E]. discriminate.
Qed.

(** The attempts of every stored row fit their four-byte column. *)
Lemma Reachable_attempts (s : PostgresStorage) :
  Reachable s ->
  forall r, In r (tasks s) -> inInt4 (Attempts r) = true.
Proof.
  induction 1 as [|up task s Hs IH|up now id status s Hs IH
                  |up now task s Hs IH|up tr s Hs IH]; intros r Hin.
  - destruct Hin.
  - unfold CreateTask in Hin.
    destruct (negb up || has_id (ID task) (tasks s)
              || has_pair (ChatID task) (TelegramMessageID task) (tasks s));
      cbn [orb] in Hin; [now apply IH|].
    destruct (inInt4 (Attempts task)) eqn:E; cbn [negb snd tasks] in Hin;
      [|now apply IH].
    apply in_app_or in Hin. destruct Hin as [Hin|[<-|[]]]; [now apply IH|exact E].
  - unfold UpdateTaskStatus in Hin.
    destruct (negb up); [now apply IH|].
    destruct (negb (has_id id (tasks s))); [now apply IH|].
    cbn [snd tasks] in Hin. apply in_map_iff in Hin.
    destruct Hin as (r0 & <- & Hin).
    destruct (String.eqb (ID r0) id); cbn [Attempts]; now apply IH.
  - unfold UpdateTask in Hin.
    destruct (negb up); [now apply IH|].
    destruct (negb (has_id (ID task) (tasks s))); [now apply IH|].
    destruct (has_pair _ _ _); cbn [orb] in Hin; [now apply IH|].
    destruct (inInt4 (Attempts task)) eqn:E; cbn [negb snd tasks] in Hin;
      [|now apply IH].
    apply in_map_iff in Hin. destruct Hin as (r0 & <- & Hin).
    destruct (String.eqb (ID r0) (ID task)); [exact E|now apply IH].
  - rewrite CreateTranscript_keeps_tasks in Hin. now apply IH.
Qed.

(** A row that [GetTaskByID] returns is a row of the table. *)
Lemma GetTaskByID_In (up : bool) (id : string) (s : PostgresStorage) (r : Task) :
  GetTaskByID up id s = inr r -> In r (tasks s) /\ ID r = id.
Proof.
  unfold GetTaskByID. destruct (negb up); [discriminate|].
  destruct (find _ (tasks s)) as [r0|] eqn:F; [|discriminate].
  intros E. injection E as <-. apply find_some in F.
  destruct F as [Hin Heq]. split; [exact Hin|]. now apply String.eqb_eq.
Qed.

End storage_facts.

(** ** Processing cycle *)

Module worker_facts.

Import model worker storage_facts.
Open Scope string_scope.
Open Scope Z_scope.

Lemma notifications_app (a b : list Event) :
  notifications (a ++ b) = (notifications a ++ notifications b)%list.
Proof. apply filter_app. Qed.

Lemma notifications_logged (err : option error) (msg : string) :
  notifications (logged err msg) = [].
Proof. destruct err; reflexivity. Qed.

Lemma whenError_log (err : option error) (msg : string) (w : World) :
  whenError err (loggerError msg) w =
  (tt, {| db := db w; step := step w;
          events := (events w ++ logged err msg)%list |}).
Proof.
  destruct err; cbn; [reflexivity|]. rewrite app_nil_r. now destruct w.
Qed.

Lemma loggerError_run (msg : string) (w : World) :
  loggerError msg w =
  (tt, {| db := db w; step := step w;
          events := (events w ++ [LoggedError msg])%list |}).
Proof. reflexivity. Qed.

(** Membership in a list of events built from singletons, log lines and
    an optional notification. *)
Ltac split_in H :=
  repeat match type of H with
    | In _ (_ ++ _) => apply in_app_or in H; destruct H as [H|H]
    | In _ (_ :: _) => destruct H as [H|H]
    | In _ [] => destruct H
    | In _ (logged ?e _) => destruct e; cbn [logged] in H
    | In _ (if ?b then _ else _) => destruct b
    end.

(** Symbolic execution of the processor's computations. *)
Ltac run :=
  cbv [bind ret Now worker.UpdateTask worker.GetTaskByID
         worker.CreateTranscript sendResultToUser Send emit];
  cbn [db step events fst snd].

Ltac run_in H :=
  cbv [bind ret Now worker.UpdateTask worker.GetTaskByID
         worker.CreateTranscript sendResultToUser Send emit] in H;
  cbn [db step events fst snd] in H.

Lemma handleTaskError_run (c : Collaborators) (task : Task) (msg : string)
  (w : World) :
  handleTaskError c task msg w =
  let failed := IncrementAttempts (SetError msg (timeNow c (step w)) task) in
  let r := storage.UpdateTask (dbUp c (S (step w))) (dbNow c (S (step w)))
             failed (db w) in
  (failed,
   {| db := snd r; step := S (S (step w));
      events := (events w
                 ++ [LoggedError "Task processing error";
                     UpdateTaskCalled failed (fst r)]
                 ++ logged (fst r) "Failed to update task error"
                 ++ (if Attempts failed >=? 3
                     then [Sent (ChatID failed) (TelegramMessageID failed)
                             failureNotice (botSend c)]
                     else []))%list |}).
Proof.
  unfold handleTaskError. run. rewrite loggerError_run.
  cbn [db step events fst snd].
  destruct (storage.UpdateTask _ _ _ _) as [e db'].
  cbn [db step events fst snd]. rewrite whenError_log.
  cbn [db step events fst snd].
  destruct (_ >=? 3); run;
    rewrite <- ?app_assoc; cbn [app]; rewrite ?app_nil_r; reflexivity.
Qed.

Lemma handleTaskError_DoneHasTranscript (c : Collaborators) (task : Task)
  (msg : string) (w : World) :
  storage.DoneHasTranscript (db w) ->
  storage.DoneHasTranscript (db (snd (handleTaskError c task msg w))).
Proof.
  intros Hinv. rewrite handleTaskError_run. cbv zeta. cbn [snd db].
  apply UpdateTask_DoneHasTranscript; [|exact Hinv].
  cbn. discriminate.
Qed.

Lemma failed_task_fields (task row : Task) (msg : string) (now : Z) :
  Status task = TaskStatusInProgress ->
  ID task = ID row -> Attempts task = Attempts row ->
  OperationID task <> None ->
  minInt64 <= Attempts row < maxInt64 ->
  let failed := IncrementAttempts (SetError msg now task) in
  Status failed = TaskStatusFailed /\
  ErrorText failed = Some msg /\
  Attempts failed = Attempts row + 1 /\
  UpdatedAt failed = now /\
  OperationID failed = OperationID task /\
  OperationID failed <> None.
Proof.
  intros Hs Hi Ha Ho Hr. cbn.
  rewrite Ha, wrap64_id by (unfold minInt64, maxInt64 in *; lia).
  repeat split; auto.
Qed.

(** [handleTaskError] on a task in progress records the failure. *)
Lemma handleTaskError_records (c : Collaborators) (w : World) (row task : Task)
  (msg : string) (k : nat) (pre : list Event) (dbk : storage.PostgresStorage) :
  minInt64 <= Attempts row < maxInt64 ->
  Status task = TaskStatusInProgress ->
  ID task = ID row -> Attempts task = Attempts row ->
  OperationID task <> None ->
  failure_message msg ->
  notifications pre = [] ->
  FailureRecorded c w
    (snd (handleTaskError c task msg
            {| db := dbk; step := k; events := (events w ++ pre)%list |}))
    row.
Proof.
  intros Hrange Hs Hi Ha Ho Hm Hpre.
  rewrite handleTaskError_run. cbv zeta. cbn [db step events fst snd].
  set (failed := IncrementAttempts (SetError msg (timeNow c k) task)) in *.
  destruct (storage.UpdateTask (dbUp c (S k)) (dbNow c (S k)) failed dbk)
    as [uerr dbf] eqn:Eu.
  cbn [fst snd].
  pose proof (failed_task_fields task row msg (timeNow c k) Hs Hi Ha Ho Hrange)
    as Hf. cbv zeta in Hf. fold failed in Hf.
  exists task, msg, k. eexists. exists uerr.
  split; [exact Hs|]. split; [exact Hi|]. split; [exact Ha|].
  split; [exact Hm|]. cbv zeta. fold failed.
  split; [exact Hf|]. cbn [events db].
  split; [rewrite <- app_assoc; reflexivity|].
  split; [apply in_or_app; right; right; left; reflexivity|].
  split.
  - rewrite !notifications_app, Hpre, notifications_logged.
    destruct (Attempts failed >=? 3); reflexivity.
  - intros ->. destruct (UpdateTask_success_row _ _ _ _ _ Eu) as (r0 & Hr0 & Hin).
    exists (storage.updated_row (dbNow c (S k)) failed r0).
    split; [exact Hin|].
    destruct Hf as (Hf1 & Hf2 & Hf3 & Hf4 & Hf5 & Hf6).
    cbn [storage.updated_row ID Status ErrorText Attempts OperationID].
    rewrite Hr0. repeat split; auto.
Qed.

(** [handleTaskError] marks no task done. *)
Lemma handleTaskError_outcome (c : Collaborators) (w : World) (task : Task)
  (msg : string) (k : nat) (pre : list Event) (dbk : storage.PostgresStorage) :
  (forall t u, In (UpdateTaskCalled t u) pre -> Status t <> TaskStatusDone) ->
  storage.DoneHasTranscript dbk ->
  CycleOutcome w
    (snd (handleTaskError c task msg
            {| db := dbk; step := k; events := (events w ++ pre)%list |})).
Proof.
  intros Hpre Hinv.
  pose proof (handleTaskError_DoneHasTranscript c task msg
                {| db := dbk; step := k; events := (events w ++ pre)%list |} Hinv)
    as Hdb.
  rewrite handleTaskError_run in *. cbv zeta in *. cbn [snd db events] in *.
  eexists. split; [rewrite <- app_assoc; reflexivity|]. split.
  - intros t u Hin Hdone. exfalso.
    apply in_app_or in Hin. destruct Hin as [Hin|Hin].
    + exact (Hpre t u Hin Hdone).
    + split_in Hin; try discriminate.
      all: injection Hin as <- _; cbn in Hdone; discriminate.
  - intros _. exact Hdb.
Qed.

End worker_facts.

Module worker_claims.

Import model worker storage_facts worker_facts cycle_examples.
Open Scope string_scope.
Open Scope Z_scope.

(** A cycle that found its task and returned an error has recorded the
    failure. *)
Lemma failed_cycle_FailureRecorded (c : Collaborators) (w w' : World)
  (vt : queue.VoiceTask) (row : Task) (e : error) :
  unmarshal c = inr vt ->
  storage.GetTaskByID (dbUp c (step w)) (queue.TaskID vt) (db w) = inr row ->
  minInt64 <= Attempts row < maxInt64 ->
  ProcessTask c w = (Some e, w') ->
  FailureRecorded c w w' row.
Proof.
  intros Hu Hg Hrange H.
  unfold ProcessTask in H. rewrite Hu in H. run_in H.
  rewrite Hg in H. run_in H.
  set (task1 := SetInProgress "" (timeNow c (S (step w))) row) in *.
  destruct (storage.UpdateTask (dbUp c (S (S (step w)))) _ task1 _)
    as [e1 db1].
  run_in H. rewrite whenError_log in H. run_in H.
  rewrite <- app_assoc in H.
  assert (Hpre1 : notifications
                    ([UpdateTaskCalled task1 e1]
                     ++ logged e1 "Failed to update task status") = []).
  { rewrite notifications_app, notifications_logged. reflexivity. }
  destruct (downloadTelegramFile c (queue.FileID vt)) as [ed|data].
  { destruct (handleTaskError c task1 _ _) as [t' wf] eqn:Eh.
    injection H as _ <-.
    replace wf with (snd (handleTaskError c task1
                            ("Failed to download file: " ++ Error ed)
                            {| db := db1; step := S (S (S (step w)));
                               events := (events w
                                          ++ [UpdateTaskCalled task1 e1]
                                          ++ logged e1 "Failed to update task status")%list |}))
      by (rewrite Eh; reflexivity).
    apply handleTaskError_records; auto; try discriminate.
    left. exists ed. reflexivity. }
  destruct (uploadFile c) as [eu|url].
  { destruct (handleTaskError c task1 _ _) as [t' wf] eqn:Eh.
    injection H as _ <-.
    replace wf with (snd (handleTaskError c task1
                            ("Failed to upload to S3: " ++ Error eu)
                            {| db := db1; step := S (S (S (step w)));
                               events := (events w
                                          ++ [UpdateTaskCalled task1 e1]
                                          ++ logged e1 "Failed to update task status")%list |}))
      by (rewrite Eh; reflexivity).
    apply handleTaskError_records; auto; try discriminate.
    right. left. exists eu. reflexivity. }
  destruct (startRecognition c) as [es|op].
  { destruct (handleTaskError c task1 _ _) as [t' wf] eqn:Eh.
    injection H as _ <-.
    replace wf with (snd (handleTaskError c task1
                            ("Failed to start recognition: " ++ Error es)
                            {| db := db1; step := S (S (S (step w)));
                               events := (events w
                                          ++ [UpdateTaskCalled task1 e1]
                                          ++ logged e1 "Failed to update task status")%list |}))
      by (rewrite Eh; reflexivity).
    apply handleTaskError_records; auto; try discriminate.
    right. right. left. exists es. reflexivity. }
  run_in H.
  set (task2 := set_OperationID op task1) in *.
  destruct (storage.UpdateTask _ _ task2 _) as [e2 db2].
  run_in H. rewrite whenError_log in H. run_in H.
  rewrite <- !app_assoc in H.
  set (pre2 := ([UpdateTaskCalled task1 e1]
                ++ logged e1 "Failed to update task status"
                ++ [UpdateTaskCalled task2 e2]
                ++ logged e2 "Failed to update operation_id")%list) in *.
  assert (Hpre2 : notifications pre2 = []).
  { subst pre2. rewrite !notifications_app, !notifications_logged. reflexivity. }
  destruct (waitForResult c) as [ew|result].
  { destruct (handleTaskError c task2 _ _) as [t' wf] eqn:Eh.
    injection H as _ <-.
    replace wf with (snd (handleTaskError c task2
                            ("Recognition failed: " ++ Error ew)
                            {| db := db2; step := S (S (S (S (step w))));
                               events := (events w ++ pre2)%list |}))
      by (rewrite Eh; reflexivity).
    apply handleTaskError_records; auto; try discriminate.
    right. right. right. left. exists ew. reflexivity. }
  destruct (String.eqb (speechkit.GetFullText result) "").
  { destruct (handleTaskError c task2 _ _) as [t' wf] eqn:Eh.
    injection H as _ <-.
    replace wf with (snd (handleTaskError c task2 "No text recognized"
                            {| db := db2; step := S (S (S (S (step w))));
                               events := (events w ++ pre2)%list |}))
      by (rewrite Eh; reflexivity).
    apply handleTaskError_records; auto; try discriminate.
    right. right. right. right. reflexivity. }
  exfalso. run_in H.
  destruct (storage.CreateTranscript _ _ _) as [et db3].
  run_in H. rewrite whenError_log in H. run_in H.
  destruct (storage.UpdateTask _ _ _ _) as [e3 db4].
  run_in H. rewrite whenError_log in H. run_in H.
  rewrite whenError_log in H. run_in H. discriminate.
Qed.







End worker_claims.

(** ** Keys of the task table *)

Module key_facts.

Import model storage.
Open Scope string_scope.
Open Scope Z_scope.

Lemma has_id_In (id : string) (rows : list Task) :
  has_id id rows = true <-> In id (map ID rows).
Proof.
  unfold has_id. rewrite existsb_exists, in_map_iff. split.
  - intros (r & Hin & Heq). apply String.eqb_eq in Heq. eauto.
  - intros (r & Heq & Hin). exists r. split; [exact Hin|].
    now apply String.eqb_eq.
Qed.

Lemma same_pair_iff (chat msg : Z) (r : Task) :
  same_pair chat msg r = true <-> pair_of r = (chat, msg).
Proof.
  unfold same_pair, pair_of. rewrite andb_true_iff, !Z.eqb_eq. split.
  - intros [-> ->]. reflexivity.
  - intros E. injection E as -> ->. auto.
Qed.

Lemma has_pair_In (chat msg : Z) (rows : list Task) :
  has_pair chat msg rows = true <-> In (chat, msg) (map pair_of rows).
Proof.
  unfold has_pair. rewrite existsb_exists, in_map_iff. split.
  - intros (r & Hin & Heq). apply same_pair_iff in Heq. eauto.
  - intros (r & Heq & Hin). exists r. split; [exact Hin|].
    now apply same_pair_iff.
Qed.

Lemma NoDup_snoc {A : Type} (l : list A) (x : A) :
  NoDup l -> ~ In x l -> NoDup (l ++ [x]).
Proof.
  intros Hl Hx. apply NoDup_app; [exact Hl|repeat constructor; auto|].
  intros a Ha [<-|[]]. auto.
Qed.

(** With distinct pairs, a pair selects at most one row. *)
Lemma NoDup_pairs_at_most_one (chat msg : Z) (rows : list Task) :
  NoDup (map pair_of rows) ->
  (List.length (filter (same_pair chat msg) rows) <= 1)%nat.
Proof.
  induction rows as [|r rows IH]; intros Hnd; [cbn; lia|].
  cbn [map] in Hnd. apply NoDup_cons_iff in Hnd. destruct Hnd as [Hr Hnd].
  cbn [filter]. destruct (same_pair chat msg r) eqn:E.
  - apply same_pair_iff in E. cbn [List.length].
    destruct (filter (same_pair chat msg) rows) as [|r' rest] eqn:F; [cbn; lia|].
    exfalso. apply Hr.
    assert (Hin : In r' (filter (same_pair chat msg) rows))
      by (rewrite F; now left).
    apply filter_In in Hin. destruct Hin as [Hin Hp].
    apply same_pair_iff in Hp. rewrite E, <- Hp. now apply in_map.
  - now apply IH.
Qed.

Lemma CreateTask_WellKeyed (up : bool) (task : Task) (s : PostgresStorage) :
  WellKeyed s -> WellKeyed (snd (CreateTask up task s)).
Proof.
  intros [Hid Hpair]. unfold CreateTask.
  destruct (negb up); [split; assumption|]. cbn [orb].
  destruct (has_id (ID task) (tasks s)) eqn:Ei; [split; assumption|].
  cbn [orb].
  destruct (has_pair (ChatID task) (TelegramMessageID task) (tasks s)) eqn:Ep;
    [split; assumption|]. cbn [orb].
  destruct (negb (inInt4 (Attempts task))); [split; assumption|].
  unfold WellKeyed. cbn [snd tasks]. rewrite !map_app. cbn [map]. split.
  - apply NoDup_snoc; [exact Hid|]. intros Hin.
    apply has_id_In in Hin. congruence.
  - apply NoDup_snoc; [exact Hpair|]. intros Hin.
    apply has_pair_In in Hin. congruence.
Qed.

Lemma UpdateTaskStatus_WellKeyed (up : bool) (now : Z) (id : string)
  (status : TaskStatus) (s : PostgresStorage) :
  WellKeyed s -> WellKeyed (snd (UpdateTaskStatus up now id status s)).
Proof.
  intros [Hid Hpair]. unfold UpdateTaskStatus.
  destruct (negb up); [split; assumption|].
  destruct (negb (has_id id (tasks s))); [split; assumption|].
  unfold WellKeyed. cbn [snd tasks]. rewrite !map_map.
  split.
  - erewrite map_ext; [exact Hid|].
    intros r. now destruct (String.eqb (ID r) id).
  - erewrite map_ext; [exact Hpair|].
    intros r. now destruct (String.eqb (ID r) id).
Qed.

(** The pairs after an update that the unique index let through. *)
Lemma updated_pairs_NoDup (now : Z) (task : Task) (rows : list Task) :
  NoDup (map ID rows) ->
  NoDup (map pair_of rows) ->
  has_pair (ChatID task) (TelegramMessageID task)
    (filter (fun r => negb (String.eqb (ID r) (ID task))) rows) = false ->
  NoDup (map pair_of
           (map (fun r => if String.eqb (ID r) (ID task)
                          then updated_row now task r else r) rows)).
Proof.
  induction rows as [|r rows IH]; intros Hid Hpair Hidx; [constructor|].
  cbn [map] in *. apply NoDup_cons_iff in Hid. destruct Hid as [Hr Hid].
  apply NoDup_cons_iff in Hpair. destruct Hpair as [Hp Hpair].
  cbn [filter] in Hidx.
  assert (Helse : forall r', In r' rows ->
                    In (pair_of (if String.eqb (ID r') (ID task)
                                 then updated_row now task r' else r'))
                       [pair_of task; pair_of r']).
  { intros r' _. destruct (String.eqb (ID r') (ID task)); cbn; auto. }
  destruct (String.eqb_spec (ID r) (ID task)) as [Heq|Hne].
  - cbn [negb] in Hidx.
    assert (Hsame : map (fun r0 => if String.eqb (ID r0) (ID task)
                                   then updated_row now task r0 else r0) rows
                    = rows).
    { rewrite <- (map_id rows) at 2. apply map_ext_in. intros r' Hin.
      destruct (String.eqb_spec (ID r') (ID task)) as [E|_]; [|reflexivity].
      exfalso. apply Hr. rewrite Heq, <- E. now apply in_map. }
    assert (Hall : filter (fun r0 => negb (String.eqb (ID r0) (ID task))) rows
                   = rows).
    { apply forallb_filter_id. apply forallb_forall. intros r' Hin.
      destruct (String.eqb_spec (ID r') (ID task)) as [E|_]; [|reflexivity].
      exfalso. apply Hr. rewrite Heq, <- E. now apply in_map. }
    rewrite Hsame. rewrite Hall in Hidx. constructor; [|exact Hpair].
    intros Hin. change (pair_of (updated_row now task r))
      with (ChatID task, TelegramMessageID task) in Hin.
    apply has_pair_In in Hin. congruence.
  - cbn [negb] in Hidx. cbn [has_pair existsb] in Hidx.
    apply orb_false_iff in Hidx. destruct Hidx as [Hrp Hidx].
    constructor; [|now apply IH].
    intros Hin. rewrite map_map in Hin. apply in_map_iff in Hin.
    destruct Hin as (r' & Hpr & Hin').
    destruct (String.eqb (ID r') (ID task)).
    + change (pair_of (updated_row now task r'))
        with (ChatID task, TelegramMessageID task) in Hpr.
      assert (same_pair (ChatID task) (TelegramMessageID task) r = true)
        by (apply same_pair_iff; now symmetry).
      congruence.
    + apply Hp. rewrite <- Hpr. now apply in_map.
Qed.

Lemma UpdateTask_WellKeyed (up : bool) (now : Z) (task : Task)
  (s : PostgresStorage) :
  WellKeyed s -> WellKeyed (snd (UpdateTask up now task s)).
Proof.
  intros [Hid Hpair]. unfold UpdateTask.
  destruct (negb up); [split; assumption|].
  destruct (negb (has_id (ID task) (tasks s))); [split; assumption|].
  destruct (has_pair _ _ _) eqn:Ep; [split; assumption|]. cbn [orb].
  destruct (negb (inInt4 (Attempts task))); [split; assumption|].
  unfold WellKeyed. cbn [snd tasks]. split.
  - rewrite map_map. erewrite map_ext; [exact Hid|].
    intros r. now destruct (String.eqb (ID r) (ID task)).
  - now apply updated_pairs_NoDup.
Qed.

Lemma CreateTranscript_WellKeyed (up : bool) (tr : Transcript)
  (s : PostgresStorage) :
  WellKeyed s -> WellKeyed (snd (CreateTranscript up tr s)).
Proof.
  intros H. unfold CreateTranscript. destruct (_ || _); exact H.
Qed.

Lemma Reachable_WellKeyed (s : PostgresStorage) :
  Reachable s -> WellKeyed s.
Proof.
  induction 1.
  - split; constructor.
  - now apply CreateTask_WellKeyed.
  - now apply UpdateTaskStatus_WellKeyed.
  - now apply UpdateTask_WellKeyed.
  - now apply CreateTranscript_WellKeyed.
Qed.

(** An insert for a pair that has a row is refused. *)
Lemma CreateTask_duplicate (up : bool) (task : Task) (s : PostgresStorage) :
  tasks_of_pair (ChatID task) (TelegramMessageID task) s <> [] ->
  CreateTask up task s = (Some (Errorf "failed to create task"), s).
Proof.
  intros Hne. unfold CreateTask.
  assert (Hp : has_pair (ChatID task) (TelegramMessageID task) (tasks s) = true).
  { unfold tasks_of_pair in Hne.
    destruct (filter _ (tasks s)) as [|r rest] eqn:F; [congruence|].
    assert (Hin : In r (filter (same_pair (ChatID task) (TelegramMessageID task))
                          (tasks s))) by (rewrite F; now left).
    apply filter_In in Hin. unfold has_pair. apply existsb_exists. eauto. }
  rewrite Hp. destruct (negb up), (has_id _ _); reflexivity.
Qed.

End key_facts.

(** ** Ingress *)

Module bot_claims.

Import model storage key_facts bot ingress_examples.
Open Scope string_scope.
Open Scope Z_scope.

(** What [handleVoice] does to the store: nothing, or one [CreateTask]. *)
Lemma handleVoice_db (c : Surroundings) (w : World) :
  db (snd (handleVoice c w)) = db w \/
  exists task,
    isActive c (ChatID task) = true /\
    message c <> None /\
    db (snd (handleVoice c w)) = snd (CreateTask (dbUp c) task (db w)).
Proof.
  unfold handleVoice.
  destruct (message c) as [msg|]; [|left; reflexivity].
  destruct (Message_Voice msg) as [voice|]; [|left; reflexivity].
  destruct (isActive c (Chat_ID msg)) eqn:Ea; [|left; reflexivity].
  cbn [negb Reply db published replies].
  right.
  match goal with
  | |- context [CreateTask _ ?t _] => exists t
  end.
  split; [exact Ea|]. split; [discriminate|].
  destruct (CreateTask _ _ _) as [[e|] db'].
  - reflexivity.
  - cbn [db]. destruct (hasQueue c); [|reflexivity].
    destruct (publishTask c); reflexivity.
Qed.

(** C9.  In every store that the statements of the storage produce from
    the empty tables, a (chat, source message) pair has at most one task
    row, and [handleVoice] keeps it so.  When a voice message of an
    active chat is stored for a pair that had no row, and a message with
    the same pair is submitted again, the pair has exactly one row after
    the first and after the second submission: the store refuses every
    insert for that pair, the second submission changes neither the
    store nor the queue, and it is answered with the error reply. *)
Theorem C9_one_task_per_chat_and_message :
  (forall s : PostgresStorage,
      Reachable s ->
      forall chat msg, (List.length (tasks_of_pair chat msg s) <= 1)%nat) /\
  (forall (c : Surroundings) (w : World),
      Reachable (db w) -> Reachable (db (snd (handleVoice c w)))) /\
  (forall (c1 c2 : Surroundings) (w : World) (m1 m2 : Message) (v1 v2 : Voice),
      Reachable (db w) ->
      message c1 = Some m1 -> Message_Voice m1 = Some v1 ->
      message c2 = Some m2 -> Message_Voice m2 = Some v2 ->
      Chat_ID m2 = Chat_ID m1 -> Message_ID m2 = Message_ID m1 ->
      isActive c1 (Chat_ID m1) = true ->
      dbUp c1 = true ->
      has_id (newUUID c1) (tasks (db w)) = false ->
      tasks_of_pair (Chat_ID m1) (Message_ID m1) (db w) = [] ->
      let w1 := snd (handleVoice c1 w) in
      let w2 := snd (handleVoice c2 w1) in
      List.length (tasks_of_pair (Chat_ID m1) (Message_ID m1) (db w1)) = 1%nat /\
      (forall up task,
          ChatID task = Chat_ID m1 -> TelegramMessageID task = Message_ID m1 ->
          CreateTask up task (db w1) =
          (Some (Errorf "failed to create task"), db w1)) /\
      db w2 = db w1 /\
      published w2 = published w1 /\
      List.length (tasks_of_pair (Chat_ID m1) (Message_ID m1) (db w2)) = 1%nat /\
      (isActive c2 (Chat_ID m2) = true ->
       replies w2 = (replies w1 ++ ["Обработка..."; "Ошибка при сохранении задачи"])%list)).
Proof.
  split; [|split].
  - intros s Hs chat msg. apply NoDup_pairs_at_most_one.
    now destruct (Reachable_WellKeyed s Hs).
  - intros c w Hw. destruct (handleVoice_db c w) as [->|(task & _ & _ & ->)];
      [exact Hw|]. now constructor.
  - intros c1 c2 w m1 m2 v1 v2 Hw Hm1 Hv1 Hm2 Hv2 Hchat Hmsg Hact Hup Hfresh Hnone
           w1 w2.
    assert (Hpair : has_pair (Chat_ID m1) (Message_ID m1) (tasks (db w)) = false).
    { destruct (has_pair _ _ _) eqn:E; [|reflexivity]. exfalso.
      unfold has_pair in E. apply existsb_exists in E.
      destruct E as (r & Hin & Hr).
      assert (Hf : In r (tasks_of_pair (Chat_ID m1) (Message_ID m1) (db w)))
        by (apply filter_In; auto).
      rewrite Hnone in Hf. destruct Hf. }
    assert (Hone : List.length
                     (tasks_of_pair (Chat_ID m1) (Message_ID m1) (db w1)) = 1%nat).
    { subst w1. unfold handleVoice. rewrite Hm1, Hv1, Hact.
      cbn [negb Reply db published replies].
      unfold CreateTask at 1. cbn [ID ChatID TelegramMessageID Attempts].
      rewrite Hup, Hfresh, Hpair. cbn [negb orb inInt4].
      change (negb (inInt4 0)) with false. cbn iota.
      assert (Hlen : forall wq : World,
                 db wq = {| tasks := (tasks (db w) ++
                              [{| ID := newUUID c1;
                                  TelegramMessageID := Message_ID m1;
                                  ChatID := Chat_ID m1;
                                  FileID := Voice_FileID v1;
                                  Status := TaskStatusQueued;
                                  OperationID := None; Attempts := 0;
                                  ErrorText := None;
                                  Meta := [("voice_duration", JInt (Voice_Duration v1));
                                           ("file_size", JInt (Voice_FileSize v1));
                                           ("mime_type", JString (Voice_MIME v1))];
                                  CreatedAt := timeNow c1 0%nat;
                                  UpdatedAt := timeNow c1 1%nat |}])%list;
                            transcripts := transcripts (db w) |} ->
                 List.length (tasks_of_pair (Chat_ID m1) (Message_ID m1) (db wq))
                 = 1%nat).
      { intros wq ->. unfold tasks_of_pair in *. cbn [tasks].
        rewrite filter_app, Hnone. cbn [filter app].
        unfold same_pair. cbn [ChatID TelegramMessageID].
        rewrite !Z.eqb_refl. reflexivity. }
      destruct (hasQueue c1); [destruct (publishTask c1)|];
        apply Hlen; reflexivity. }
    assert (Hdup : forall up task,
               ChatID task = Chat_ID m1 -> TelegramMessageID task = Message_ID m1 ->
               CreateTask up task (db w1) =
               (Some (Errorf "failed to create task"), db w1)).
    { intros up task Hc Hm. apply CreateTask_duplicate. rewrite Hc, Hm.
      intros E. rewrite E in Hone. discriminate. }
    assert (Hrun2 : db w2 = db w1 /\ published w2 = published w1 /\
                    (isActive c2 (Chat_ID m2) = true ->
                     replies w2 = (replies w1 ++ ["Обработка..."; "Ошибка при сохранении задачи"])%list)).
    { subst w2. unfold handleVoice. rewrite Hm2, Hv2.
      destruct (isActive c2 (Chat_ID m2)); cbn [negb];
        [|repeat split; intros; discriminate].
      cbn [Reply db published replies].
      rewrite Hdup by (cbn [ChatID TelegramMessageID]; assumption).
      cbn [Reply db published replies snd].
      repeat split. intros _. rewrite <- app_assoc. reflexivity. }
    destruct Hrun2 as (Hdb & Hpub & Hrep).
    repeat split; auto. rewrite Hdb. exact Hone.
Qed.

Lemma C9_witness :
  let w1 := snd (handleVoice voice1 world0) in
  let w2 := snd (handleVoice voice1_again w1) in
  (List.length (tasks_of_pair 42 7 (db w1)) <= 1)%nat /\
  Reachable (db w1) /\
  List.length (tasks_of_pair 42 7 (db w1)) = 1%nat /\
  db w2 = db w1 /\
  published w2 = published w1 /\
  List.length (tasks_of_pair 42 7 (db w2)) = 1%nat.
Proof.
  intros w1 w2.
  destruct C9_one_task_per_chat_and_message as (Hmost & Hreach & Htwice).
  assert (Hr1 : Reachable (db w1)) by (apply Hreach; constructor).
  split; [apply (Hmost (db w1) Hr1 42 7)|]. split; [exact Hr1|].
  destruct (Htwice voice1 voice1_again world0
              {| Message_ID := 7; Chat_ID := 42;
                 Message_Voice :=
                   Some {| Voice_FileID := "file-123"; Voice_Duration := 3;
                           Voice_FileSize := 1024; Voice_MIME := "audio/ogg" |} |}
              {| Message_ID := 7; Chat_ID := 42;
                 Message_Voice :=
                   Some {| Voice_FileID := "file-123"; Voice_Duration := 3;
                           Voice_FileSize := 1024; Voice_MIME := "audio/ogg" |} |}
              {| Voice_FileID := "file-123"; Voice_Duration := 3;
                 Voice_FileSize := 1024; Voice_MIME := "audio/ogg" |}
              {| Voice_FileID := "file-123"; Voice_Duration := 3;
                 Voice_FileSize := 1024; Voice_MIME := "audio/ogg" |}
              reach_empty eq_refl eq_refl eq_refl eq_refl eq_refl eq_refl
              eq_refl eq_refl eq_refl eq_refl)
    as (H1 & _ & Hdb & Hpub & H2 & _).
  repeat split; assumption.
Defined.

End bot_claims.


(** * Further properties *)

(** ** Circuit breaker *)

Module breaker_extra.

Import resilience resilience_facts examples.
Open Scope Z_scope.

(** What one call of [Execute] does, by the state it finds. *)
Lemma Execute_cases (Env : Type) (cb : CircuitBreaker) (fn : Func Env)
  (m : Machine Env) :
  (state cb = StateOpen /\ Sub (clock m) (lastFailTime cb) <= timeout cb /\
   Execute cb fn m = (Some ErrCircuitOpen, cb, m)) \/
  ((state cb <> StateOpen \/ Sub (clock m) (lastFailTime cb) > timeout cb) /\
   fst (fst (Execute cb fn m)) = fst (call fn m) /\
   snd (Execute cb fn m) = snd (call fn m) /\
   maxFailures (snd (fst (Execute cb fn m))) = maxFailures cb /\
   timeout (snd (fst (Execute cb fn m))) = timeout cb /\
   match fst (call fn m) with
   | None =>
       state (snd (fst (Execute cb fn m))) = StateClosed /\
       failures (snd (fst (Execute cb fn m))) = 0
   | Some _ =>
       let f := wrap32u ((if State_eqb (state cb) StateOpen
                          then 0 else failures cb) + 1) in
       failures (snd (fst (Execute cb fn m))) = f /\
       lastFailTime (snd (fst (Execute cb fn m))) = clock (snd (call fn m)) /\
       state (snd (fst (Execute cb fn m))) =
         (if f >=? maxFailures cb then StateOpen
          else if State_eqb (state cb) StateOpen then StateHalfOpen
               else state cb)
   end).
Proof.
  unfold Execute.
  destruct (state cb) eqn:Hst; cbn [State_eqb].
  - right. split; [left; discriminate|].
    destruct (call fn m) as [[e|] m1]; cbn.
    + destruct (wrap32u (failures cb + 1) >=? maxFailures cb); cbn;
        rewrite ?Hst; auto 10.
    + rewrite Hst. cbn. auto 10.
  - destruct (Z.gtb_spec (Sub (clock m) (lastFailTime cb)) (timeout cb)).
    + right. split; [right; lia|].
      destruct (call fn m) as [[e|] m1]; cbn.
      * change (wrap32u (0 + 1)) with 1.
        destruct (1 >=? maxFailures cb); cbn; auto 10.
      * auto 10.
    + left. auto.
  - right. split; [left; discriminate|].
    destruct (call fn m) as [[e|] m1]; cbn.
    + destruct (wrap32u (failures cb + 1) >=? maxFailures cb); cbn;
        rewrite ?Hst; auto 10.
    + rewrite Hst. cbn. auto 10.
Qed.

(** [Execute] for one caller is the first section, [fn], and the second
    section on the breaker that the first one left. *)
Lemma Execute_sections (Env : Type) (cb : CircuitBreaker) (fn : Func Env)
  (m : Machine Env) :
  Execute cb fn m =
  match Execute_enter (clock m) cb with
  | (Some e, _) => (Some e, cb, m)
  | (None, cb1) =>
      (fst (call fn m), Execute_leave (fst (call fn m))
                          (clock (snd (call fn m))) cb1,
       snd (call fn m))
  end.
Proof.
  unfold Execute, Execute_enter, Execute_leave.
  destruct (State_eqb (state cb) StateOpen).
  - destruct (Sub (clock m) (lastFailTime cb) >? timeout cb);
      [|reflexivity].
    destruct (call fn m) as [[e|] m1]; reflexivity.
  - destruct (call fn m) as [[e|] m1]; reflexivity.
Qed.

Lemma BreakerShared_bounds (maxF cooldown : Z) (n : nat) (cb : CircuitBreaker) :
  BreakerShared maxF cooldown n cb ->
  maxFailures cb = maxF /\ timeout cb = cooldown /\ 0 <= failures cb < 2 ^ 32.
Proof.
  induction 1 as [|n cb cb1 now H IH E|n cb err now H IH|n cb H IH].
  - cbn. lia.
  - destruct IH as (Hm & Ht & Hf). unfold Execute_enter in E.
    destruct (State_eqb (state cb) StateOpen).
    + destruct (Sub now (lastFailTime cb) >? timeout cb); [|discriminate].
      injection E as <-. cbn. lia.
    + injection E as <-. auto.
  - destruct IH as (Hm & Ht & Hf). unfold Execute_leave.
    destruct err as [e|].
    + cbv zeta.
      assert (0 <= wrap32u (failures cb + 1) < 2 ^ 32)
        by (unfold wrap32u; apply Z.mod_pos_bound; lia).
      destruct (_ >=? _); cbn; auto.
    + destruct (State_eqb (state cb) StateHalfOpen); cbn; lia.
  - destruct IH as (Hm & Ht & Hf). cbn. lia.
Qed.

(** Two callers are past the gate of a breaker with threshold 2 that has
    counted one failure; both fail. *)
Lemma shared_three_failures :
  exists cb, BreakerShared 2 100 O cb /\ failures cb = 3 /\ state cb = StateOpen.
Proof.
  pose proof (shared_new 2 100) as H0.
  pose proof (shared_enter 2 100 _ _ _ 0 H0 eq_refl) as H1.
  pose proof (shared_leave 2 100 _ _ (Some (Errorf "error")) 5 H1) as H2.
  pose proof (shared_enter 2 100 _ _ _ 10 H2 eq_refl) as H3.
  pose proof (shared_enter 2 100 _ _ _ 10 H3 eq_refl) as H4.
  pose proof (shared_leave 2 100 _ _ (Some (Errorf "error")) 20 H4) as H5.
  pose proof (shared_leave 2 100 _ _ (Some (Errorf "error")) 30 H5) as H6.
  eexists. split; [exact H6|]. split; reflexivity.
Qed.

(** A caller is past the gate of a closed breaker with threshold 1 when
    another caller's failure opens it; the first caller then succeeds. *)
Lemma shared_open_without_failures :
  exists cb, BreakerShared 1 100 O cb /\ state cb = StateOpen /\ failures cb = 0.
Proof.
  pose proof (shared_new 1 100) as H0.
  pose proof (shared_enter 1 100 _ _ _ 10 H0 eq_refl) as H1.
  pose proof (shared_enter 1 100 _ _ _ 10 H1 eq_refl) as H2.
  pose proof (shared_leave 1 100 _ _ (Some (Errorf "error")) 20 H2) as H3.
  pose proof (shared_leave 1 100 _ _ None 30 H3) as H4.
  eexists. split; [exact H4|]. split; reflexivity.
Qed.

Lemma Reachable_Shared (maxF cooldown : Z) (cb : CircuitBreaker) :
  BreakerReachable maxF cooldown cb -> BreakerShared maxF cooldown O cb.
Proof.
  induction 1 as [|Env cb fn m H IH|cb H IH].
  - constructor.
  - rewrite Execute_sections.
    destruct (Execute_enter (clock m) cb) as [[e|] cb1] eqn:E; [exact IH|].
    cbn [fst snd]. apply shared_leave.
    exact (shared_enter maxF cooldown O cb cb1 (clock m) IH E).
  - now constructor.
Qed.

(** A call of [Execute] that no other call overlaps and that returns
    [nil]. *)
Lemma Execute_nil_alone (Env : Type) (cb : CircuitBreaker) (fn : Func Env)
  (m : Machine Env) :
  fst (fst (Execute cb fn m)) = None ->
  invocations (snd (Execute cb fn m)) = (clock m, None) :: invocations m /\
  state (snd (fst (Execute cb fn m))) = StateClosed /\
  failures (snd (fst (Execute cb fn m))) = 0.
Proof.
  intros Hnil.
  destruct (Execute_cases Env cb fn m) as [(_ & _ & E)|(_ & Hr & Hm & _ & _ & Hc)].
  - rewrite E in Hnil. discriminate.
  - rewrite Hr in Hnil. rewrite Hm, Hnil in *.
    split; [|exact Hc].
    pose proof (retry_facts.call_invocations fn m) as Hi.
    rewrite Hnil in Hi. exact Hi.
Qed.



(** X2.  [Execute] invokes the protected function at most once.  It does
    not invoke it exactly when the breaker is open and no more than
    [timeout] has passed since the last failure; otherwise it invokes it
    once and returns what the function returned, unchanged. *)
Theorem Execute_passes_the_result :
  forall (Env : Type) (cb : CircuitBreaker) (fn : Func Env) (m : Machine Env),
    (state cb = StateOpen /\ Sub (clock m) (lastFailTime cb) <= timeout cb ->
     Execute cb fn m = (Some ErrCircuitOpen, cb, m)) /\
    (state cb <> StateOpen \/ Sub (clock m) (lastFailTime cb) > timeout cb ->
     fst (fst (Execute cb fn m)) = fst (fst (fn (clock m) (captured m))) /\
     invocations (snd (Execute cb fn m)) =
       (clock m, fst (fst (fn (clock m) (captured m)))) :: invocations m /\
     captured (snd (Execute cb fn m)) = snd (fst (fn (clock m) (captured m)))).
Proof.
  intros Env cb fn m. split.
  - intros [Hst Hin]. now apply Execute_open_fails_fast.
  - intros Hpass.
    destruct (Execute_cases Env cb fn m) as [(Hst & Hin & _)|(_ & Hr & Hm & _)].
    + destruct Hpass as [Hp|Hp]; [congruence|lia].
    + rewrite Hr, Hm, retry_facts.call_invocations, retry_facts.call_captured,
        retry_facts.call_result. auto.
Qed.

Lemma Execute_passes_the_result_witness :
  fst (fst (Execute (NewCircuitBreaker 3 100) failing m0)) = Some (Errorf "error") /\
  Execute (snd (fst (Execute (NewCircuitBreaker 1 100) failing m0))) succeeding
    (snd (Execute (NewCircuitBreaker 1 100) failing m0)) =
  (Some ErrCircuitOpen, snd (fst (Execute (NewCircuitBreaker 1 100) failing m0)),
   snd (Execute (NewCircuitBreaker 1 100) failing m0)).
Proof.
  split.
  - destruct (Execute_passes_the_result nat (NewCircuitBreaker 3 100) failing m0)
      as [_ H].
    destruct H as (Hr & _); [left; simpl; discriminate|exact Hr].
  - destruct (Execute_passes_the_result nat
                (snd (fst (Execute (NewCircuitBreaker 1 100) failing m0)))
                succeeding (snd (Execute (NewCircuitBreaker 1 100) failing m0)))
      as [H _].
    apply H. split; [reflexivity|vm_compute; discriminate].
Defined.

(** The invariant of a breaker that one caller at a time uses. *)
Lemma breaker_invariant_alone (maxF cooldown : Z) (cb : CircuitBreaker) :
  1 <= maxF < 2 ^ 32 ->
  BreakerReachable maxF cooldown cb ->
  maxFailures cb = maxF /\ timeout cb = cooldown /\
  0 <= failures cb <= maxF /\
  (state cb = StateOpen <-> failures cb = maxF).
Proof.
  intros Hmax H.
  induction H as [|Env cb fn m H IH|cb H IH].
  - cbn. repeat split; try lia; try discriminate.
  - destruct IH as (Hm & Ht & Hf & Hopen).
    destruct (Execute_cases Env cb fn m)
      as [(_ & _ & E)|(_ & _ & _ & Em & Et & Hc)].
    + rewrite E. cbn. auto.
    + rewrite Em, Et. split; [exact Hm|]. split; [exact Ht|].
      destruct (fst (call fn m)).
      * cbv zeta in Hc. destruct Hc as (Ef & _ & Es). rewrite Ef, Es, Hm.
        destruct (state cb) eqn:Hst; cbn [State_eqb] in *.
        -- assert (failures cb < maxF).
           { destruct (Z.eq_dec (failures cb) maxF) as [E|E]; [|lia].
             apply Hopen in E. discriminate. }
           rewrite wrap32u_id by lia.
           destruct (Z.geb_spec (failures cb + 1) maxF); split; try lia;
             split; try discriminate; try lia; auto.
        -- change (wrap32u (0 + 1)) with 1.
           destruct (Z.geb_spec 1 maxF); split; try lia;
             split; try discriminate; try lia; auto.
        -- assert (failures cb < maxF).
           { destruct (Z.eq_dec (failures cb) maxF) as [E|E]; [|lia].
             apply Hopen in E. discriminate. }
           rewrite wrap32u_id by lia.
           destruct (Z.geb_spec (failures cb + 1) maxF); split; try lia;
             split; try discriminate; try lia; auto.
      * destruct Hc as [Es Ef]. rewrite Es, Ef.
        split; [lia|]. split; [discriminate|lia].
  - destruct IH as (Hm & Ht & Hf & Hopen). cbn.
    repeat split; try assumption; try lia; try discriminate.
Qed.



End breaker_extra.


(** ** Retry with exponential backoff *)

Module retry_extra.

Import resilience retry_facts examples.
Open Scope Z_scope.

Section Bounds.

Context {Env float64 : Type}.
Variable scaleDuration : Z -> float64 -> Z.
Variable ctx : Context.
Variable config : RetryConfig float64.
Variable fn : Func Env.

(** The invocations of a run of the loop: at most one per round, every
    one but the latest failed, and the result is [nil] exactly when the
    latest succeeded (or none was made and [lastErr] was [nil]). *)
Lemma retryLoop_invocations (n : nat) :
  forall (attempt interval : Z) (lastErr : option error) (m : Machine Env),
    let r := retryLoop scaleDuration ctx config fn n attempt interval lastErr m in
    exists new,
      invocations (snd r) = (new ++ invocations m)%list /\
      (List.length new <= n)%nat /\
      Z.of_nat (List.length new) <= Z.max 0 (MaxAttempts config - attempt) /\
      Forall (fun x => snd x <> None) (tl new) /\
      (forall t e rest, new = (t, e) :: rest -> e = None -> fst r = None) /\
      (fst r = None ->
       (new = [] /\ lastErr = None) \/ exists t rest, new = (t, None) :: rest).
Proof.
  induction n as [|n IH]; intros attempt interval lastErr m; cbv zeta.
  - cbn [retryLoop]. exists []. cbn.
    repeat split; try lia; try constructor; try discriminate. auto.
  - destruct (Z.ltb_spec attempt (MaxAttempts config)) as [Hlt|Hge].
    + rewrite retryLoop_step by exact Hlt.
      destruct (isDone ctx (clock m)).
      * exists []. cbn. repeat split; try lia; try constructor; discriminate.
      * pose proof (call_invocations fn m) as Hinv.
        destruct (fst (call fn m)) as [e|] eqn:He.
        -- assert (Hboth : forall i m1,
                     invocations m1 = invocations (snd (call fn m)) ->
                     let r := retryLoop scaleDuration ctx config fn n (attempt + 1)
                                i (Some e) m1 in
                     exists new,
                       invocations (snd r) = (new ++ invocations m)%list /\
                       (List.length new <= S n)%nat /\
                       Z.of_nat (List.length new)
                         <= Z.max 0 (MaxAttempts config - attempt) /\
                       Forall (fun x => snd x <> None) (tl new) /\
                       (forall t e0 rest, new = (t, e0) :: rest -> e0 = None ->
                                          fst r = None) /\
                       (fst r = None ->
                        (new = [] /\ lastErr = None) \/
                        exists t rest, new = (t, None) :: rest)).
           { intros i m1 Hi. cbv zeta.
             destruct (IH (attempt + 1) i (Some e) m1)
               as (new & Hn & Hl & Hz & Hall & Hlast & Hnil).
             exists (new ++ [(clock m, Some e)])%list.
             rewrite Hn, Hi, Hinv, <- app_assoc.
             split; [reflexivity|]. rewrite length_app. cbn [List.length].
             split; [lia|]. split; [lia|]. split; [|split].
             - destruct new as [|x new']; [constructor|].
               cbn [tl app] in *. apply Forall_app. split; [exact Hall|].
               repeat constructor. discriminate.
             - intros t e0 rest Hnew He0. destruct new as [|x new'].
               + cbn in Hnew. injection Hnew as _ Hx _. congruence.
               + cbn in Hnew. injection Hnew as Hx _. subst x.
                 eapply Hlast; [reflexivity|exact He0].
             - intros Hr. right. destruct (Hnil Hr) as [[_ Hd]|(t & rest & ->)];
                 [discriminate|].
               exists t, (rest ++ [(clock m, Some e)])%list. reflexivity. }
           destruct (attempt <? wrap64 (MaxAttempts config - 1));
             apply Hboth; reflexivity.
        -- exists [(clock m, None)]. cbn [fst snd]. rewrite Hinv.
           cbn [List.length tl app].
           split; [reflexivity|]. split; [lia|]. split; [lia|].
           split; [constructor|]. split; [reflexivity|].
           intros _. right. eauto.
    + cbn [retryLoop]. destruct (Z.ltb_spec attempt (MaxAttempts config)); [lia|].
      exists []. cbn. repeat split; try lia; try constructor; try discriminate.
      auto.
Qed.

Lemma call_Instant (m : Machine Env) :
  Instant fn -> clock (snd (call fn m)) = clock m.
Proof.
  intros Hi. unfold call. specialize (Hi (clock m) (captured m)).
  destruct (fn (clock m) (captured m)) as [[e env'] d]. cbn in *. lia.
Qed.

Lemma retryLoop_clock (n : nat) :
  Instant fn ->
  MaxAttempts config <= maxInt64 ->
  forall (attempt interval : Z) (lastErr : option error) (m : Machine Env),
    0 <= attempt ->
    let r := retryLoop scaleDuration ctx config fn n attempt interval lastErr m in
    clock m <= clock (snd r)
      <= clock m + waitBound (MaxInterval config) (MaxAttempts config - 1 - attempt) interval.
Proof.
  intros Hi Hmax. induction n as [|n IH];
    intros attempt interval lastErr m Ha; cbv zeta.
  - cbn [retryLoop snd]. unfold waitBound.
    destruct (Z.leb_spec (MaxAttempts config - 1 - attempt) 0); nia.
  - destruct (Z.ltb_spec attempt (MaxAttempts config)) as [Hlt|Hge].
    + rewrite retryLoop_step by exact Hlt.
      assert (H0 : 0 <= waitBound (MaxInterval config) (MaxAttempts config - 1 - attempt) interval).
      { unfold waitBound.
        destruct (Z.leb_spec (MaxAttempts config - 1 - attempt) 0); nia. }
      destruct (isDone ctx (clock m)); [cbn [snd]; lia|].
      pose proof (call_Instant m Hi) as Hc.
      destruct (fst (call fn m)) as [e|]; [|cbn [snd]; lia].
      rewrite wrap64_id by (unfold minInt64, maxInt64 in *; lia).
      destruct (Z.ltb_spec attempt (MaxAttempts config - 1)) as [Hs|Hs].
      * set (i2 := let i1 := scaleDuration interval (Multiplier config) in
                   if i1 >? MaxInterval config then MaxInterval config else i1).
        assert (Hi2 : i2 <= MaxInterval config).
        { subst i2. cbv zeta.
          destruct (Z.gtb_spec (scaleDuration interval (Multiplier config))
                      (MaxInterval config)); lia. }
        specialize (IH (attempt + 1) i2 (Some e)
                      (Sleep interval (snd (call fn m))) ltac:(lia)).
        cbv zeta in IH. cbn [Sleep clock] in IH. rewrite Hc in IH.
        unfold waitBound in *.
        destruct (Z.leb_spec (MaxAttempts config - 1 - attempt) 0); [lia|].
        destruct (Z.leb_spec (MaxAttempts config - 1 - (attempt + 1)) 0); nia.
      * specialize (IH (attempt + 1) interval (Some e) (snd (call fn m))
                      ltac:(lia)).
        cbv zeta in IH. rewrite Hc in IH. unfold waitBound in *.
        destruct (Z.leb_spec (MaxAttempts config - 1 - attempt) 0); [|lia].
        destruct (Z.leb_spec (MaxAttempts config - 1 - (attempt + 1)) 0); lia.
    + cbn [retryLoop]. destruct (Z.ltb_spec attempt (MaxAttempts config)); [lia|].
      cbn [snd]. unfold waitBound.
      destruct (Z.leb_spec (MaxAttempts config - 1 - attempt) 0); nia.
Qed.

End Bounds.

(** X4.  [RetryWithExponentialBackoff] invokes the operation at most
    [MaxAttempts] times and never again after an invocation that
    succeeded; it returns [nil] exactly when [MaxAttempts <= 0] or its
    latest invocation succeeded; and when it makes no invocation although
    [MaxAttempts >= 1], it returns the cancellation reason. *)
Theorem Retry_invocations :
  forall (Env float64 : Type) (scaleDuration : Z -> float64 -> Z)
         (ctx : Context) (config : RetryConfig float64) (fn : Func Env)
         (m : Machine Env),
    let r := RetryWithExponentialBackoff scaleDuration ctx config fn m in
    exists new,
      invocations (snd r) = (new ++ invocations m)%list /\
      Z.of_nat (List.length new) <= Z.max 0 (MaxAttempts config) /\
      Forall (fun x => snd x <> None) (tl new) /\
      (fst r = None <->
       MaxAttempts config <= 0 \/ exists t rest, new = (t, None) :: rest) /\
      (1 <= MaxAttempts config -> new = [] -> fst r = Some (reason ctx)).
Proof.
  intros Env float64 scaleDuration ctx config fn m r.
  destruct (retryLoop_invocations scaleDuration ctx config fn
              (Z.to_nat (MaxAttempts config)) 0 (InitialInterval config) None m)
    as (new & Hn & _ & Hz & Hall & Hlast & Hnil).
  fold (RetryWithExponentialBackoff scaleDuration ctx config fn m) in *.
  fold r in Hn, Hlast, Hnil.
  assert (Hempty : 1 <= MaxAttempts config -> new = [] ->
                   fst r = Some (reason ctx)).
  { intros Hmax ->. cbn [app] in Hn. subst r.
    unfold RetryWithExponentialBackoff in *.
    destruct (Z.to_nat (MaxAttempts config)) as [|n] eqn:Hfuel; [lia|].
    rewrite retryLoop_step in * by lia.
    destruct (isDone ctx (clock m)); [reflexivity|]. exfalso.
    pose proof (call_invocations fn m) as Hinv.
    destruct (fst (call fn m)) as [e|].
    - assert (Hgrow : forall i m1,
                 invocations m1 = invocations (snd (call fn m)) ->
                 invocations
                   (snd (retryLoop scaleDuration ctx config fn n (0 + 1) i
                           (Some e) m1)) <> invocations m).
      { intros i m1 Hi Heq.
        destruct (retryLoop_invocations scaleDuration ctx config fn n (0 + 1) i
                    (Some e) m1) as (new' & Hn' & _).
        rewrite Heq, Hi, Hinv in Hn'.
        apply (f_equal (@List.length _)) in Hn'.
        rewrite length_app in Hn'. cbn [List.length] in Hn'. lia. }
      destruct (0 <? wrap64 (MaxAttempts config - 1));
        eapply Hgrow; try exact Hn; reflexivity.
    - cbn [snd] in Hn. rewrite Hinv in Hn.
      apply (f_equal (@List.length _)) in Hn. cbn [List.length] in Hn. lia. }
  exists new. split; [exact Hn|]. split; [lia|]. split; [exact Hall|].
  split; [split|exact Hempty].
  - intros Hr. destruct (Hnil Hr) as [[Hnew _]|H]; [|now right].
    destruct (Z.le_gt_cases (MaxAttempts config) 0) as [Hle|Hgt]; [now left|].
    rewrite (Hempty ltac:(lia) Hnew) in Hr. discriminate.
  - intros [Hle|(t & rest & Hnew)].
    + subst r. unfold RetryWithExponentialBackoff.
      replace (Z.to_nat (MaxAttempts config)) with O by lia. reflexivity.
    + eapply Hlast; [exact Hnew|reflexivity].
Qed.

(** X5.  When the operation itself takes no time, the call lasts no
    longer than its backoff waits: nothing with [MaxAttempts <= 1] (there
    is no wait after the last attempt), and with [MaxAttempts >= 2] at
    most [InitialInterval] for the first wait plus [MaxInterval] for each
    of the [MaxAttempts - 2] later ones. *)
Theorem Retry_waits_bounded :
  forall (Env float64 : Type) (scaleDuration : Z -> float64 -> Z)
         (ctx : Context) (config : RetryConfig float64) (fn : Func Env)
         (m : Machine Env),
    Instant fn ->
    MaxAttempts config <= maxInt64 ->
    let r := RetryWithExponentialBackoff scaleDuration ctx config fn m in
    clock m <= clock (snd r) /\
    (MaxAttempts config <= 1 -> clock (snd r) = clock m) /\
    (2 <= MaxAttempts config ->
     clock (snd r) <= clock m + Z.max 0 (InitialInterval config)
                      + (MaxAttempts config - 2) * Z.max 0 (MaxInterval config)).
Proof.
  intros Env float64 scaleDuration ctx config fn m Hi Hmax r.
  pose proof (retryLoop_clock scaleDuration ctx config fn
                (Z.to_nat (MaxAttempts config)) Hi Hmax 0
                (InitialInterval config) None m ltac:(lia)) as H.
  cbv zeta in H.
  fold (RetryWithExponentialBackoff scaleDuration ctx config fn m) in H.
  fold r in H. unfold waitBound in H.
  destruct (Z.leb_spec (MaxAttempts config - 1 - 0) 0); repeat split; lia.
Qed.

Lemma Retry_waits_bounded_witness :
  let r := RetryWithExponentialBackoff scaleZ Background config3 failing m0 in
  0 <= clock (snd r) <= 0 + 100 + (3 - 2) * 1000.
Proof.
  intros r.
  destruct (Retry_waits_bounded nat Z scaleZ Background config3 failing m0)
    as (Hlo & _ & Hhi).
  - intros t env. simpl. lia.
  - vm_compute. discriminate.
  - fold r in Hlo, Hhi. split; [exact Hlo|]. apply Hhi. simpl. lia.
Defined.

End retry_extra.

Module limiter_extra.
Import resilience limiter_claims.

Lemma Wait_step (pick : nat -> bool) (ctx : Context) (n round : nat)
  (rl : RateLimiter) (now : Z) :
  Wait pick ctx (S n) round rl now =
  match Allow rl now with
  | None => Panicked
  | Some (true, rl') => Returned None rl' now
  | Some (false, rl') =>
      let '(done, t) :=
        selectDoneOrAfter (pick round) ctx (interval rl') now in
      if done then Returned (Some (reason ctx)) rl' t
      else Wait pick ctx n (S round) rl' t
  end.
Proof. reflexivity. Qed.

Lemma select_not_done (b : bool) (ctx : Context) (d now : Z) :
  0 <= d -> isDone ctx (now + d) = false ->
  selectDoneOrAfter b ctx d now = (false, now + d).
Proof.
  unfold isDone, selectDoneOrAfter. intros Hd H.
  destruct (doneAt ctx) as [c|]; cbv zeta.
  - destruct (Z.leb_spec c (now + d)); [discriminate|].
    destruct (Z.ltb_spec (Z.max now c) (now + Z.max 0 d)); [lia|].
    destruct (Z.eqb_spec (Z.max now c) (now + Z.max 0 d)); [lia|].
    f_equal. lia.
  - f_equal. lia.
Qed.

Lemma select_done (b : bool) (ctx : Context) (d now c : Z) :
  0 < d -> doneAt ctx = Some c -> c < now + d ->
  selectDoneOrAfter b ctx d now = (true, Z.max now c).
Proof.
  unfold selectDoneOrAfter. intros Hd -> H. cbv zeta.
  destruct (Z.ltb_spec (Z.max now c) (now + Z.max 0 d)); [reflexivity|lia].
Qed.

(** X6.  A token that is there is handed out at once, whatever the
    context: with a positive interval and a count that does not overflow,
    [Wait] on a limiter with a token available returns nil at the instant
    of the call, also when the context is already done, and takes exactly
    one token. *)
Theorem Wait_takes_an_available_token :
  forall (pick : nat -> bool) (ctx : Context) (n round : nat)
         (rl : RateLimiter) (now : Z),
    0 < interval rl ->
    0 <= tokens rl ->
    tokens rl + Z.max 0 (Z.quot (Sub now (lastTime rl)) (interval rl))
      <= maxInt64 ->
    0 < available rl now ->
    exists rl',
      Wait pick ctx (S n) round rl now = Returned None rl' now /\
      tokens rl' = available rl now - 1 /\
      rate rl' = rate rl /\ interval rl' = interval rl.
Proof.
  intros pick ctx n round rl now Hi Ht Hov Hav.
  rewrite Wait_step, (Allow_rule rl now Hi Ht Hov).
  destruct (Z.gtb_spec (available rl now) 0) as [_|]; [|lia].
  eexists. split; [reflexivity|]. cbn. auto.
Qed.

Lemma Wait_takes_an_available_token_witness :
  exists rl',
    Wait (fun _ => true) {| doneAt := Some 0; reason := Canceled |}
         1 0 (NewRateLimiter 2 100 0) 7 = Returned None rl' 7 /\
    tokens rl' = 1 /\ rate rl' = 2 /\ interval rl' = 100.
Proof.
  exact (Wait_takes_an_available_token (fun _ => true)
           {| doneAt := Some 0; reason := Canceled |} 0 0
           (NewRateLimiter 2 100 0) 7
           eq_refl ltac:(discriminate) ltac:(discriminate) eq_refl).
Defined.

(** X7.  An empty limiter makes the caller wait one interval, no more:
    with a capacity of at least one, a positive interval, no token left
    and less than one interval elapsed since the last replenishment, a
    context that is not done by [now + interval] and enough time range,
    [Wait] returns nil at [now + interval], after two acquisition
    attempts, leaving [min rate k - 1] tokens where [k] is the number of
    whole intervals elapsed by then. *)
Theorem Wait_empty_returns_after_one_interval :
  forall (pick : nat -> bool) (ctx : Context) (n round : nat)
         (rl : RateLimiter) (now : Z),
    1 <= rate rl ->
    0 < interval rl ->
    tokens rl = 0 ->
    lastTime rl <= now < lastTime rl + interval rl ->
    now + interval rl - lastTime rl <= maxInt64 ->
    isDone ctx (now + interval rl) = false ->
    exists rl',
      Wait pick ctx (S (S n)) round rl now
      = Returned None rl' (now + interval rl) /\
      Wait pick ctx 1 round rl now = Unfinished /\
      tokens rl' = 0 /\
      lastTime rl' = now + interval rl /\
      rate rl' = rate rl /\ interval rl' = interval rl.
Proof.
  intros pick ctx n round rl now Hr Hi Ht Hl Hov Hd.
  assert (Hs : Sub now (lastTime rl) = now - lastTime rl)
    by (apply Sub_exact; unfold minInt64, maxInt64 in *; lia).
  assert (Hq : Z.quot (now - lastTime rl) (interval rl) = 0)
    by (apply Z.quot_small; lia).
  assert (Ha : Allow rl now = Some (false, rl)).
  { rewrite (Allow_rule rl now Hi) by (rewrite ?Hs, ?Hq; unfold maxInt64; lia).
    unfold available. rewrite Hs, Hq, Ht. cbn. destruct rl; cbn in *.
    subst. reflexivity. }
  set (t := now + interval rl).
  assert (Hs2 : Sub t (lastTime rl) = t - lastTime rl)
    by (apply Sub_exact; unfold t, minInt64, maxInt64 in *; lia).
  assert (Hq2 : Z.quot (t - lastTime rl) (interval rl) = 1).
  { unfold t. replace (now + interval rl - lastTime rl)
      with (now - lastTime rl + 1 * interval rl) by lia.
    rewrite Z.quot_add; [rewrite Hq; reflexivity|lia|].
    rewrite Z.mul_1_l.
    assert (0 <= (now - lastTime rl + interval rl) * (now - lastTime rl)) by nia.
    lia. }
  assert (Hw1 : forall k, Wait pick ctx (S k) round rl now
                          = Wait pick ctx k (S round) rl t).
  { intros k. rewrite Wait_step, Ha.
    rewrite (select_not_done _ ctx (interval rl) now) by (lia || exact Hd).
    reflexivity. }
  eexists. split; [|split].
  - rewrite Hw1, Wait_step.
    rewrite (Allow_rule rl t Hi) by (rewrite ?Hs2, ?Hq2; unfold maxInt64; lia).
    unfold available. rewrite Hs2, Hq2, Ht. cbn [Z.gtb Z.compare].
    replace (Z.min (rate rl) (0 + 1)) with 1 by lia.
    cbn [Z.gtb Z.compare]. reflexivity.
  - rewrite Hw1. reflexivity.
  - cbn. auto.
Qed.

Lemma Wait_empty_returns_after_one_interval_witness :
  exists rl',
    Wait (fun _ => true) Background 2 0
         {| rate := 1; interval := 100; tokens := 0; lastTime := 0 |} 5
    = Returned None rl' 105 /\
    Wait (fun _ => true) Background 1 0
         {| rate := 1; interval := 100; tokens := 0; lastTime := 0 |} 5
    = Unfinished /\
    tokens rl' = 0 /\ lastTime rl' = 105 /\ rate rl' = 1 /\ interval rl' = 100.
Proof.
  exact (Wait_empty_returns_after_one_interval (fun _ => true) Background 0 0
           {| rate := 1; interval := 100; tokens := 0; lastTime := 0 |} 5
           ltac:(cbn; lia) eq_refl eq_refl ltac:(cbn; lia)
           ltac:(discriminate) eq_refl).
Defined.

(** X8.  The wait of [Wait] is interrupted by the context: on an empty
    limiter (no token, less than one interval elapsed), a context that
    becomes done at [c], before the interval is over, makes [Wait] return
    the context's error at [max now c], the instant at which the signal
    can be seen, and not at the end of the interval; the limiter is left
    as it was. *)
Theorem Wait_is_interrupted_by_the_context :
  forall (pick : nat -> bool) (ctx : Context) (n round : nat)
         (rl : RateLimiter) (now c : Z),
    0 < interval rl ->
    tokens rl = 0 ->
    lastTime rl <= now < lastTime rl + interval rl ->
    doneAt ctx = Some c ->
    c < now + interval rl ->
    Wait pick ctx (S n) round rl now
    = Returned (Some (reason ctx)) rl (Z.max now c).
Proof.
  intros pick ctx n round rl now c Hi Ht Hl Hc Hlt.
  assert (Hq : Z.quot (Sub now (lastTime rl)) (interval rl) = 0)
    by (apply Z.quot_small; unfold Sub, minInt64, maxInt64; lia).
  rewrite Wait_step.
  rewrite (Allow_rule rl now Hi) by (rewrite ?Hq; unfold maxInt64; lia).
  unfold available. rewrite Hq, Ht. cbn [Z.gtb Z.compare].
  replace {| rate := rate rl; interval := interval rl; tokens := 0;
             lastTime := lastTime rl |} with rl
    by (destruct rl; cbn in *; subst; reflexivity).
  rewrite (select_done _ ctx (interval rl) now c Hi Hc Hlt). reflexivity.
Qed.

Lemma Wait_is_interrupted_by_the_context_witness :
  Wait (fun _ => false) {| doneAt := Some 50; reason := DeadlineExceeded |}
       1 0 {| rate := 1; interval := 1000; tokens := 0; lastTime := 0 |} 5
  = Returned (Some DeadlineExceeded)
      {| rate := 1; interval := 1000; tokens := 0; lastTime := 0 |} 50.
Proof.
  exact (Wait_is_interrupted_by_the_context (fun _ => false)
           {| doneAt := Some 50; reason := DeadlineExceeded |} 0 0
           {| rate := 1; interval := 1000; tokens := 0; lastTime := 0 |} 5 50
           eq_refl eq_refl ltac:(cbn; lia) eq_refl eq_refl).
Defined.

Lemma Wait_never_grants (pick : nat -> bool) (ctx : Context) (n : nat) :
  forall (round : nat) (rl : RateLimiter) (now : Z),
    rate rl <= 0 -> tokens rl <= rate rl ->
    match Wait pick ctx n round rl now with
    | Returned None _ _ => False
    | Returned (Some e) rl' t =>
        e = reason ctx /\ isDone ctx t = true /\ now <= t /\
        rate rl' = rate rl /\ tokens rl' <= rate rl'
    | Panicked => interval rl = 0
    | Unfinished => True
    end.
Proof.
  induction n as [|n IH]; intros round rl now Hr Ht; [exact I|].
  rewrite Wait_step.
  destruct (Allow rl now) as [[b rl1]|] eqn:Ha.
  - destruct (Allow_capacity rl rl1 now b Ht Ha) as (Hr1 & Hi1 & Ht1).
    assert (b = false) as ->.
    { revert Ha. unfold Allow.
      destruct (interval rl =? 0); [discriminate|]. cbv zeta.
      match goal with
      | |- context [if tokens ?x >? 0 then _ else _] =>
          destruct (Z.gtb_spec (tokens x) 0) as [Hp|Hp]
      end; intros Ha; injection Ha as <- Hrl; [|reflexivity].
      exfalso. subst rl1. cbn in *.
      match type of Hp with
      | 0 < tokens (if ?c then _ else _) =>
          destruct c; cbn in Hp;
          [match type of Hp with
           | 0 < (if ?d then _ else _) => destruct (Z.gtb_spec
               (wrap64 (tokens rl + wrap64 (Z.quot (Sub now (lastTime rl)) (interval rl)))) (rate rl)); lia
           end | lia]
      end. }
    unfold selectDoneOrAfter.
    destruct (doneAt ctx) as [c|] eqn:Hc; cbv zeta.
    + destruct (Z.ltb_spec (Z.max now c) (now + Z.max 0 (interval rl1))).
      * unfold isDone. rewrite Hc.
        repeat split; try lia; try (apply Z.leb_le; lia).
      * destruct (Z.eqb_spec (Z.max now c) (now + Z.max 0 (interval rl1))).
        -- destruct (pick round).
           ++ unfold isDone. rewrite Hc.
              repeat split; try lia; try (apply Z.leb_le; lia).
           ++ specialize (IH (S round) rl1 (now + Z.max 0 (interval rl1))
                             ltac:(lia) Ht1).
              destruct (Wait pick ctx n (S round) rl1 _) as [[e'|] rl2 t| |];
                [|exact IH|rewrite <- Hi1; exact IH|exact I].
              destruct IH as (? & ? & ? & ? & ?). repeat split; try lia; auto.
        -- specialize (IH (S round) rl1 (now + Z.max 0 (interval rl1))
                             ltac:(lia) Ht1).
           destruct (Wait pick ctx n (S round) rl1 _) as [[e'|] rl2 t| |];
             [|exact IH|rewrite <- Hi1; exact IH|exact I].
           destruct IH as (? & ? & ? & ? & ?). repeat split; try lia; auto.
    + specialize (IH (S round) rl1 (now + Z.max 0 (interval rl1))
                     ltac:(lia) Ht1).
      destruct (Wait pick ctx n (S round) rl1 _) as [[e'|] rl2 t| |];
        [|exact IH|rewrite <- Hi1; exact IH|exact I].
      destruct IH as (? & ? & ? & ? & ?). repeat split; try lia; auto.
  - unfold Allow in Ha. destruct (Z.eqb_spec (interval rl) 0); [assumption|].
    cbv zeta in Ha.
    match type of Ha with
    | (if ?c then _ else _) = None => destruct c; discriminate
    end.
Qed.

(** X9.  A limiter made with a capacity of zero or less never admits:
    every [Allow] refuses, [Wait] never returns nil, it can only end with
    the context's error once the context is done, and with a context that
    is never done (and a non-zero interval) it loops for ever: no number
    of rounds is enough. *)
Theorem Wait_without_capacity_never_returns_nil :
  forall (pick : nat -> bool) (ctx : Context) (n round : nat)
         (r i created now : Z),
    r <= 0 ->
    i <> 0 ->
    let rl := NewRateLimiter r i created in
    (exists rl', Allow rl now = Some (false, rl')) /\
    (forall rl' t, Wait pick ctx n round rl now <> Returned None rl' t) /\
    (forall e rl' t, Wait pick ctx n round rl now = Returned (Some e) rl' t ->
                     e = reason ctx /\ isDone ctx t = true) /\
    (doneAt ctx = None -> Wait pick ctx n round rl now = Unfinished).
Proof.
  intros pick ctx n round r i created now Hr Hi rl.
  pose proof (Wait_never_grants pick ctx n round rl now Hr (Z.le_refl _)) as H.
  pose proof (Wait_never_grants pick ctx 1 round rl now Hr (Z.le_refl _)) as H1.
  split; [|split; [|split]].
  - rewrite Wait_step in H1.
    destruct (Allow rl now) as [[[|] rl1]|]; [contradiction| |contradiction].
    eexists; reflexivity.
  - intros rl' t E. rewrite E in H. exact H.
  - intros e rl' t E. rewrite E in H. tauto.
  - intros Hd.
    destruct (Wait pick ctx n round rl now) as [[e'|] rl2 t| |];
      [|contradiction|contradiction|reflexivity].
    destruct H as (_ & Hdone & _). unfold isDone in Hdone.
    rewrite Hd in Hdone. discriminate.
Qed.

Lemma Wait_without_capacity_never_returns_nil_witness :
  Wait (fun _ => true) Background 50 0 (NewRateLimiter 0 100 0) 1000
  = Unfinished.
Proof.
  exact (proj2 (proj2 (proj2
           (Wait_without_capacity_never_returns_nil (fun _ => true) Background
              50 0 0 100 0 1000 ltac:(discriminate) ltac:(discriminate))))
           eq_refl).
Defined.

Lemma Allows_first_interval (i created : Z) (ts : list Z) :
  0 < i ->
  Forall (fun t => created <= t < created + i) ts ->
  forall (r m : Z),
    0 <= m <= maxInt64 ->
    Allows ts {| rate := r; interval := i; tokens := m; lastTime := created |}
    = Some (map (fun k => Z.of_nat k <? m) (seq 0 (List.length ts)),
            {| rate := r; interval := i;
               tokens := Z.max 0 (m - Z.of_nat (List.length ts));
               lastTime := created |}).
Proof.
  intros Hi. induction 1 as [|t ts Ht Hts IH]; intros r m Hm.
  - cbn. repeat f_equal. lia.
  - cbn [Allows List.length seq map].
    set (rl := {| rate := r; interval := i; tokens := m; lastTime := created |}).
    assert (Hq : Z.quot (Sub t (lastTime rl)) (interval rl) = 0)
      by (apply Z.quot_small; cbn [rl interval lastTime];
          unfold Sub, minInt64, maxInt64; lia).
    rewrite (Allow_rule rl t)
      by (rewrite ?Hq; cbn [rl interval tokens]; unfold maxInt64 in *; lia).
    unfold available. rewrite Hq. cbn [Z.gtb Z.compare].
    cbn [rate interval tokens lastTime rl].
    destruct (Z.gtb_spec m 0) as [Hp|Hp].
    + rewrite IH by lia. rewrite <- seq_shift, map_map.
      f_equal. f_equal.
      * f_equal; [symmetry; apply Z.ltb_lt; cbn; lia|].
        apply map_ext. intros k.
        destruct (Z.ltb_spec (Z.of_nat k) (m - 1)),
                 (Z.ltb_spec (Z.of_nat (S k)) m); try reflexivity; lia.
      * f_equal. lia.
    + rewrite IH by lia. rewrite <- seq_shift, map_map.
      f_equal. f_equal.
      * f_equal; [symmetry; apply Z.ltb_ge; cbn; lia|].
        apply map_ext. intros k.
        destruct (Z.ltb_spec (Z.of_nat k) m),
                 (Z.ltb_spec (Z.of_nat (S k)) m); try reflexivity; lia.
      * f_equal. lia.
Qed.

(** X10.  A new limiter admits a burst of exactly its capacity: of the
    calls of [Allow] made within the first interval after its creation,
    whatever their number, the first [rate] are admitted and all later
    ones refused; the tokens left are [rate] minus the number of calls,
    or none. *)
Theorem Allow_grants_a_burst_of_rate :
  forall (r i created : Z) (ts : list Z),
    0 <= r <= maxInt64 ->
    0 < i ->
    Forall (fun t => created <= t < created + i) ts ->
    exists rl',
      Allows ts (NewRateLimiter r i created)
      = Some (map (fun k => Z.of_nat k <? r) (seq 0 (List.length ts)), rl') /\
      tokens rl' = Z.max 0 (r - Z.of_nat (List.length ts)).
Proof.
  intros r i created ts Hr Hi Hts. eexists. split.
  - exact (Allows_first_interval i created ts Hi Hts r r Hr).
  - reflexivity.
Qed.

Lemma Allow_grants_a_burst_of_rate_witness :
  exists rl',
    Allows [0; 10; 20] (NewRateLimiter 2 100 0)
    = Some ([true; true; false], rl') /\
    tokens rl' = 0.
Proof.
  exact (Allow_grants_a_burst_of_rate 2 100 0 [0; 10; 20]
           ltac:(split; discriminate) eq_refl
           ltac:(repeat constructor; discriminate)).
Defined.

End limiter_extra.

(** ** Reading back what the statements wrote *)

Module storage_extra.

Import model storage storage_facts key_facts.
Open Scope string_scope.
Open Scope Z_scope.

Lemma GetTaskByID_find (id : string) (s : PostgresStorage) (r : Task) :
  GetTaskByID true id s = inr r <->
  find (fun r => String.eqb (ID r) id) (tasks s) = Some r.
Proof.
  unfold GetTaskByID. cbn [negb].
  destruct (find _ (tasks s)) as [r0|]; split; intros E;
    try discriminate; congruence.
Qed.

Lemma find_updated (id id' : string) (f : Task -> Task) (rows : list Task) :
  (forall r, ID (f r) = ID r) ->
  find (fun r => String.eqb (ID r) id')
       (map (fun r => if String.eqb (ID r) id then f r else r) rows) =
  option_map (fun r => if String.eqb (ID r) id then f r else r)
             (find (fun r => String.eqb (ID r) id') rows).
Proof.
  intros Hf. induction rows as [|r rows IH]; [reflexivity|].
  cbn [map find].
  replace (ID (if String.eqb (ID r) id then f r else r)) with (ID r)
    by (destruct (String.eqb (ID r) id); [rewrite Hf|]; reflexivity).
  destruct (String.eqb (ID r) id'); [reflexivity|exact IH].
Qed.

Lemma has_id_find (id : string) (rows : list Task) :
  has_id id rows = true ->
  exists r, find (fun r => String.eqb (ID r) id) rows = Some r.
Proof.
  unfold has_id. induction rows as [|r rows IH]; [discriminate|].
  cbn [existsb find]. destruct (String.eqb (ID r) id); [eauto|exact IH].
Qed.

Lemma find_has_id (id : string) (rows : list Task) (r : Task) :
  find (fun r => String.eqb (ID r) id) rows = Some r ->
  has_id id rows = true.
Proof.
  intros F. apply find_some in F. destruct F as [Hin Heq].
  unfold has_id. apply existsb_exists. eauto.
Qed.

(** With distinct values of [f], a value selects one element. *)
Lemma NoDup_map_eq {A B : Type} (f : A -> B) (l : list A) (a b : A) :
  NoDup (map f l) -> In a l -> In b l -> f a = f b -> a = b.
Proof.
  induction l as [|x l IH]; intros Hnd Ha Hb E; [destruct Ha|].
  cbn [map] in Hnd. apply NoDup_cons_iff in Hnd. destruct Hnd as [Hx Hnd].
  destruct Ha as [->|Ha], Hb as [->|Hb]; auto.
  - exfalso. apply Hx. rewrite E. now apply in_map.
  - exfalso. apply Hx. rewrite <- E. now apply in_map.
Qed.

(** The store accepts the update of a stored task that keeps its chat and
    message. *)
Lemma UpdateTask_accepts (now : Z) (t r0 : Task) (s : PostgresStorage) :
  WellKeyed s ->
  GetTaskByID true (ID t) s = inr r0 ->
  pair_of t = pair_of r0 ->
  inInt4 (Attempts t) = true ->
  fst (UpdateTask true now t s) = None.
Proof.
  intros [Hid Hpair] Hg Hp Hr. apply GetTaskByID_find in Hg.
  unfold UpdateTask. cbn [negb].
  rewrite (find_has_id _ _ _ Hg). cbn [negb]. rewrite Hr. cbn [negb].
  rewrite orb_false_r.
  destruct (has_pair _ _ _) eqn:E; [exfalso|reflexivity].
  apply has_pair_In in E. apply in_map_iff in E.
  destruct E as (r & Hrp & Hin). apply filter_In in Hin.
  destruct Hin as [Hin Hne]. apply negb_true_iff in Hne.
  apply find_some in Hg. destruct Hg as [Hin0 Heq0].
  apply String.eqb_eq in Heq0.
  assert (r = r0).
  { apply (NoDup_map_eq pair_of (tasks s)); auto.
    rewrite Hrp. unfold pair_of in Hp. unfold pair_of. congruence. }
  subst r. rewrite Heq0, String.eqb_refl in Hne. discriminate.
Qed.

(** What an accepted update wrote is read back. *)
Lemma UpdateTask_read_back (up : bool) (now : Z) (t : Task)
  (s s' : PostgresStorage) :
  UpdateTask up now t s = (None, s') ->
  exists r0,
    GetTaskByID true (ID t) s = inr r0 /\
    GetTaskByID true (ID t) s' = inr (updated_row now t r0) /\
    (forall id, id <> ID t ->
                GetTaskByID true id s' = GetTaskByID true id s) /\
    transcripts s' = transcripts s.
Proof.
  intros H. unfold UpdateTask in H.
  destruct (negb up); [discriminate|].
  destruct (has_id (ID t) (tasks s)) eqn:Hid; [|discriminate].
  cbn [negb] in H. destruct (_ || _); [discriminate|].
  injection H as <-.
  destruct (has_id_find _ _ Hid) as (r0 & F).
  pose proof (find_some _ _ F) as [_ Heq]. apply String.eqb_eq in Heq.
  exists r0. split; [now apply GetTaskByID_find|]. split; [|split].
  - apply GetTaskByID_find. cbn [tasks].
    rewrite find_updated by reflexivity. rewrite F. cbn [option_map].
    rewrite Heq, String.eqb_refl. reflexivity.
  - intros id Hne. unfold GetTaskByID. cbn [negb tasks].
    rewrite find_updated by reflexivity.
    destruct (find (fun r => String.eqb (ID r) id) (tasks s)) as [r|] eqn:F';
      [|reflexivity].
    cbn [option_map]. apply find_some in F'. destruct F' as [_ E].
    apply String.eqb_eq in E.
    destruct (String.eqb_spec (ID r) (ID t)); [congruence|reflexivity].
  - reflexivity.
Qed.





End storage_extra.

(** ** The processing cycle in closed form *)

Module cycle_facts.

Import model worker storage_facts worker_facts.
Open Scope string_scope.
Open Scope Z_scope.

Lemma failure_eq (msg msg' : string) (e e' : error) :
  Some (msg', e') = Some (msg, e) -> msg = msg' /\ e = e'.
Proof. intros H. split; congruence. Qed.

Section Run.

Variable c : Collaborators.
Variable w : World.
Variable vt : queue.VoiceTask.
Variable row : Task.

Hypothesis Hunmarshal : unmarshal c = inr vt.
Hypothesis Hload :
  storage.GetTaskByID (dbUp c (step w)) (queue.TaskID vt) (db w) = inr row.

(** A cycle that fails before the recognition is started: the task as it
    was picked up, [t1], its update [u1], and the failure handled on it. *)
Lemma ProcessTask_run_early (msg : string) (e : error) :
  earlyFailure c (queue.FileID vt) = Some (msg, e) ->
  let k := step w in
  let t1 := SetInProgress "" (timeNow c (S k)) row in
  let u1 := storage.UpdateTask (dbUp c (S (S k))) (dbNow c (S (S k))) t1
              (db w) in
  let pre1 := ([UpdateTaskCalled t1 (fst u1)]
               ++ logged (fst u1) "Failed to update task status")%list in
  ProcessTask c w =
  (Some e,
   snd (handleTaskError c t1 msg
          {| db := snd u1; step := S (S (S k));
             events := (events w ++ pre1)%list |})).
Proof.
  intros Hf k t1 u1 pre1. unfold ProcessTask. rewrite Hunmarshal. run.
  rewrite Hload. run. fold k t1. fold u1.
  destruct u1 as [e1 db1] eqn:Eu1.
  run. rewrite whenError_log. run. rewrite <- app_assoc.
  unfold pre1. cbn [fst snd].
  unfold earlyFailure in Hf.
  destruct (downloadTelegramFile c (queue.FileID vt)) as [ed|data].
  { apply failure_eq in Hf. destruct Hf as [-> ->].
    destruct (handleTaskError c t1 _ _) as [t' wf]. reflexivity. }
  destruct (uploadFile c) as [eu|url].
  { apply failure_eq in Hf. destruct Hf as [-> ->].
    destruct (handleTaskError c t1 _ _) as [t' wf]. reflexivity. }
  destruct (startRecognition c) as [es|op]; [|discriminate].
  apply failure_eq in Hf. destruct Hf as [-> ->].
  destruct (handleTaskError c t1 _ _) as [t' wf]. reflexivity.
Qed.

Variable op : string.

Hypothesis Hearly : earlyFailure c (queue.FileID vt) = None.
Hypothesis Hstart : startRecognition c = inr op.

(** A cycle that fails once the recognition is started: the task with
    the operation id, [t2], its update [u2], and the failure handled on
    it. *)
Lemma ProcessTask_run_late (msg : string) (e : error) :
  lateFailure c = Some (msg, e) ->
  let k := step w in
  let t1 := SetInProgress "" (timeNow c (S k)) row in
  let u1 := storage.UpdateTask (dbUp c (S (S k))) (dbNow c (S (S k))) t1
              (db w) in
  let pre1 := ([UpdateTaskCalled t1 (fst u1)]
               ++ logged (fst u1) "Failed to update task status")%list in
  let t2 := set_OperationID op t1 in
  let u2 := storage.UpdateTask (dbUp c (S (S (S k)))) (dbNow c (S (S (S k))))
              t2 (snd u1) in
  let pre2 := (pre1 ++ [UpdateTaskCalled t2 (fst u2)]
               ++ logged (fst u2) "Failed to update operation_id")%list in
  ProcessTask c w =
  (Some e,
   snd (handleTaskError c t2 msg
          {| db := snd u2; step := S (S (S (S k)));
             events := (events w ++ pre2)%list |})).
Proof.
  intros Hf k t1 u1 pre1 t2 u2 pre2.
  unfold ProcessTask. rewrite Hunmarshal. run.
  rewrite Hload. run. fold k t1. fold u1.
  destruct u1 as [e1 db1] eqn:Eu1.
  run. rewrite whenError_log. run. rewrite <- app_assoc.
  unfold earlyFailure in Hearly.
  destruct (downloadTelegramFile c (queue.FileID vt)) as [ed|data];
    [discriminate|].
  destruct (uploadFile c) as [eu|url]; [discriminate|].
  rewrite Hstart. run. fold t2.
  unfold pre2, pre1, u2. cbn [fst snd].
  destruct (storage.UpdateTask _ _ t2 db1) as [e2 db2].
  run. rewrite whenError_log. run. rewrite <- !app_assoc.
  unfold lateFailure in Hf.
  destruct (waitForResult c) as [ew|result].
  { apply failure_eq in Hf. destruct Hf as [-> ->].
    destruct (handleTaskError c t2 _ _) as [t' wf]. reflexivity. }
  destruct (String.eqb (speechkit.GetFullText result) ""); [|discriminate].
  apply failure_eq in Hf. destruct Hf as [-> ->].
  destruct (handleTaskError c t2 _ _) as [t' wf]. reflexivity.
Qed.

Variable result : speechkit.RecognitionResult.

Hypothesis Hwait : waitForResult c = inr result.
Hypothesis Htext : String.eqb (speechkit.GetFullText result) "" = false.

(** A cycle whose external steps succeed: the transcript [tr], its insert
    [u3], the completed task [t3], its update [u4], and the message to the
    user. *)
Lemma ProcessTask_run_success :
  let k := step w in
  let t1 := SetInProgress "" (timeNow c (S k)) row in
  let u1 := storage.UpdateTask (dbUp c (S (S k))) (dbNow c (S (S k))) t1
              (db w) in
  let pre1 := ([UpdateTaskCalled t1 (fst u1)]
               ++ logged (fst u1) "Failed to update task status")%list in
  let t2 := set_OperationID op t1 in
  let u2 := storage.UpdateTask (dbUp c (S (S (S k)))) (dbNow c (S (S (S k))))
              t2 (snd u1) in
  let pre2 := (pre1 ++ [UpdateTaskCalled t2 (fst u2)]
               ++ logged (fst u2) "Failed to update operation_id")%list in
  let tr := {| Transcript_ID := newUUID c;
               TaskID := ID row;
               Text := speechkit.GetFullText result;
               RawResponse := marshal c;
               Transcript_CreatedAt := timeNow c (S (S (S (S k)))) |} in
  let u3 := storage.CreateTranscript (dbUp c (S (S (S (S (S k)))))) tr
              (snd u2) in
  let t3 := SetCompleted (timeNow c (S (S (S (S (S (S k))))))) t2 in
  let u4 := storage.UpdateTask (dbUp c (S (S (S (S (S (S (S k))))))))
              (dbNow c (S (S (S (S (S (S (S k)))))))) t3 (snd u3) in
  ProcessTask c w =
  (None,
   {| db := snd u4;
      step := S (S (S (S (S (S (S (S k)))))));
      events :=
        (events w ++ pre2
         ++ [CreateTranscriptCalled tr (fst u3)]
         ++ logged (fst u3) "Failed to save transcript"
         ++ [UpdateTaskCalled t3 (fst u4)]
         ++ logged (fst u4) "Failed to update task status to done"
         ++ [Sent (queue.ChatID vt) (queue.TelegramMessageID vt)
               (speechkit.GetFullText result) (botSend c)]
         ++ logged (botSend c) "Failed to send result to user")%list |}).
Proof.
  intros k t1 u1 pre1 t2 u2 pre2 tr u3 t3 u4.
  unfold ProcessTask. rewrite Hunmarshal. run.
  rewrite Hload. run. fold k t1. fold u1.
  destruct u1 as [e1 db1] eqn:Eu1.
  run. rewrite whenError_log. run. rewrite <- app_assoc.
  unfold earlyFailure in Hearly.
  destruct (downloadTelegramFile c (queue.FileID vt)) as [ed|data];
    [discriminate|].
  destruct (uploadFile c) as [eu|url]; [discriminate|].
  rewrite Hstart. run. fold t2.
  unfold pre2, pre1, u4, t3, u3, tr, u2. cbn [fst snd].
  destruct (storage.UpdateTask _ _ t2 db1) as [e2 db2].
  run. rewrite whenError_log. run. rewrite <- !app_assoc.
  rewrite Hwait, Htext. run.
  change (ID t2) with (ID row).
  destruct (storage.CreateTranscript _ _ db2) as [e3 db3].
  run. rewrite whenError_log. run.
  destruct (storage.UpdateTask _ _ _ db3) as [e4 db4].
  run. rewrite whenError_log. run. rewrite whenError_log. run.
  rewrite <- !app_assoc. reflexivity.
Qed.

End Run.

End cycle_facts.

Module worker_extra.

Import model worker storage_facts worker_facts cycle_facts cycle_examples.
Open Scope string_scope.
Open Scope Z_scope.

(** X13.  The failure notice and [CanRetry] agree: the task that
    [handleTaskError] leaves is completed (failed), and the user is sent
    the failure notice, in reply to the task's message, exactly when the
    task can no longer be retried, that is when its attempts have reached
    three; no other message is sent. *)
Theorem handleTaskError_notifies_iff_cannot_retry :
  forall (c : Collaborators) (task : Task) (msg : string) (w : World),
    let r := handleTaskError c task msg w in
    IsCompleted (fst r) = true /\
    Status (fst r) = TaskStatusFailed /\
    exists new,
      events (snd r) = (events w ++ new)%list /\
      notifications new =
        if CanRetry (fst r) then []
        else [Sent (ChatID task) (TelegramMessageID task) failureNotice
                (botSend c)].
Proof.
  intros c task msg w r. subst r. rewrite handleTaskError_run. cbv zeta.
  cbn [fst snd events].
  split; [reflexivity|]. split; [reflexivity|].
  eexists. split; [reflexivity|].
  rewrite !notifications_app, notifications_logged.
  unfold CanRetry.
  change (Status (IncrementAttempts (SetError msg (timeNow c (step w)) task)))
    with TaskStatusFailed.
  change (String.eqb TaskStatusFailed TaskStatusFailed) with true.
  cbn [andb].
  set (a := Attempts _).
  destruct (Z.geb_spec a 3), (Z.ltb_spec a 3); try lia; reflexivity.
Qed.

(** X14.  The result of a cycle that loaded its task is decided by the
    external steps alone: it is the error of the first of the download,
    the upload, the start of the recognition and the wait for its result
    that fails, the error "no text recognized" when the recognized text is
    empty, and nil otherwise.  No error of a write to the store or of the
    message to the user is returned, and the status of the loaded task is
    not looked at. *)
Theorem ProcessTask_result :
  forall (c : Collaborators) (w : World) (vt : queue.VoiceTask) (row : Task),
    unmarshal c = inr vt ->
    storage.GetTaskByID (dbUp c (step w)) (queue.TaskID vt) (db w) = inr row ->
    fst (ProcessTask c w) =
    match downloadTelegramFile c (queue.FileID vt) with
    | inl e => Some e
    | inr _ =>
        match uploadFile c with
        | inl e => Some e
        | inr _ =>
            match startRecognition c with
            | inl e => Some e
            | inr _ =>
                match waitForResult c with
                | inl e => Some e
                | inr result =>
                    if String.eqb (speechkit.GetFullText result) ""
                    then Some (Errorf "no text recognized")
                    else None
                end
            end
        end
    end.
Proof.
  intros c w vt row Hu Hl.
  destruct (earlyFailure c (queue.FileID vt)) as [[msg e]|] eqn:He.
  { rewrite (ProcessTask_run_early c w vt row Hu Hl msg e He). cbn [fst].
    unfold earlyFailure in He.
    destruct (downloadTelegramFile c _); [congruence|].
    destruct (uploadFile c); [congruence|].
    destruct (startRecognition c); [congruence|discriminate]. }
  assert (Hs : exists op, startRecognition c = inr op).
  { unfold earlyFailure in He.
    destruct (downloadTelegramFile c _); [discriminate|].
    destruct (uploadFile c); [discriminate|].
    destruct (startRecognition c) as [|op]; [discriminate|eauto]. }
  destruct Hs as [op Hs].
  destruct (lateFailure c) as [[msg e]|] eqn:Hl2.
  { rewrite (ProcessTask_run_late c w vt row Hu Hl op He Hs msg e Hl2).
    cbn [fst]. unfold earlyFailure in He. unfold lateFailure in Hl2.
    destruct (downloadTelegramFile c _); [discriminate|].
    destruct (uploadFile c); [discriminate|]. rewrite Hs.
    destruct (waitForResult c) as [|result]; [congruence|].
    destruct (String.eqb _ _); [congruence|discriminate]. }
  unfold lateFailure in Hl2.
  destruct (waitForResult c) as [|result] eqn:Hw; [discriminate|].
  destruct (String.eqb (speechkit.GetFullText result) "") eqn:Ht;
    [discriminate|].
  rewrite (ProcessTask_run_success c w vt row Hu Hl op He Hs result Hw Ht).
  cbn [fst]. unfold earlyFailure in He.
  destruct (downloadTelegramFile c _); [discriminate|].
  destruct (uploadFile c); [discriminate|]. rewrite Hs. reflexivity.
Qed.

Lemma ProcessTask_result_witness :
  fst (ProcessTask uploadFails world1) = Some (Errorf "S3 connection failed").
Proof.
  exact (ProcessTask_result uploadFails world1 voiceTask1 row1
           eq_refl eq_refl).
Defined.

(** X15.  A cycle that cannot load its task touches nothing: when the
    queue message cannot be decoded, or the task it names cannot be read
    (the statement fails or there is no such task), [ProcessTask] returns
    an error that wraps the cause, the store is as it was, nothing is
    written to it, no failure is recorded and the user is sent nothing. *)
Theorem ProcessTask_without_task_touches_nothing :
  forall (c : Collaborators) (w : World) (e : error),
    unmarshal c = inl e \/
    (exists vt, unmarshal c = inr vt /\
                storage.GetTaskByID (dbUp c (step w)) (queue.TaskID vt) (db w)
                = inl e) ->
    (fst (ProcessTask c w) =
       Some (Errorf ("failed to unmarshal task: " ++ Error e)) \/
     fst (ProcessTask c w) =
       Some (Errorf ("failed to get task from db: " ++ Error e))) /\
    db (snd (ProcessTask c w)) = db w /\
    events (snd (ProcessTask c w)) = events w.
Proof.
  intros c w e [Hu|(vt & Hu & Hl)]; unfold ProcessTask; rewrite Hu.
  - cbn. auto.
  - run. rewrite Hl. cbn. auto.
Qed.

Lemma ProcessTask_without_task_touches_nothing_witness :
  let c := {| unmarshal := inr voiceTask1; timeNow := timeNow allWell;
              dbUp := dbUp allWell; dbNow := dbNow allWell;
              fileByID := fileByID allWell; httpGet := httpGet allWell;
              uploadFile := uploadFile allWell;
              startRecognition := startRecognition allWell;
              waitForResult := waitForResult allWell;
              marshal := marshal allWell; newUUID := newUUID allWell;
              botSend := botSend allWell |} in
  let w := {| db := storage.empty; step := 0; events := [] |} in
  db (snd (ProcessTask c w)) = storage.empty /\
  events (snd (ProcessTask c w)) = [].
Proof.
  intros c w.
  exact (proj2 (ProcessTask_without_task_touches_nothing c w
                  (Errorf "task not found")
                  (or_intror (ex_intro _ voiceTask1 (conj eq_refl eq_refl))))).
Defined.

(** X16.  What a cycle that returns nil has done, whatever the status of
    the task it loaded and whatever the store and the messenger answered:
    the recognition was started and gave a non-empty text; the last task
    handed to the store is done, carries the id of the operation, and has
    the attempts, the error text and the identity of the loaded row (an
    error text left by an earlier failed cycle is not cleared); a
    transcript of that task with the recognized text was handed to the
    store; and the one message sent is the recognized text, in reply to
    the message named in the queue message. *)
Theorem ProcessTask_nil_outcome :
  forall (c : Collaborators) (w : World) (vt : queue.VoiceTask) (row : Task),
    unmarshal c = inr vt ->
    storage.GetTaskByID (dbUp c (step w)) (queue.TaskID vt) (db w) = inr row ->
    fst (ProcessTask c w) = None ->
    exists (op : string) (result : speechkit.RecognitionResult)
           (new : list Event) (done : Task) (uerr : option error)
           (tr : Transcript) (terr : option error),
      startRecognition c = inr op /\
      waitForResult c = inr result /\
      speechkit.GetFullText result <> "" /\
      events (snd (ProcessTask c w)) = (events w ++ new)%list /\
      In (UpdateTaskCalled done uerr) new /\
      Status done = TaskStatusDone /\
      OperationID done = Some op /\
      Attempts done = Attempts row /\
      ErrorText done = ErrorText row /\
      sameIdentity row done /\
      In (CreateTranscriptCalled tr terr) new /\
      TaskID tr = ID row /\
      Text tr = speechkit.GetFullText result /\
      notifications new =
        [Sent (queue.ChatID vt) (queue.TelegramMessageID vt)
           (speechkit.GetFullText result) (botSend c)].
Proof.
  intros c w vt row Hu Hl Hnil.
  destruct (earlyFailure c (queue.FileID vt)) as [[msg e]|] eqn:He.
  { rewrite (ProcessTask_run_early c w vt row Hu Hl msg e He) in Hnil.
    discriminate. }
  assert (Hs : exists op, startRecognition c = inr op).
  { unfold earlyFailure in He.
    destruct (downloadTelegramFile c _); [discriminate|].
    destruct (uploadFile c); [discriminate|].
    destruct (startRecognition c) as [|op]; [discriminate|eauto]. }
  destruct Hs as [op Hs].
  destruct (lateFailure c) as [[msg e]|] eqn:Hl2.
  { rewrite (ProcessTask_run_late c w vt row Hu Hl op He Hs msg e Hl2) in Hnil.
    discriminate. }
  unfold lateFailure in Hl2.
  destruct (waitForResult c) as [|result] eqn:Hw; [discriminate|].
  destruct (String.eqb (speechkit.GetFullText result) "") eqn:Ht;
    [discriminate|].
  pose proof (ProcessTask_run_success c w vt row Hu Hl op He Hs result Hw Ht)
    as Hrun.
  cbv zeta in Hrun. rewrite Hrun. cbn [snd events].
  exists op, result. eexists. do 4 eexists.
  split; [exact Hs|]. split; [reflexivity|].
  split; [intros E; rewrite E in Ht; discriminate|].
  split; [reflexivity|].
  split.
  { apply in_or_app. right. apply in_or_app. right. apply in_or_app. right.
    apply in_or_app. left. left. reflexivity. }
  split; [reflexivity|]. split; [reflexivity|]. split; [reflexivity|].
  split; [reflexivity|]. split; [repeat split|].
  split.
  { apply in_or_app. right. apply in_or_app. left. left. reflexivity. }
  split; [reflexivity|]. split; [reflexivity|].
  rewrite !notifications_app, !notifications_logged. reflexivity.
Qed.

Lemma ProcessTask_nil_outcome_witness :
  exists (op : string) (result : speechkit.RecognitionResult)
         (new : list Event) (done : Task) (uerr : option error)
         (tr : Transcript) (terr : option error),
    startRecognition allWell = inr op /\
    waitForResult allWell = inr result /\
    speechkit.GetFullText result <> "" /\
    events (snd (ProcessTask allWell world1)) = (events world1 ++ new)%list /\
    In (UpdateTaskCalled done uerr) new /\
    Status done = TaskStatusDone /\
    OperationID done = Some op /\
    Attempts done = Attempts row1 /\
    ErrorText done = ErrorText row1 /\
    sameIdentity row1 done /\
    In (CreateTranscriptCalled tr terr) new /\
    TaskID tr = ID row1 /\
    Text tr = speechkit.GetFullText result /\
    notifications new =
      [Sent (queue.ChatID voiceTask1) (queue.TelegramMessageID voiceTask1)
         (speechkit.GetFullText result) (botSend allWell)].
Proof.
  exact (ProcessTask_nil_outcome allWell world1 voiceTask1 row1
           eq_refl eq_refl eq_refl).
Defined.

End worker_extra.

(** ** The store across a cycle *)

Module cycle_store.

Import model worker storage_facts key_facts worker_facts storage_extra
       cycle_facts.
Open Scope string_scope.
Open Scope Z_scope.

Lemma sameIdentity_refl (r : Task) : sameIdentity r r.
Proof. repeat split. Qed.

Lemma OwnRowOnly_refl (row : Task) (s : storage.PostgresStorage) :
  OwnRowOnly row s s.
Proof.
  unfold OwnRowOnly. induction (storage.tasks s) as [|r l IH]; constructor.
  - split; [apply sameIdentity_refl|reflexivity].
  - exact IH.
Qed.

Lemma OwnRowOnly_UpdateTask (up : bool) (now : Z) (t row : Task)
  (s0 s : storage.PostgresStorage) :
  NoDup (map ID (storage.tasks s0)) ->
  In row (storage.tasks s0) ->
  sameIdentity row t ->
  OwnRowOnly row s0 s ->
  OwnRowOnly row s0 (snd (storage.UpdateTask up now t s)).
Proof.
  intros Hnd Hrow Ht H. unfold storage.UpdateTask.
  destruct (negb up); [exact H|].
  destruct (negb (storage.has_id (ID t) (storage.tasks s))); [exact H|].
  destruct (_ || _); [exact H|].
  unfold OwnRowOnly in *. cbn [snd storage.tasks].
  assert (G : forall l0 l,
             Forall2 (fun r0 r => sameIdentity r0 r /\ (ID r0 <> ID row -> r = r0))
                     l0 l ->
             incl l0 (storage.tasks s0) ->
             Forall2 (fun r0 r => sameIdentity r0 r /\ (ID r0 <> ID row -> r = r0))
                     l0
                     (map (fun r => if String.eqb (ID r) (ID t)
                                    then storage.updated_row now t r else r) l)).
  { induction 1 as [|r0 r l0 l [Hs Hne] Hrest IH]; intros Hincl;
      [constructor|].
    cbn [map]. constructor.
    - destruct Ht as (Ti & Tm & Tc & Tf & Tj & Tk).
      destruct Hs as (Si & Sm & Sc & Sf & Sj & Sk).
      destruct (String.eqb_spec (ID r) (ID t)) as [E|E]; [|split; auto;
        repeat split; auto].
      assert (r0 = row).
      { apply (NoDup_map_eq ID (storage.tasks s0)); auto.
        - apply Hincl. left. reflexivity.
        - congruence. }
      subst r0. split.
      + unfold sameIdentity. cbn. repeat split; congruence.
      + intros Hc. congruence.
    - apply IH. intros x Hx. apply Hincl. right. exact Hx. }
  apply G; [exact H|apply incl_refl].
Qed.

Lemma OwnRowOnly_CreateTranscript (up : bool) (tr : Transcript) (row : Task)
  (s0 s : storage.PostgresStorage) :
  OwnRowOnly row s0 s ->
  OwnRowOnly row s0 (snd (storage.CreateTranscript up tr s)).
Proof.
  unfold OwnRowOnly. now rewrite CreateTranscript_keeps_tasks.
Qed.

Lemma handleTaskError_db (c : Collaborators) (task : Task) (msg : string)
  (w : World) :
  db (snd (handleTaskError c task msg w)) =
  snd (storage.UpdateTask (dbUp c (S (step w))) (dbNow c (S (step w)))
         (IncrementAttempts (SetError msg (timeNow c (step w)) task)) (db w)).
Proof. rewrite handleTaskError_run. reflexivity. Qed.

(** Every cycle changes the store through its statements only. *)
Lemma ProcessTask_Reachable (c : Collaborators) (w : World) :
  storage.Reachable (db w) ->
  storage.Reachable (db (snd (ProcessTask c w))).
Proof.
  intros Hr.
  destruct (unmarshal c) as [e|vt] eqn:Hu.
  { unfold ProcessTask. rewrite Hu. exact Hr. }
  destruct (storage.GetTaskByID (dbUp c (step w)) (queue.TaskID vt) (db w))
    as [e|row] eqn:Hl.
  { unfold ProcessTask. rewrite Hu. run. rewrite Hl. exact Hr. }
  destruct (earlyFailure c (queue.FileID vt)) as [[msg e]|] eqn:He.
  { rewrite (ProcessTask_run_early c w vt row Hu Hl msg e He).
    cbn [snd]. rewrite handleTaskError_db. cbn [db step].
    repeat apply storage.reach_UpdateTask. exact Hr. }
  assert (Hs : exists op, startRecognition c = inr op).
  { unfold earlyFailure in He.
    destruct (downloadTelegramFile c _); [discriminate|].
    destruct (uploadFile c); [discriminate|].
    destruct (startRecognition c) as [|op]; [discriminate|eauto]. }
  destruct Hs as [op Hs].
  destruct (lateFailure c) as [[msg e]|] eqn:Hl2.
  { rewrite (ProcessTask_run_late c w vt row Hu Hl op He Hs msg e Hl2).
    cbn [snd]. rewrite handleTaskError_db. cbn [db step].
    repeat apply storage.reach_UpdateTask. exact Hr. }
  unfold lateFailure in Hl2.
  destruct (waitForResult c) as [|result] eqn:Hw; [discriminate|].
  destruct (String.eqb (speechkit.GetFullText result) "") eqn:Ht;
    [discriminate|].
  rewrite (ProcessTask_run_success c w vt row Hu Hl op He Hs result Hw Ht).
  cbn [snd db].
  apply storage.reach_UpdateTask, storage.reach_CreateTranscript.
  repeat apply storage.reach_UpdateTask. exact Hr.
Qed.

Lemma sameIdentity_pair (row r : Task) :
  sameIdentity row r -> storage.pair_of r = storage.pair_of row.
Proof.
  intros (_ & Hm & Hc & _). unfold storage.pair_of. congruence.
Qed.

Lemma sameIdentity_updated (now : Z) (row t r0 : Task) :
  sameIdentity row t -> sameIdentity row r0 ->
  sameIdentity row (storage.updated_row now t r0).
Proof.
  intros (Ti & Tm & Tc & Tf & Tj & Tk) (Ri & Rm & Rc & Rf & Rj & Rk).
  repeat split; assumption.
Qed.

(** An update of the stored task that keeps its identity is accepted
    when the database is reached, and is read back. *)
Lemma accepted_update (now : Z) (t r0 row : Task)
  (s : storage.PostgresStorage) :
  storage.WellKeyed s ->
  storage.GetTaskByID true (ID row) s = inr r0 ->
  sameIdentity row r0 ->
  sameIdentity row t ->
  storage.inInt4 (Attempts t) = true ->
  exists s',
    storage.UpdateTask true now t s = (None, s') /\
    storage.WellKeyed s' /\
    storage.GetTaskByID true (ID row) s' = inr (storage.updated_row now t r0) /\
    sameIdentity row (storage.updated_row now t r0) /\
    storage.transcripts s' = storage.transcripts s.
Proof.
  intros Hk Hg Hr Ht Ha.
  assert (Hpt : storage.pair_of t = storage.pair_of r0)
    by (rewrite (sameIdentity_pair row t Ht), (sameIdentity_pair row r0 Hr);
        reflexivity).
  pose proof (sameIdentity_updated now row t r0 Ht Hr) as Hu.
  destruct Ht as (Ti & _).
  rewrite <- Ti in Hg.
  pose proof (UpdateTask_accepts now t r0 s Hk Hg Hpt Ha) as Hacc.
  pose proof (UpdateTask_WellKeyed true now t s Hk) as Hk'.
  destruct (storage.UpdateTask true now t s) as [e s'] eqn:Eu.
  cbn [fst snd] in *. subst e. exists s'.
  destruct (UpdateTask_read_back _ _ _ _ _ Eu) as (r0' & H0 & H1 & _ & H3).
  rewrite Hg in H0. injection H0 as <-. rewrite <- Ti.
  split; [reflexivity|]. split; [exact Hk'|]. split; [exact H1|].
  split; [exact Hu|exact H3].
Qed.

Lemma inInt4_range (x : Z) :
  - 2 ^ 31 <= x < 2 ^ 31 -> storage.inInt4 x = true.
Proof.
  intros H. unfold storage.inInt4. apply andb_true_iff.
  split; [apply Z.leb_le|apply Z.ltb_lt]; lia.
Qed.

Section Stored.

Variable c : Collaborators.
Variable w : World.
Variable row : Task.

Hypothesis Hup : forall k, dbUp c k = true.
Hypothesis Hrange : - 2 ^ 31 <= Attempts row /\ Attempts row + 1 < 2 ^ 31.

(** The store after the cycle's failure was handled on [task], from a
    store [s] in which the task's row is [r0]. *)
Lemma failure_stored (task r0 : Task) (msg : string) (k : nat)
  (pre : list Event) (s : storage.PostgresStorage) :
  storage.WellKeyed s ->
  storage.GetTaskByID true (ID row) s = inr r0 ->
  sameIdentity row r0 ->
  sameIdentity row task ->
  Attempts task = Attempts row ->
  notifications pre = [] ->
  let w' := snd (handleTaskError c task msg
                   {| db := s; step := k; events := (events w ++ pre)%list |}) in
  exists r new,
    storage.GetTaskByID true (ID row) (db w') = inr r /\
    storage.WellKeyed (db w') /\
    Status r = TaskStatusFailed /\
    Attempts r = Attempts row + 1 /\
    ErrorText r = Some msg /\
    OperationID r = OperationID task /\
    UpdatedAt r = dbNow c (S k) /\
    sameIdentity row r /\
    events w' = (events w ++ new)%list /\
    notifications new =
      (if Attempts row + 1 >=? 3
       then [Sent (ChatID row) (TelegramMessageID row) failureNotice
               (botSend c)]
       else []).
Proof.
  intros Hk Hg Hr Ht Ha Hpre w'. subst w'.
  rewrite handleTaskError_run. cbv zeta. cbn [snd db events step].
  set (failed := IncrementAttempts (SetError msg (timeNow c k) task)).
  assert (Hfa : Attempts failed = Attempts row + 1).
  { cbn. rewrite Ha. apply wrap64_id. unfold minInt64, maxInt64. lia. }
  assert (Hfs : sameIdentity row failed).
  { destruct Ht as (? & ? & ? & ? & ? & ?). repeat split; assumption. }
  destruct (accepted_update (dbNow c (S k)) failed r0 row s Hk Hg Hr Hfs)
    as (s' & Eu & Hk' & Hg' & Hs' & _).
  { rewrite Hfa. apply inInt4_range. lia. }
  rewrite Hup, Eu. cbn [fst snd].
  eexists. eexists. split; [exact Hg'|]. split; [exact Hk'|].
  cbn [storage.updated_row Status Attempts ErrorText OperationID UpdatedAt].
  split; [reflexivity|]. split; [exact Hfa|]. split; [reflexivity|].
  split; [reflexivity|]. split; [reflexivity|].
  split; [exact Hs'|].
  split; [rewrite <- app_assoc; reflexivity|].
  rewrite !notifications_app, Hpre, notifications_logged. cbn [app].
  rewrite Hfa.
  destruct Hfs as (_ & Fm & Fc & _).
  destruct (_ >=? 3); [|reflexivity].
  cbn [notifications filter]. now rewrite Fm, Fc.
Qed.

End Stored.

Lemma earlyFailure_message (c : Collaborators) (fileID msg : string)
  (e : error) :
  earlyFailure c fileID = Some (msg, e) -> failure_message msg.
Proof.
  unfold earlyFailure, failure_message.
  destruct (downloadTelegramFile c fileID) as [e1|];
    [intros E; apply failure_eq in E; destruct E as [-> _]; eauto|].
  destruct (uploadFile c) as [e2|];
    [intros E; apply failure_eq in E; destruct E as [-> _]; eauto|].
  destruct (startRecognition c) as [e3|]; [|discriminate].
  intros E. apply failure_eq in E. destruct E as [-> _]. eauto.
Qed.

Lemma lateFailure_message (c : Collaborators) (msg : string) (e : error) :
  lateFailure c = Some (msg, e) -> failure_message msg.
Proof.
  unfold lateFailure, failure_message.
  destruct (waitForResult c) as [e1|result].
  - intros E. assert (msg = "Recognition failed: " ++ Error e1) by congruence.
    subst msg. right. right. right. left. eauto.
  - destruct (String.eqb _ _); [|discriminate].
    intros E. assert (msg = "No text recognized") by congruence.
    subst msg. right. right. right. right. reflexivity.
Qed.

Lemma earlyFailure_None (c : Collaborators) (fileID : string) :
  earlyFailure c fileID = None -> exists op, startRecognition c = inr op.
Proof.
  unfold earlyFailure.
  destruct (downloadTelegramFile c _); [discriminate|].
  destruct (uploadFile c); [discriminate|].
  destruct (startRecognition c) as [|op]; [discriminate|eauto].
Qed.

Section StoredCycle.

Variable c : Collaborators.
Variable w : World.
Variable vt : queue.VoiceTask.
Variable row : Task.

Hypothesis Hkeys : storage.WellKeyed (db w).
Hypothesis Hup : forall k, dbUp c k = true.
Hypothesis Hunmarshal : unmarshal c = inr vt.
Hypothesis Hload :
  storage.GetTaskByID true (queue.TaskID vt) (db w) = inr row.
Hypothesis Hrange : - 2 ^ 31 <= Attempts row /\ Attempts row + 1 < 2 ^ 31.

Lemma loaded :
  storage.GetTaskByID (dbUp c (step w)) (queue.TaskID vt) (db w) = inr row.
Proof. rewrite Hup. exact Hload. Qed.

Lemma row_id : ID row = queue.TaskID vt.
Proof. exact (proj2 (GetTaskByID_In _ _ _ _ Hload)). Qed.

(** A cycle whose external steps fail leaves its task failed in the store,
    with one attempt more. *)
Lemma failed_cycle_stored :
  stepsSucceed c (queue.FileID vt) = false ->
  exists e msg r new,
    fst (ProcessTask c w) = Some e /\
    failure_message msg /\
    storage.GetTaskByID true (queue.TaskID vt) (db (snd (ProcessTask c w)))
    = inr r /\
    storage.WellKeyed (db (snd (ProcessTask c w))) /\
    Status r = TaskStatusFailed /\
    Attempts r = Attempts row + 1 /\
    ErrorText r = Some msg /\
    (earlyFailure c (queue.FileID vt) <> None /\ OperationID r = Some "" \/
     earlyFailure c (queue.FileID vt) = None /\
     exists op, startRecognition c = inr op /\ OperationID r = Some op) /\
    sameIdentity row r /\
    events (snd (ProcessTask c w)) = (events w ++ new)%list /\
    notifications new =
      (if Attempts row + 1 >=? 3
       then [Sent (ChatID row) (TelegramMessageID row) failureNotice
               (botSend c)]
       else []).
Proof.
  intros Hfail. pose proof loaded as Hl. pose proof row_id as Hid.
  assert (Hrow : storage.GetTaskByID true (ID row) (db w) = inr row)
    by (rewrite Hid; exact Hload).
  rewrite <- Hid.
  set (k := step w).
  set (t1 := SetInProgress "" (timeNow c (S k)) row).
  assert (Ht1 : sameIdentity row t1) by (repeat split).
  destruct (accepted_update (dbNow c (S (S k))) t1 row row (db w) Hkeys Hrow
              (sameIdentity_refl row) Ht1) as (s1 & Eu1 & Hk1 & Hg1 & Hs1 & _).
  { apply inInt4_range. cbn. lia. }
  destruct (earlyFailure c (queue.FileID vt)) as [[msg e]|] eqn:He.
  { rewrite (ProcessTask_run_early c w vt row Hunmarshal Hl msg e He).
    fold k. fold t1. rewrite Hup, Eu1. cbn [fst snd].
    destruct (failure_stored c w row Hup Hrange t1 _ msg (S (S (S k)))
                ([UpdateTaskCalled t1 None]
                 ++ logged None "Failed to update task status")
                s1 Hk1 Hg1 Hs1 Ht1 eq_refl eq_refl)
      as (r & new & G & K & S1 & S2 & S3 & S4 & _ & S6 & S7 & S8).
    exists e, msg, r, new.
    split; [reflexivity|].
    split; [exact (earlyFailure_message _ _ _ _ He)|].
    repeat (split; [assumption|]).
    split; [left; split; [discriminate|exact S4]|].
    repeat (split; [assumption|]). exact S8. }
  destruct (earlyFailure_None _ _ He) as [op Hs].
  set (t2 := set_OperationID op t1).
  assert (Ht2 : sameIdentity row t2) by (repeat split).
  destruct (accepted_update (dbNow c (S (S (S k)))) t2 _ row s1 Hk1 Hg1
              Hs1 Ht2) as (s2 & Eu2 & Hk2 & Hg2 & Hs2 & _).
  { apply inInt4_range. cbn. lia. }
  destruct (lateFailure c) as [[msg e]|] eqn:Hl2.
  { rewrite (ProcessTask_run_late c w vt row Hunmarshal Hl op He Hs msg e Hl2).
    fold k. fold t1. rewrite !Hup, Eu1. cbn [fst snd].
    fold t2. rewrite Eu2. cbn [fst snd].
    destruct (failure_stored c w row Hup Hrange t2 _ msg (S (S (S (S k))))
                (([UpdateTaskCalled t1 None]
                  ++ logged None "Failed to update task status")
                 ++ [UpdateTaskCalled t2 None]
                 ++ logged None "Failed to update operation_id")
                s2 Hk2 Hg2 Hs2 Ht2 eq_refl eq_refl)
      as (r & new & G & K & S1 & S2 & S3 & S4 & _ & S6 & S7 & S8).
    exists e, msg, r, new.
    split; [reflexivity|].
    split; [exact (lateFailure_message _ _ _ Hl2)|].
    repeat (split; [assumption|]).
    split; [right; split; [reflexivity|];
            exists op; split; [exact Hs|exact S4]|].
    repeat (split; [assumption|]). exact S8. }
  unfold stepsSucceed in Hfail. rewrite He, Hl2 in Hfail. discriminate.
Qed.

(** A cycle whose external steps succeed leaves its task done in the
    store, with the attempts and the error text it had. *)
Lemma nil_cycle_stored :
  stepsSucceed c (queue.FileID vt) = true ->
  exists op r,
    fst (ProcessTask c w) = None /\
    startRecognition c = inr op /\
    storage.GetTaskByID true (queue.TaskID vt) (db (snd (ProcessTask c w)))
    = inr r /\
    storage.WellKeyed (db (snd (ProcessTask c w))) /\
    Status r = TaskStatusDone /\
    Attempts r = Attempts row /\
    ErrorText r = ErrorText row /\
    OperationID r = Some op /\
    sameIdentity row r.
Proof.
  intros Hok. pose proof loaded as Hl. pose proof row_id as Hid.
  assert (Hrow : storage.GetTaskByID true (ID row) (db w) = inr row)
    by (rewrite Hid; exact Hload).
  rewrite <- Hid.
  unfold stepsSucceed in Hok.
  destruct (earlyFailure c (queue.FileID vt)) as [|] eqn:He; [discriminate|].
  destruct (lateFailure c) as [|] eqn:Hl2; [discriminate|].
  destruct (earlyFailure_None _ _ He) as [op Hs].
  unfold lateFailure in Hl2.
  destruct (waitForResult c) as [|result] eqn:Hw; [discriminate|].
  destruct (String.eqb (speechkit.GetFullText result) "") eqn:Ht;
    [discriminate|].
  set (k := step w).
  set (t1 := SetInProgress "" (timeNow c (S k)) row).
  assert (Ht1 : sameIdentity row t1) by (repeat split).
  destruct (accepted_update (dbNow c (S (S k))) t1 row row (db w) Hkeys Hrow
              (sameIdentity_refl row) Ht1) as (s1 & Eu1 & Hk1 & Hg1 & Hs1 & _).
  { apply inInt4_range. cbn. lia. }
  set (t2 := set_OperationID op t1).
  assert (Ht2 : sameIdentity row t2) by (repeat split).
  destruct (accepted_update (dbNow c (S (S (S k)))) t2 _ row s1 Hk1 Hg1
              Hs1 Ht2) as (s2 & Eu2 & Hk2 & Hg2 & Hs2 & _).
  { apply inInt4_range. cbn. lia. }
  rewrite (ProcessTask_run_success c w vt row Hunmarshal Hl op He Hs result
             Hw Ht).
  fold k. fold t1. rewrite !Hup, Eu1. cbn [fst snd].
  fold t2. rewrite Eu2. cbn [fst snd db].
  set (tr := {| Transcript_ID := newUUID c; TaskID := ID row;
                Text := speechkit.GetFullText result;
                RawResponse := marshal c;
                Transcript_CreatedAt := timeNow c (S (S (S (S k)))) |}).
  set (s3 := snd (storage.CreateTranscript true tr s2)).
  assert (Hk3 : storage.WellKeyed s3) by (now apply CreateTranscript_WellKeyed).
  assert (Hg3 : storage.GetTaskByID true (ID row) s3 =
                inr (storage.updated_row (dbNow c (S (S (S k)))) t2
                       (storage.updated_row (dbNow c (S (S k))) t1 row))).
  { unfold storage.GetTaskByID, s3. rewrite CreateTranscript_keeps_tasks.
    exact Hg2. }
  set (t3 := SetCompleted (timeNow c (S (S (S (S (S (S k))))))) t2).
  assert (Ht3 : sameIdentity row t3) by (repeat split).
  destruct (accepted_update (dbNow c (S (S (S (S (S (S (S k)))))))) t3 _ row
              s3 Hk3 Hg3 Hs2 Ht3) as (s4 & Eu4 & Hk4 & Hg4 & Hs4 & _).
  { apply inInt4_range. cbn. lia. }
  rewrite Eu4. cbn [snd].
  exists op. eexists. split; [reflexivity|]. split; [exact Hs|].
  split; [exact Hg4|]. split; [exact Hk4|].
  split; [reflexivity|]. split; [reflexivity|]. split; [reflexivity|].
  split; [reflexivity|exact Hs4].
Qed.

End StoredCycle.

End cycle_store.

Module cycle_extra.

Import model worker storage_facts key_facts worker_facts storage_extra
       cycle_facts cycle_store cycle_examples.
Open Scope string_scope.
Open Scope Z_scope.



(** X18.  The stored task tells how the cycle ended.  In a store
    produced by the storage statements, with the database reached by
    every statement and the attempts below the limit of their column,
    after a cycle that loaded its task the task is read back with its
    identity unchanged and completed: done, with the attempts and the
    error text it had and the id of the started operation, when the cycle
    returned nil; failed, with one attempt more and the message of the
    failure, when it returned an error.  A failure before the recognition
    was started ([earlyFailure]: the download, the upload or the start
    failed) leaves the empty string as operation id, a later one the id of
    the started operation. *)
Theorem ProcessTask_stored_outcome :
  forall (c : Collaborators) (w : World) (vt : queue.VoiceTask) (row : Task),
    storage.Reachable (db w) ->
    (forall k, dbUp c k = true) ->
    unmarshal c = inr vt ->
    storage.GetTaskByID true (queue.TaskID vt) (db w) = inr row ->
    Attempts row + 1 < 2 ^ 31 ->
    exists r,
      storage.GetTaskByID true (queue.TaskID vt) (db (snd (ProcessTask c w)))
      = inr r /\
      sameIdentity row r /\
      match fst (ProcessTask c w) with
      | None =>
          Status r = TaskStatusDone /\
          Attempts r = Attempts row /\
          ErrorText r = ErrorText row /\
          exists op, startRecognition c = inr op /\ OperationID r = Some op
      | Some _ =>
          Status r = TaskStatusFailed /\
          Attempts r = Attempts row + 1 /\
          (exists msg, failure_message msg /\ ErrorText r = Some msg) /\
          (earlyFailure c (queue.FileID vt) <> None /\
           OperationID r = Some "" \/
           earlyFailure c (queue.FileID vt) = None /\
           exists op, startRecognition c = inr op /\ OperationID r = Some op)
      end.
Proof.
  intros c w vt row Hreach Hup Hu Hl Ha.
  pose proof (Reachable_WellKeyed _ Hreach) as Hk.
  assert (Hrange : - 2 ^ 31 <= Attempts row /\ Attempts row + 1 < 2 ^ 31).
  { split; [|exact Ha].
    pose proof (Reachable_attempts _ Hreach row
                  (proj1 (GetTaskByID_In _ _ _ _ Hl))) as Hi.
    unfold storage.inInt4 in Hi. apply andb_true_iff in Hi.
    destruct Hi as [Hi _]. now apply Z.leb_le in Hi. }
  destruct (stepsSucceed c (queue.FileID vt)) eqn:Hs.
  - destruct (nil_cycle_stored c w vt row Hk Hup Hu Hl Hrange Hs)
      as (op & r & R0 & R1 & R2 & _ & R4 & R5 & R6 & R7 & R8).
    exists r. rewrite R0. repeat (split; [assumption|]). eauto.
  - destruct (failed_cycle_stored c w vt row Hk Hup Hu Hl Hrange Hs)
      as (e & msg & r & new & R0 & R1 & R2 & _ & R4 & R5 & R6 & R7 & R8 & _).
    exists r. rewrite R0. repeat (split; [assumption|]).
    split; [eauto|exact R7].
Qed.

Lemma ProcessTask_stored_outcome_witness :
  exists r,
    storage.GetTaskByID true "task-123" (db (snd (ProcessTask uploadFails world1)))
    = inr r /\
    Status r = TaskStatusFailed /\ Attempts r = 3 /\
    OperationID r = Some "".
Proof.
  destruct (ProcessTask_stored_outcome uploadFails world1 voiceTask1 row1)
    as (r & Hg & _ & Hs & Ha & _ & Ho).
  - exact (storage.reach_CreateTask true row1 storage.empty storage.reach_empty).
  - reflexivity.
  - reflexivity.
  - reflexivity.
  - reflexivity.
  - exists r. split; [exact Hg|]. split; [exact Hs|]. split; [exact Ha|].
    destruct Ho as [[_ Ho]|[Hn _]]; [exact Ho|discriminate].
Defined.

End cycle_extra.

(** ** The consumer *)

Module consumer_extra.

Import model worker storage_facts key_facts worker_facts storage_extra
       cycle_facts cycle_store cycle_examples.
Open Scope string_scope.
Open Scope Z_scope.

Lemma failing_deliveries (vt : queue.VoiceTask) (cs : list Collaborators) :
  forall (w : World) (row : Task),
    storage.WellKeyed (db w) ->
    storage.GetTaskByID true (queue.TaskID vt) (db w) = inr row ->
    - 2 ^ 31 <= Attempts row ->
    Attempts row + Z.of_nat (List.length cs) < 2 ^ 31 ->
    (forall c, In c cs ->
               unmarshal c = inr vt /\
               (forall k, dbUp c k = true) /\
               stepsSucceed c (queue.FileID vt) = false) ->
    let r := rabbitmq.handleDeliveries ProcessTask
               (fun msg w => snd (loggerError msg w)) cs w in
    fst r = repeat rabbitmq.NackRequeue (List.length cs) /\
    exists row' new,
      storage.GetTaskByID true (queue.TaskID vt) (db (snd r)) = inr row' /\
      Attempts row' = Attempts row + Z.of_nat (List.length cs) /\
      sameIdentity row row' /\
      match cs with [] => row' = row | _ => Status row' = TaskStatusFailed end /\
      events (snd r) = (events w ++ new)%list /\
      List.length (notifications new) =
        Z.to_nat (Z.min (Z.of_nat (List.length cs))
                        (Attempts row + Z.of_nat (List.length cs) - 2)) /\
      Forall (fun ev => exists err,
                  ev = Sent (ChatID row) (TelegramMessageID row)
                         failureNotice err)
             (notifications new).
Proof.
  induction cs as [|c cs IH]; intros w row Hk Hg Hlo Hhi Hall r.
  - subst r. cbn [rabbitmq.handleDeliveries fst snd List.length repeat].
    split; [reflexivity|]. exists row, [].
    rewrite app_nil_r, Z.add_0_r.
    split; [exact Hg|]. split; [reflexivity|].
    split; [apply sameIdentity_refl|]. split; [reflexivity|].
    split; [reflexivity|]. split; [|constructor].
    cbn. lia.
  - destruct (Hall c (or_introl eq_refl)) as (Hu & Hup & Hf).
    cbn [List.length] in Hhi. rewrite Nat2Z.inj_succ in Hhi.
    destruct (failed_cycle_stored c w vt row Hk Hup Hu Hg
                ltac:(split; lia) Hf)
      as (e & msg & r1 & new1 & R0 & _ & R2 & R3 & R4 & R5 & _ & _ & R8
          & R9 & R10).
    subst r. cbn [rabbitmq.handleDeliveries].
    destruct (ProcessTask c w) as [err w1] eqn:Ep.
    cbn [fst snd] in R0, R2, R3, R9. subst err.
    set (w2 := snd (loggerError "Failed to handle message" w1)).
    assert (Hdb2 : db w2 = db w1) by reflexivity.
    assert (Hev2 : events w2 =
                   (events w ++ new1 ++ [LoggedError "Failed to handle message"])%list).
    { unfold w2. rewrite loggerError_run. cbn [snd events].
      rewrite R9, <- app_assoc. reflexivity. }
    specialize (IH w2 r1).
    rewrite Hdb2 in IH.
    specialize (IH R3 R2 ltac:(lia) ltac:(lia)
                   (fun c' H' => Hall c' (or_intror H'))).
    cbv zeta in IH.
    destruct (rabbitmq.handleDeliveries ProcessTask _ cs w2) as [acks w3].
    cbn [fst snd] in *.
    destruct IH as (Hacks & row' & new & G & A & S & St & Ev & Len & All).
    split; [rewrite Hacks; reflexivity|].
    exists row', (new1 ++ [LoggedError "Failed to handle message"] ++ new)%list.
    split; [exact G|].
    split; [rewrite A, R5; cbn [List.length]; lia|].
    split.
    { destruct R8 as (? & ? & ? & ? & ? & ?).
      destruct S as (? & ? & ? & ? & ? & ?).
      repeat split; congruence. }
    split.
    { destruct cs; [rewrite St; exact R4|exact St]. }
    split; [rewrite Ev, Hev2, <- !app_assoc; reflexivity|].
    rewrite !notifications_app. cbn [notifications filter app].
    rewrite !length_app, Len, R10, R5.
    destruct R8 as (_ & Rm & Rc & _).
    split.
    + destruct (Z.geb_spec (Attempts row + 1) 3); cbn [List.length]; lia.
    + apply Forall_app. split.
      * destruct (Attempts row + 1 >=? 3); repeat constructor. eauto.
      * rewrite <- Rm, <- Rc. exact All.
Qed.

Lemma unknown_deliveries (s : storage.PostgresStorage)
  (cs : list Collaborators) :
  (forall c, In c cs ->
             match unmarshal c with
             | inl _ => True
             | inr vt => storage.has_id (queue.TaskID vt) (storage.tasks s) = false
             end) ->
  forall w,
    db w = s ->
    let r := rabbitmq.handleDeliveries ProcessTask
               (fun msg w => snd (loggerError msg w)) cs w in
    fst r = repeat rabbitmq.NackRequeue (List.length cs) /\
    db (snd r) = s /\
    events (snd r) =
      (events w
       ++ repeat (LoggedError "Failed to handle message") (List.length cs))%list.
Proof.
  induction cs as [|c cs IH]; intros Hall w Hdb r; subst r.
  - cbn. rewrite app_nil_r. auto.
  - cbn [rabbitmq.handleDeliveries].
    assert (Hc : exists e, ProcessTask c w =
                           (Some e, {| db := db w;
                                       step := step (snd (ProcessTask c w));
                                       events := events w |})).
    { specialize (Hall c (or_introl eq_refl)). unfold ProcessTask.
      destruct (unmarshal c) as [e|vt]; [eexists; destruct w; reflexivity|].
      run. unfold storage.GetTaskByID.
      assert (F : find (fun r => String.eqb (ID r) (queue.TaskID vt))
                       (storage.tasks (db w)) = None).
      { destruct (find _ _) as [r|] eqn:F; [|reflexivity].
        rewrite <- Hdb, (find_has_id _ _ _ F) in Hall. discriminate. }
      rewrite F. destruct (negb (dbUp c (step w))); eexists; reflexivity. }
    destruct Hc as [e Hc]. rewrite Hc.
    set (w2 := snd (loggerError "Failed to handle message" _)).
    specialize (IH (fun c' H' => Hall c' (or_intror H')) w2 Hdb).
    cbv zeta in IH.
    destruct (rabbitmq.handleDeliveries ProcessTask _ cs w2) as [acks w3].
    cbn [fst snd] in *. destruct IH as (Ha & Hd & He).
    split; [rewrite Ha; reflexivity|]. split; [exact Hd|].
    rewrite He. unfold w2. rewrite loggerError_run. cbn [snd events repeat].
    rewrite <- app_assoc. reflexivity.
Qed.

(** X19.  Nothing stops the redelivery of a task that keeps failing.  The
    consumer answers every delivery whose handling returned an error with
    a negative acknowledgement that asks for requeueing, and a cycle does
    not look at the attempts of the task it loads.  So when the message of
    a stored task is delivered [n] times and the external steps fail each
    time (the database being reached, the attempts staying below the
    limit of their column), all [n] deliveries are requeued, the stored
    attempts have grown by [n], past three as well, and the user has been
    sent the failure notice once for every cycle that ended with three
    attempts or more. *)
Theorem failing_task_is_requeued_without_limit :
  forall (vt : queue.VoiceTask) (cs : list Collaborators) (w : World)
         (row : Task),
    storage.Reachable (db w) ->
    storage.GetTaskByID true (queue.TaskID vt) (db w) = inr row ->
    Attempts row + Z.of_nat (List.length cs) < 2 ^ 31 ->
    (forall c, In c cs ->
               unmarshal c = inr vt /\
               (forall k, dbUp c k = true) /\
               stepsSucceed c (queue.FileID vt) = false) ->
    let r := consumeVoiceProcessing None None cs w in
    fst (fst r) = None /\
    snd (fst r) = repeat rabbitmq.NackRequeue (List.length cs) /\
    exists row' new,
      storage.GetTaskByID true (queue.TaskID vt) (db (snd r)) = inr row' /\
      Attempts row' = Attempts row + Z.of_nat (List.length cs) /\
      (cs <> [] -> Status row' = TaskStatusFailed) /\
      events (snd r) = (events w ++ new)%list /\
      List.length (notifications new) =
        Z.to_nat (Z.min (Z.of_nat (List.length cs))
                        (Attempts row + Z.of_nat (List.length cs) - 2)) /\
      Forall (fun ev => exists err,
                  ev = Sent (ChatID row) (TelegramMessageID row)
                         failureNotice err)
             (notifications new).
Proof.
  intros vt cs w row Hreach Hg Hhi Hall r.
  pose proof (Reachable_WellKeyed _ Hreach) as Hk.
  assert (Hlo : - 2 ^ 31 <= Attempts row).
  { pose proof (Reachable_attempts _ Hreach row
                  (proj1 (GetTaskByID_In _ _ _ _ Hg))) as Hi.
    unfold storage.inInt4 in Hi. apply andb_true_iff in Hi.
    destruct Hi as [Hi _]. now apply Z.leb_le in Hi. }
  pose proof (failing_deliveries vt cs w row Hk Hg Hlo Hhi Hall) as H.
  cbv zeta in H. subst r.
  unfold consumeVoiceProcessing, rabbitmq.Consume.
  destruct (rabbitmq.handleDeliveries ProcessTask _ cs w) as [acks w'].
  cbn [fst snd] in *.
  destruct H as (Ha & row' & new & G & A & _ & St & Ev & Len & All).
  split; [reflexivity|]. split; [exact Ha|].
  exists row', new. split; [exact G|]. split; [exact A|].
  split; [|auto].
  intros Hne. destruct cs; [congruence|exact St].
Qed.

Lemma failing_task_is_requeued_without_limit_witness :
  let r := consumeVoiceProcessing None None
             [uploadFails; uploadFails; uploadFails] world1 in
  snd (fst r) =
    [rabbitmq.NackRequeue; rabbitmq.NackRequeue; rabbitmq.NackRequeue] /\
  exists row' new,
    storage.GetTaskByID true "task-123" (db (snd r)) = inr row' /\
    Attempts row' = 5 /\
    events (snd r) = (events world1 ++ new)%list /\
    List.length (notifications new) = 3%nat.
Proof.
  intros r.
  destruct (failing_task_is_requeued_without_limit voiceTask1
              [uploadFails; uploadFails; uploadFails] world1 row1)
    as (_ & Ha & row' & new & G & A & _ & Ev & Len & _).
  - exact (storage.reach_CreateTask true row1 storage.empty storage.reach_empty).
  - reflexivity.
  - reflexivity.
  - intros c [<-|[<-|[<-|[]]]]; repeat split.
  - split; [exact Ha|]. exists row', new.
    split; [exact G|]. split; [exact A|]. split; [exact Ev|exact Len].
Defined.

(** X20.  A message without a task is requeued every time.  When the body
    of a delivery cannot be decoded, or names a task that is not in the
    store, the handler returns an error without touching the store, and
    the consumer answers with a negative acknowledgement that asks for
    requeueing: after any number of such deliveries the store is as it
    was, nothing was sent to any user, and the only trace is one error
    log line per delivery. *)
Theorem delivery_without_task_is_requeued :
  forall (cs : list Collaborators) (w : World),
    (forall c, In c cs ->
               match unmarshal c with
               | inl _ => True
               | inr vt =>
                   storage.has_id (queue.TaskID vt) (storage.tasks (db w))
                   = false
               end) ->
    let r := consumeVoiceProcessing None None cs w in
    fst (fst r) = None /\
    snd (fst r) = repeat rabbitmq.NackRequeue (List.length cs) /\
    db (snd r) = db w /\
    events (snd r) =
      (events w
       ++ repeat (LoggedError "Failed to handle message") (List.length cs))%list.
Proof.
  intros cs w Hall r.
  pose proof (unknown_deliveries (db w) cs Hall w eq_refl) as H.
  cbv zeta in H. subst r.
  unfold consumeVoiceProcessing, rabbitmq.Consume.
  destruct (rabbitmq.handleDeliveries ProcessTask _ cs w) as [acks w'].
  cbn [fst snd] in *. tauto.
Qed.

Lemma delivery_without_task_is_requeued_witness :
  let w := {| db := storage.empty; step := 0; events := [] |} in
  let r := consumeVoiceProcessing None None [allWell; allWell] w in
  snd (fst r) = [rabbitmq.NackRequeue; rabbitmq.NackRequeue] /\
  db (snd r) = storage.empty.
Proof.
  intros w r.
  destruct (delivery_without_task_is_requeued [allWell; allWell] w)
    as (_ & Ha & Hd & _).
  - intros c [<-|[<-|[]]]; reflexivity.
  - split; [exact Ha|exact Hd].
Defined.

End consumer_extra.

(** ** Polling for the recognition result *)

Module polling_extra.

Import speechkit speechkit_client.
Open Scope string_scope.
Open Scope Z_scope.

Lemma Sub_elapsed (now start : Z) :
  start <= now ->
  (Sub now start >? MaxWaitTime) = (now - start >? MaxWaitTime).
Proof.
  intros H. unfold Sub, minInt64, maxInt64, MaxWaitTime.
  destruct (Z.gtb_spec (now - start) (30 * (60 * 10 ^ 9)));
    destruct (Z.gtb_spec (Z.max (- 2 ^ 63) (Z.min (2 ^ 63 - 1) (now - start)))
                         (30 * (60 * 10 ^ 9))); try reflexivity; lia.
Qed.

Lemma pollLoop_finishes (poll : nat -> Z -> Poll * Z) (fuel : nat) :
  forall (round : nat) (start now : Z),
    start <= now ->
    Z.of_nat round * OperationPoll <= now - start ->
    Z.of_nat round * OperationPoll <= MaxWaitTime + OperationPoll ->
    MaxWaitTime - (now - start) < (Z.of_nat fuel - 1) * OperationPoll ->
    (1 <= fuel)%nat ->
    exists r n t,
      (forall extra,
          pollLoop poll (fuel + extra) round start now = Finished r n t) /\
      Z.of_nat n * OperationPoll <= MaxWaitTime + OperationPoll /\
      now <= t.
Proof.
  induction fuel as [|fuel IH]; intros round start now Hle I1 I2 Hf H1; [lia|].
  cbn [Nat.add pollLoop]. rewrite Sub_elapsed by exact Hle.
  destruct (Z.gtb_spec (now - start) MaxWaitTime) as [Hgt|Hok].
  { do 3 eexists. split; [reflexivity|]. split; [exact I2|lia]. }
  destruct (poll round now) as [answer d].
  assert (Hn : Z.of_nat (S round) * OperationPoll <= MaxWaitTime + OperationPoll)
    by (rewrite Nat2Z.inj_succ; unfold OperationPoll in *; lia).
  destruct answer as [e|e|e|status body|e| |message code|[[e|e|result]|]];
    try (do 3 eexists; split; [reflexivity|]; split; [assumption|lia]).
  destruct (IH (S round) start (now + Z.max 0 d + OperationPoll))
    as (r & n & t & H & Hb & Ht);
    try (unfold OperationPoll, MaxWaitTime in *;
         rewrite ?Nat2Z.inj_succ in *; lia).
  exists r, n, t. split; [exact H|]. split; [exact Hb|].
  unfold OperationPoll in Ht. lia.
Qed.

Lemma pollLoop_never_done (poll : nat -> Z -> Poll * Z) (fuel : nat) :
  (forall k t, fst (poll k t) = NotDone) ->
  forall (round : nat) (start now : Z) r n t,
    start <= now ->
    pollLoop poll fuel round start now = Finished r n t ->
    r = inl (Errorf "recognition timeout exceeded") /\
    MaxWaitTime < t - start /\
    (round <= n)%nat /\
    (now - start <= MaxWaitTime -> (round < n)%nat).
Proof.
  intros Hall. induction fuel as [|fuel IH];
    intros round start now r n t Hle H; [discriminate|].
  cbn [pollLoop] in H. rewrite Sub_elapsed in H by exact Hle.
  destruct (Z.gtb_spec (now - start) MaxWaitTime) as [Hgt|Hok].
  { injection H as <- <- <-. repeat split; lia. }
  specialize (Hall round now). destruct (poll round now) as [answer d].
  cbn [fst] in Hall. subst answer.
  apply IH in H; [|unfold OperationPoll; lia].
  destruct H as (Hr & Ht & Hn & _). repeat split; auto; lia.
Qed.

Lemma pollLoop_result (poll : nat -> Z -> Poll * Z) (fuel : nat) :
  forall (round : nat) (start now : Z) result n t,
    pollLoop poll fuel round start now = Finished (inr result) n t ->
    exists k t',
      n = S k /\
      Sub t' start <= MaxWaitTime /\
      t = t' + Z.max 0 (snd (poll k t')) /\
      (fst (poll k t') = DoneResponse (Some (Parsed result)) \/
       fst (poll k t') = DoneResponse None /\ result = {| Chunks := [] |}).
Proof.
  induction fuel as [|fuel IH]; intros round start now result n t H;
    [discriminate|].
  cbn [pollLoop] in H.
  destruct (Z.gtb_spec (Sub now start) MaxWaitTime) as [Hgt|Hok];
    [discriminate|].
  destruct (poll round now) as [answer d] eqn:Ep.
  destruct answer as [e|e|e|status body|e| |message code|[[e|e|res]|]];
    try discriminate.
  - exact (IH _ _ _ _ _ _ H).
  - injection H as <- <- <-. exists round, now. rewrite Ep. cbn [fst snd].
    repeat split; auto.
  - injection H as <- <- <-. exists round, now. rewrite Ep. cbn [fst snd].
    repeat split; auto.
Qed.

(** X21.  The wait for the result always ends: whatever the polls meet
    and however long they take, 362 passes through the loop are enough for
    [WaitForResult] to return, more passes change nothing, and at most 361
    requests are sent: one every five seconds or more, none once thirty
    minutes have elapsed. *)
Theorem WaitForResult_returns :
  forall (poll : nat -> Z -> Poll * Z) (now : Z),
  exists r n t,
    (forall fuel, (362 <= fuel)%nat ->
                  WaitForResult poll fuel now = Finished r n t) /\
    (n <= 361)%nat /\
    now <= t.
Proof.
  intros poll now.
  destruct (pollLoop_finishes poll 362 0 now now) as (r & n & t & H & Hn & Ht);
    unfold OperationPoll, MaxWaitTime in *; try lia.
  exists r, n, t. split; [|split; [lia|exact Ht]].
  intros fuel Hf. unfold WaitForResult.
  replace fuel with (362 + (fuel - 362))%nat by lia. apply H.
Qed.

(** X22.  An operation that never completes makes the wait end with the
    timeout error, more than thirty minutes after the call and after at
    least one request. *)
Theorem WaitForResult_times_out :
  forall (poll : nat -> Z -> Poll * Z) (now : Z),
    (forall k t, fst (poll k t) = NotDone) ->
    exists n t,
      WaitForResult poll 362 now =
        Finished (inl (Errorf "recognition timeout exceeded")) n t /\
      (1 <= n <= 361)%nat /\
      MaxWaitTime < t - now.
Proof.
  intros poll now Hall.
  destruct (pollLoop_finishes poll 362 0 now now) as (r & n & t & H & Hn & Ht);
    unfold OperationPoll, MaxWaitTime in *; try lia.
  specialize (H 0%nat). cbn [Nat.add] in H.
  destruct (pollLoop_never_done poll 362 Hall 0 now now r n t (Z.le_refl _) H)
    as (Hr & Hgt & _ & H1).
  subst r. exists n, t. split; [exact H|]. split; [|exact Hgt].
  specialize (H1 ltac:(unfold MaxWaitTime; lia)). lia.
Qed.

Lemma WaitForResult_times_out_witness :
  exists n t,
    WaitForResult (fun _ _ => (NotDone, 0)) 362 0 =
      Finished (inl (Errorf "recognition timeout exceeded")) n t /\
    (1 <= n <= 361)%nat /\
    MaxWaitTime < t - 0.
Proof.
  exact (WaitForResult_times_out (fun _ _ => (NotDone, 0)) 0
           (fun _ _ => eq_refl)).
Defined.

(** X23.  A result comes from a completed operation only: when
    [WaitForResult] returns a result, its last request was begun within
    the thirty minutes, met an operation that is done without error, and
    the result is the parsed response, or the empty result, whose text is
    empty, when the operation carries no response. *)
Theorem WaitForResult_result_is_the_response :
  forall (poll : nat -> Z -> Poll * Z) (fuel : nat) (now : Z)
         (result : RecognitionResult) (n : nat) (t : Z),
    WaitForResult poll fuel now = Finished (inr result) n t ->
    exists k t',
      n = S k /\
      Sub t' now <= MaxWaitTime /\
      t = t' + Z.max 0 (snd (poll k t')) /\
      (fst (poll k t') = DoneResponse (Some (Parsed result)) \/
       fst (poll k t') = DoneResponse None /\ GetFullText result = "").
Proof.
  intros poll fuel now result n t H.
  destruct (pollLoop_result poll fuel 0 now now result n t H)
    as (k & t' & Hn & Hs & Ht & Hr).
  exists k, t'. repeat (split; [assumption|]).
  destruct Hr as [Hr|[Hr ->]]; [left; exact Hr|right; split; [exact Hr|]].
  reflexivity.
Qed.

Lemma WaitForResult_result_is_the_response_witness :
  exists k t',
    2%nat = S k /\
    Sub t' 0 <= MaxWaitTime /\
    7 + OperationPoll + 7
    = t' + Z.max 0 (snd (polling_examples.doneAtSecondPoll k t')) /\
    (fst (polling_examples.doneAtSecondPoll k t')
     = DoneResponse (Some (Parsed {| Chunks := [] |})) \/
     fst (polling_examples.doneAtSecondPoll k t') = DoneResponse None /\
     GetFullText {| Chunks := [] |} = "").
Proof.
  exact (WaitForResult_result_is_the_response
           polling_examples.doneAtSecondPoll
           5 0 {| Chunks := [] |} 2 (7 + OperationPoll + 7) eq_refl).
Defined.

End polling_extra.

(** ** The text of a result *)

Module text_extra.

Import speechkit speechkit_claims.
Open Scope string_scope.

Lemma length_append (a b : string) :
  String.length (a ++ b) = (String.length a + String.length b)%nat.
Proof. induction a as [|x a IH]; cbn; [reflexivity|now rewrite IH]. Qed.

Lemma length_concat_spaced (ts : list string) :
  String.length (String.concat "" (map (fun t => t ++ " ") ts)) =
  list_sum (map (fun t => S (String.length t)) ts).
Proof.
  induction ts as [|t ts IH]; [reflexivity|].
  cbn [map list_sum]. rewrite concat_cons, !length_append, IH. cbn.
  rewrite Nat.add_1_r. reflexivity.
Qed.

(** X24.  The full text holds every alternative's text followed by one
    space, so its length is the sum of the lengths of the texts plus the
    number of alternatives, and it is empty exactly when the result has
    no alternative at all: an alternative with an empty text still
    contributes its space. *)
Theorem GetFullText_empty_iff_no_alternative :
  forall r : RecognitionResult,
    String.length (GetFullText r) =
      list_sum (map (fun t => S (String.length t)) (texts r)) /\
    (GetFullText r = "" <-> texts r = []).
Proof.
  intros r.
  assert (L : String.length (GetFullText r) =
              list_sum (map (fun t => S (String.length t)) (texts r)))
    by (rewrite GetFullText_texts; apply length_concat_spaced).
  split; [exact L|]. split.
  - intros E. rewrite E in L. destruct (texts r) as [|t ts]; [reflexivity|].
    cbn in L. discriminate.
  - intros E. rewrite GetFullText_texts, E. reflexivity.
Qed.

End text_extra.

(** ** Cache keys *)

Module cache_extra.

Import cache.
Open Scope string_scope.
Open Scope Z_scope.

Lemma itoa_inj (a b : Z) : itoa a = itoa b -> a = b.
Proof.
  unfold itoa. intros H.
  assert (Hn : forall z, Z.to_int z <> Decimal.Pos Decimal.Nil /\
                         Z.to_int z <> Decimal.Neg Decimal.Nil).
  { intros [|p|p]; cbn; split; try discriminate; intros E; injection E as E;
      exact (DecimalPos.Unsigned.to_uint_nonnil p E). }
  apply (f_equal NilZero.int_of_string) in H.
  rewrite !NilZero.isi in H by apply Hn.
  injection H as H. apply (f_equal Z.of_int) in H.
  now rewrite !DecimalZ.of_to in H.
Qed.

Lemma append_inj (p a b : string) : p ++ a = p ++ b -> a = b.
Proof.
  induction p as [|ch p IH]; cbn; intros H; [exact H|].
  injection H as H. exact (IH H).
Qed.

(** X25.  Cache keys do not collide: the key of the active flag
    determines the chat, the task and transcript keys determine the task
    id, and no key of one kind is a key of another kind. *)
Theorem cache_keys_do_not_collide :
  (forall a b, ChatActiveCacheKey a = ChatActiveCacheKey b -> a = b) /\
  (forall x y, TaskCacheKey x = TaskCacheKey y -> x = y) /\
  (forall x y, TranscriptCacheKey x = TranscriptCacheKey y -> x = y) /\
  (forall x y, TaskCacheKey x <> TranscriptCacheKey y) /\
  (forall x n, TaskCacheKey x <> ChatActiveCacheKey n) /\
  (forall x n, TranscriptCacheKey x <> ChatActiveCacheKey n).
Proof.
  unfold ChatActiveCacheKey, TaskCacheKey, TranscriptCacheKey, CacheKey_String.
  cbn [Prefix ID].
  split; [intros a b H; apply itoa_inj; exact (append_inj _ _ _ H)|].
  split; [intros x y H; exact (append_inj "task:" _ _ H)|].
  split; [intros x y H; exact (append_inj "transcript:" _ _ H)|].
  repeat split; intros x y H; cbn in H; discriminate.
Qed.

End cache_extra.

(** ** Ingress *)

Module ingress_extra.

Import model storage key_facts bot ingress_examples publish_examples.
Open Scope string_scope.
Open Scope Z_scope.

(** X26.  Voice messages of a chat that is not known to be active are
    ignored: when the cache has no value for the chat, cannot be read, or
    holds anything but "true", [handleVoice] returns nil and leaves the
    store, the queue and the replies as they were. *)
Theorem handleVoice_ignores_inactive_chats :
  forall (c : Surroundings) (w : World) (msg : Message) (voice : Voice),
    message c = Some msg ->
    Message_Voice msg = Some voice ->
    cacheGet c <> inr "true" ->
    handleVoice c w = (None, w).
Proof.
  intros c w msg voice Hm Hv Hc. unfold handleVoice. rewrite Hm, Hv.
  unfold isActive.
  destruct (cacheGet c) as [e|value]; [reflexivity|].
  destruct (String.eqb_spec value "true"); [congruence|reflexivity].
Qed.

Lemma handleVoice_ignores_inactive_chats_witness :
  handleVoice cacheDown world0 = (None, world0).
Proof.
  exact (handleVoice_ignores_inactive_chats cacheDown world0 _ _
           eq_refl eq_refl ltac:(discriminate)).
Defined.

(** What a handled voice message leaves in the queue and in the store. *)
Lemma handleVoice_cases (c : Surroundings) (w : World) :
  (db (snd (handleVoice c w)) = db w /\
   published (snd (handleVoice c w)) = published w) \/
  exists task,
    has_id (ID task) (tasks (db w)) = false /\
    Status task = TaskStatusQueued /\ Attempts task = 0 /\
    tasks (db (snd (handleVoice c w))) = (tasks (db w) ++ [task])%list /\
    (published (snd (handleVoice c w)) = published w \/
     exists vt,
       published (snd (handleVoice c w)) = (published w ++ [vt])%list /\
       queue.TaskID vt = ID task /\
       queue.ChatID vt = ChatID task /\
       queue.TelegramMessageID vt = TelegramMessageID task /\
       queue.FileID vt = FileID task /\
       queue.CreatedAt vt = CreatedAt task).
Proof.
  unfold handleVoice.
  destruct (message c) as [msg|]; [|left; split; reflexivity].
  destruct (Message_Voice msg) as [voice|]; [|left; split; reflexivity].
  destruct (isActive c (Chat_ID msg)); [|left; split; reflexivity].
  cbn [negb Reply db published replies].
  match goal with
  | |- context [CreateTask _ ?t _] => set (task := t)
  end.
  unfold CreateTask.
  destruct (negb (dbUp c)); [left; split; reflexivity|]. cbn [orb].
  destruct (has_id (ID task) (tasks (db w))) eqn:Hid;
    [left; split; reflexivity|]. cbn [orb].
  destruct (has_pair _ _ _); [left; split; reflexivity|]. cbn [orb negb].
  right. exists task. cbn [inInt4]. change (inInt4 (Attempts task)) with true.
  cbn [negb db published].
  split; [exact Hid|]. split; [reflexivity|]. split; [reflexivity|].
  destruct (hasQueue c); [|split; [reflexivity|left; reflexivity]].
  destruct (publishTask c); cbn [snd db published Reply];
    (split; [reflexivity|]); [left; reflexivity|].
  right. eexists. split; [reflexivity|]. repeat split.
Qed.

(** The invariant of the ingress: published messages name stored rows. *)
Lemma published_rows (w : World) :
  Handled w ->
  (forall vt, In vt (published w) ->
     exists row,
       In row (tasks (db w)) /\
       ID row = queue.TaskID vt /\
       ChatID row = queue.ChatID vt /\
       TelegramMessageID row = queue.TelegramMessageID vt /\
       FileID row = queue.FileID vt /\
       CreatedAt row = queue.CreatedAt vt /\
       Status row = TaskStatusQueued /\
       Attempts row = 0) /\
  NoDup (map queue.TaskID (published w)) /\
  (List.length (published w) <= List.length (tasks (db w)))%nat.
Proof.
  induction 1 as [|c w Hw (IH1 & IH2 & IH3)].
  - cbn. split; [intros vt []|]. split; [constructor|lia].
  - destruct (handleVoice_cases c w)
      as [[-> ->]|(task & Hfresh & Hs & Ha & -> & Hp)]; [auto|].
    assert (Hold : forall vt, In vt (published w) ->
              exists row,
                In row (tasks (db w) ++ [task]) /\
                ID row = queue.TaskID vt /\
                ChatID row = queue.ChatID vt /\
                TelegramMessageID row = queue.TelegramMessageID vt /\
                FileID row = queue.FileID vt /\
                CreatedAt row = queue.CreatedAt vt /\
                Status row = TaskStatusQueued /\
                Attempts row = 0).
    { intros vt Hin. destruct (IH1 vt Hin) as (row & Hr & Hrest).
      exists row. split; [apply in_or_app; left; exact Hr|exact Hrest]. }
    destruct Hp as [->|(vt & -> & Hi & Hc & Hm & Hf & Hk)].
    + split; [exact Hold|]. split; [exact IH2|].
      rewrite length_app. cbn. lia.
    + split; [|split].
      * intros vt' Hin. apply in_app_or in Hin.
        destruct Hin as [Hin|[<-|[]]]; [exact (Hold vt' Hin)|].
        exists task. split; [apply in_or_app; right; left; reflexivity|].
        repeat split; auto.
      * rewrite map_app. cbn [map]. apply NoDup_snoc; [exact IH2|].
        intros Hin. apply in_map_iff in Hin.
        destruct Hin as (vt' & Heq & Hin).
        destruct (IH1 vt' Hin) as (row & Hr & Hid & _).
        assert (Hh : has_id (ID task) (tasks (db w)) = true).
        { apply has_id_In. apply in_map_iff. exists row.
          split; [congruence|exact Hr]. }
        congruence.
      * rewrite !length_app. cbn. lia.
Qed.

Lemma Handled_Reachable (w : World) : Handled w -> Reachable (db w).
Proof.
  induction 1 as [|c w Hw IH]; [exact reach_empty|].
  destruct (bot_claims.handleVoice_db c w) as [->|(task & _ & _ & ->)];
    [exact IH|]. now constructor.
Qed.

(** With distinct ids, a stored row is the one read by its id. *)
Lemma GetTaskByID_stored (s : PostgresStorage) (row : Task) :
  NoDup (map ID (tasks s)) -> In row (tasks s) ->
  GetTaskByID true (ID row) s = inr row.
Proof.
  intros Hnd Hin. unfold GetTaskByID. cbn [negb].
  destruct (find (fun r => String.eqb (ID r) (ID row)) (tasks s))
    as [r|] eqn:F.
  - apply find_some in F. destruct F as [Hr Heq].
    apply String.eqb_eq in Heq.
    now rewrite (storage_extra.NoDup_map_eq ID (tasks s) r row Hnd Hr Hin Heq).
  - exfalso.
    apply (find_none _ _ F) in Hin. now rewrite String.eqb_refl in Hin.
Qed.



(** X28.  The task is stored before it is published, and stays stored
    when the queue refuses it: for a voice message of an active chat whose
    task the store accepts, a failed publish leaves the new task in the
    store, queued, with nothing published; the user is told that the
    hand-over to the queue failed and the handler returns the result of
    that reply. *)
Theorem handleVoice_publish_failure_keeps_the_task :
  forall (c : Surroundings) (w : World) (msg : Message) (voice : Voice)
         (e : error),
    message c = Some msg ->
    Message_Voice msg = Some voice ->
    cacheGet c = inr "true" ->
    dbUp c = true ->
    has_id (newUUID c) (tasks (db w)) = false ->
    has_pair (Chat_ID msg) (Message_ID msg) (tasks (db w)) = false ->
    hasQueue c = true ->
    publishTask c = Some e ->
    let r := handleVoice c w in
    fst r = reply c /\
    published (snd r) = published w /\
    replies (snd r) =
      (replies w ++ ["Обработка..."; "Ошибка при отправке задачи в очередь"])%list /\
    exists task,
      tasks (db (snd r)) = (tasks (db w) ++ [task])%list /\
      ID task = newUUID c /\
      ChatID task = Chat_ID msg /\
      TelegramMessageID task = Message_ID msg /\
      FileID task = Voice_FileID voice /\
      Status task = TaskStatusQueued /\
      Attempts task = 0.
Proof.
  intros c w msg voice e Hm Hv Hc Hup Hid Hpair Hq Hp r. subst r.
  unfold handleVoice. rewrite Hm, Hv. unfold isActive. rewrite Hc.
  change (String.eqb "true" "true") with true.
  cbn [negb Reply db published replies].
  unfold CreateTask. cbn [ID ChatID TelegramMessageID Attempts].
  rewrite Hup, Hid, Hpair. cbn [negb orb].
  change (inInt4 0) with true. cbn [negb db published replies].
  rewrite Hq, Hp. cbn [Reply fst snd db published replies].
  split; [reflexivity|]. split; [reflexivity|].
  split; [rewrite <- ?app_assoc; reflexivity|].
  eexists. split; [reflexivity|]. repeat split.
Qed.

Lemma handleVoice_publish_failure_keeps_the_task_witness :
  let r := handleVoice queueDown world0 in
  fst r = None /\
  published (snd r) = [] /\
  replies (snd r) = ["Обработка..."; "Ошибка при отправке задачи в очередь"] /\
  exists task,
    tasks (db (snd r)) = [task] /\
    ID task = "task-123" /\
    ChatID task = 42 /\
    TelegramMessageID task = 7 /\
    FileID task = "file-123" /\
    Status task = TaskStatusQueued /\
    Attempts task = 0.
Proof.
  exact (handleVoice_publish_failure_keeps_the_task queueDown world0 _ _
           (Errorf "failed to publish message")
           eq_refl eq_refl eq_refl eq_refl eq_refl eq_refl eq_refl eq_refl).
Defined.

End ingress_extra.
